(** * kubeimage: the rollout convergence engine of [src/kubeimage.js]

    A shallow embedding of the command gateway ([execRetry]), the inventory
    parser ([parsePods]), the build extractor ([getPodBuildNumber],
    [getDeploymentBuildNumber], [getPodsWithBuildNumbers]), the update driver
    ([updateDeploymentBuildNumber]), the poller ([pollPods], [finishUpdate])
    and the per-target health listener ([healthCheckPods]).

    Conventions of the embedding.
    - JavaScript strings are [string]s; a character is a code unit below 256.
    - The regular expressions of the source are kept as syntax trees and run
      by a backtracking matcher written after the continuation semantics of
      ECMA-262 (section RegExp below).
    - The module-level variables of the script ([pollingTargets],
      [pollingListeners], [pollingHasErrors], ...) are the fields of one
      record, threaded through every function that touches them.
    - [process.exit] and an uncaught exception end a run; every function that
      can reach one returns an [outcome].
    - The external command is an oracle: it answers a command line and the
      number of failures seen so far with an exit status and two streams.
    - The script is driven by callbacks.  A function of the model runs its
      source function together with the callbacks that function sets going,
      up to the next timer of the poll loop or the end of the process, in
      the schedule in which no callback of another target runs in between.
      Each such function takes the clock reading and the oracle it runs
      against, so a run of the script is a sequence of such calls. *)

From Stdlib Require Import ZArith Lia String Ascii List Bool.
From stdpp Require Import base list strings.
From Equations Require Import Equations.

Open Scope string_scope.
Open Scope list_scope.

#[local] Arguments String.append : simpl nomatch.

(** ** Strings *)

(** [firstChars n s] is the first [n] characters of [s] (all of [s] when it
    is shorter). *)
Fixpoint firstChars (n : nat) (s : string) : string :=
  match n, s with
  | S n', String c s' => String c (firstChars n' s')
  | _, _ => EmptyString
  end.

(** [allChars p s]: every character of [s] satisfies [p]. *)
Fixpoint allChars (p : ascii -> bool) (s : string) : bool :=
  match s with
  | EmptyString => true
  | String c s' => p c && allChars p s'
  end.

(** [Array.prototype.join] on an array of strings. *)
Fixpoint join (sep : string) (l : list string) : string :=
  match l with
  | [] => ""
  | [x] => x
  | x :: l' => x +:+ sep +:+ join sep l'
  end.

(** ** RegExp: the pattern subset used by the script

    ECMA-262 gives a pattern the meaning of a matcher: a function of a state
    (end index, captures) and a continuation, which returns the final state or
    failure.  The matcher below is that definition for the constructs the
    script uses.  The state keeps the text still to be read ([rest]) and the
    last character read ([prev], for [^]) in place of an index. *)

Module RegExp.

Inductive re : Type :=
| Empty                              (* the empty pattern *)
| Char (c : ascii)                   (* a literal character *)
| Class (p : ascii -> bool)          (* [.], [[\d]], [[\s]], [[^\s]] *)
| LineStart (multiline : bool)       (* [^], with or without the m flag *)
| Seq (r1 r2 : re)                   (* r1 r2 *)
| Alt (r1 r2 : re)                   (* r1|r2 *)
| Star (greedy : bool) (r : re)      (* r* and r*? *)
| Group (n : nat) (r : re).          (* the n-th capturing parenthesis *)

Record State : Type := mkState {
  prev : option ascii;               (* the character before the end index *)
  rest : string;                     (* the input from the end index on *)
  captures : list (nat * string)     (* newest first *)
}.

Definition advance (a : ascii) (s : string) (x : State) : State :=
  {| prev := Some a; rest := s; captures := captures x |}.

(** The text read between state [x] and a later state [y]. *)
Definition consumed (x y : State) : string :=
  firstChars (String.length (rest x) - String.length (rest y)) (rest x).

Definition capture (n : nat) (x y : State) : State :=
  {| prev := prev y; rest := rest y;
     captures := (n, consumed x y) :: captures y |}.

Definition isLineTerminator (c : ascii) : bool :=
  (c =? "010")%char || (c =? "013")%char.

Definition isDigit (c : ascii) : bool :=
  ((48 <=? nat_of_ascii c) && (nat_of_ascii c <=? 57))%nat.

(** [\s]: tab, line feed, vertical tab, form feed, carriage return, space and
    the no-break space. *)
Definition isSpace (c : ascii) : bool :=
  let n := nat_of_ascii c in
  (((9 <=? n) && (n <=? 13)) || (n =? 32) || (n =? 160))%nat.

Definition Dot : re := Class (fun c => negb (isLineTerminator c)).
Definition Digit : re := Class isDigit.
Definition Space : re := Class isSpace.
Definition NonSpace : re := Class (fun c => negb (isSpace c)).

(** [r+]: RepeatMatcher with min = 1 runs the atom once and goes on as [r*]. *)
Definition Plus (greedy : bool) (r : re) : re := Seq r (Star greedy r).

(** A literal word, character by character. *)
Fixpoint Lit (s : string) : re :=
  match s with
  | EmptyString => Empty
  | String c s' => Seq (Char c) (Lit s')
  end.

Definition Continuation : Type := State -> option State.

(** RepeatMatcher of ECMA-262 for min = 0 and max = infinity, with [m] the
    matcher of the repeated atom: an iteration that reads nothing fails (the
    continuation [d]), so there are at most as many iterations as characters
    left, and [n] counts them down. *)
Fixpoint repeatMatcher (m : State -> Continuation -> option State)
    (greedy : bool) (c : Continuation) (n : nat) (x : State) {struct n}
  : option State :=
  match n with
  | O => c x
  | S n' =>
      let d : Continuation := fun y =>
        if (String.length (rest y) =? String.length (rest x))%nat
        then None else repeatMatcher m greedy c n' y in
      if greedy then
        match m x d with
        | Some z => Some z
        | None => c x
        end
      else
        match c x with
        | Some z => Some z
        | None => m x d
        end
  end.

(** The matcher of a pattern. *)
Fixpoint matcher (r : re) (x : State) (c : Continuation) {struct r}
  : option State :=
  match r with
  | Empty => c x
  | Char ch =>
      match rest x with
      | String a s => if (a =? ch)%char then c (advance a s x) else None
      | EmptyString => None
      end
  | Class p =>
      match rest x with
      | String a s => if p a then c (advance a s x) else None
      | EmptyString => None
      end
  | LineStart multiline =>
      match prev x with
      | None => c x
      | Some a => if multiline && isLineTerminator a then c x else None
      end
  | Seq r1 r2 => matcher r1 x (fun y => matcher r2 y c)
  | Alt r1 r2 =>
      match matcher r1 x c with
      | Some z => Some z
      | None => matcher r2 x c
      end
  | Star greedy r1 =>
      repeatMatcher (matcher r1) greedy c (String.length (rest x)) x
  | Group n r1 => matcher r1 x (fun y => c (capture n x y))
  end.

(** The least number of characters a match of the pattern reads. *)
Fixpoint minLength (r : re) : nat :=
  match r with
  | Empty | LineStart _ | Star _ _ => 0
  | Char _ | Class _ => 1
  | Seq r1 r2 => minLength r1 + minLength r2
  | Alt r1 r2 => Nat.min (minLength r1) (minLength r2)
  | Group _ r1 => minLength r1
  end.

(** RegExpBuiltinExec: try the pattern at the last index, then one character
    further, up to and including the end of the input. *)
Fixpoint search (r : re) (before : option ascii) (s : string)
  : option State :=
  match matcher r (mkState before s []) Some with
  | Some z => Some z
  | None =>
      match s with
      | EmptyString => None
      | String a s' => search r (Some a) s'
      end
  end.

(** [re.exec(s)] for a pattern without the g flag. *)
Definition exec (r : re) (s : string) : option State := search r None s.

(** [m[n]]: the newest capture of group [n]. *)
Fixpoint lookupGroup (n : nat) (caps : list (nat * string)) : option string :=
  match caps with
  | [] => None
  | (k, w) :: caps' => if (k =? n)%nat then Some w else lookupGroup n caps'
  end.

Definition group (n : nat) (z : State) : option string :=
  lookupGroup n (captures z).

(** [while (m = re.exec(s)) body] for a pattern with the g flag: each call
    starts where the previous match ended.  A match that reads nothing leaves
    the last index where it was and the loop of the script never ends; that is
    [None] here.  [fuel] bounds the number of matches. *)
Fixpoint execLoop (fuel : nat) (r : re) (before : option ascii) (s : string)
  : option (list State) :=
  match fuel with
  | O => None
  | S fuel' =>
      match search r before s with
      | None => Some []
      | Some z =>
          if (String.length (rest z) <? String.length s)%nat
          then cons z <$> execLoop fuel' r (prev z) (rest z)
          else None
      end
  end.

Definition execAll (r : re) (s : string) : option (list State) :=
  execLoop (S (String.length s)) r None s.

End RegExp.

Import RegExp.

Declare Scope re_scope.
Delimit Scope re_scope with re.
Bind Scope re_scope with re.
Infix ">>" := Seq (at level 62, right associativity) : re_scope.

(** ** Data model *)

(** The records pushed by [parsePods]; [build] is set later, by
    [getPodsWithBuildNumbers], and is [undefined] until then. *)
Module Pod.

Record t : Type := mk {
  id : string;
  ready : bool;
  name : string;
  state : string;
  restarts : string;
  build : option string
}.

(** [pod.build = b] *)
Definition setBuild (b : option string) (pod : t) : t :=
  mk (id pod) (ready pod) (name pod) (state pod) (restarts pod) b.

End Pod.

(** The records pushed by [parseDeployments].  [desiredCount] is [m[2]], a
    non-empty run of decimal digits; the script only ever compares it with a
    number through [==], which converts it, so the record keeps its value. *)
Module Deployment.

Record t : Type := mk {
  name : string;
  desiredCount : nat
}.

End Deployment.

(** ** Inventory parser *)

(** The pattern of [parsePods], flags g and m, piece by piece:
      group 1 = [^\s]+    then [\s]+
      group 2 = [\d]*     then /
      group 3 = [\d]*     then [\s]+
      group 4 = [^\s]+    then [\s]+
      group 5 = [\d]* *)
Definition podsRe : re :=
  (Group 1 (Plus true NonSpace) >> Plus true Space >>
   Group 2 (Star true Digit) >> Char "/" >> Group 3 (Star true Digit) >>
   Plus true Space >> Group 4 (Plus true NonSpace) >> Plus true Space >>
   Group 5 (Star true Digit))%re.

(** The pattern run on the id of a pod, without flags:
      ^    group 1 = .*    then -    then [\d]*    then - *)
Definition nameRe : re :=
  (LineStart false >> Group 1 (Star true Dot) >> Char "-" >>
   Star true Digit >> Char "-")%re.

(** [m[n]] where group [n] takes part in every match of the pattern. *)
Definition field (n : nat) (m : State) : string := default "" (group n m).

(** [m2] is the match of [nameRe] on [m[1]]; [name: m2 ? m2[1] : m[1]]. *)
Definition deriveName (id : string) : string :=
  match exec nameRe id with
  | Some m2 => field 1 m2
  | None => id
  end.

(** The body of the loop of [parsePods] for one match [m]. *)
Definition podOfMatch (m : State) : Pod.t :=
  {| Pod.id := field 1 m;
     Pod.ready := String.eqb (field 3 m) (field 2 m);
     Pod.name := deriveName (field 1 m);
     Pod.state := field 4 m;
     Pod.restarts := field 5 m;
     Pod.build := None |}.

(** [parsePods]; [None] when the loop over the matches would not end. *)
Definition parsePods (stdout : string) : option (list Pod.t) :=
  map podOfMatch <$> execAll podsRe stdout.

(** ** Build extractor *)

(** The pattern of the two single queries, without flags:
      image:    then .*    then -    then group 1 = [\d]* *)
Definition imageRe : re :=
  (Lit "image:" >> Star true Dot >> Char "-" >> Group 1 (Star true Digit))%re.

(** The pattern of the batched query, flags g and m:
      containerStatuses:    then (?:.|\n)*?    then image:    then .*
      then -    then group 1 = [\d]* *)
Definition podBuildRe : re :=
  (Lit "containerStatuses:" >> Star false (Alt Dot (Char "010")) >>
   Lit "image:" >> Star true Dot >> Char "-" >> Group 1 (Star true Digit))%re.

(** The arguments handed to the callback of [getPodBuildNumber] and
    [getDeploymentBuildNumber]: [callback(false, match[1])] or
    [callback(true)]. *)
Inductive buildAnswer : Type :=
| BuildFound (buildNumber : option string)
| BuildNotFound.

(** The two functions run the same pattern on the output of their query. *)
Definition extractBuild (stdout : string) : buildAnswer :=
  match exec imageRe stdout with
  | Some m => BuildFound (group 1 m)
  | None => BuildNotFound
  end.

(** The loop of [getPodsWithBuildNumbers] over the matches:
    [if (pods[index]) pods[index].build = m[1]; index++]. *)
Fixpoint assignBuilds (matches : list State) (index : nat) (pods : list Pod.t)
  : list Pod.t :=
  match matches with
  | [] => pods
  | m :: matches' =>
      let pods' :=
        match pods !! index with
        | Some pod => <[index := Pod.setBuild (group 1 m) pod]> pods
        | None => pods
        end in
      assignBuilds matches' (S index) pods'
  end.

(** [pods] with the builds found in the output of the batched query. *)
Definition withBuildNumbers (pods : list Pod.t) (stdout : string)
  : option (list Pod.t) :=
  (fun matches => assignBuilds matches 0 pods) <$> execAll podBuildRe stdout.

(** ** Observable actions *)

(** The lines written with [timeLog] (colours and the time stamp left out). *)
Inductive logLine : Type :=
| NetworkError (name : string) (tryNumber : nat)
| FatalOutOfRetries (name : string)
| TimeoutReached (targets : string)
| Completed (noErrors : bool)
| DeploymentUpdated (serviceName : string) (originalBuild : option string)
    (newBuildNumber : string)
| FatalWhileUpdating (serviceName : string)
| PodInState (podId state : string)
| FailedToStart (totalErrors desiredCount : nat) (serviceName : string)
| AllUpToDate (serviceName : string)
| AlreadyConfigured (serviceName : string) (buildNumber : option string)
| NotUpToDate (serviceName : string)
| ConfiguredTo (serviceName : string) (buildNumber : option string)
| PodReport (podId : string) (build : option string).

(** What a run does that can be seen from outside, in order. *)
Inductive event : Type :=
| Exec (command : string)              (* [exec(command, ...)] *)
| Log (line : logLine)                 (* [timeLog(...)] *)
| RetryIn (ms : nat)                   (* [setTimeout] of a retry *)
| Callback (stdout : string)           (* [callback(stdout)] of [execRetry] *)
| OnError                              (* [onError()] of [execRetry] *)
| Dispatch (listener : nat)            (* [listener(pods)] in [pollPods] *)
| PollIn (ms : nat)                    (* [setTimeout(pollPods, ...)] *)
| ConsoleError                         (* [console.error(...)] *)
| ProcessExit (code : Z).              (* [process.exit(code)] *)

(** ** Execution gateway *)

(** What [exec] hands to its callback. *)
Record execResult : Type := mkExec {
  error : bool;                        (* non-null when the exit is not 0 *)
  stdout : string;
  stderr : string
}.

(** [error || stderr] *)
Definition failed (r : execResult) : bool :=
  error r || negb (String.eqb (stderr r) "").

(** The cluster, as seen through [exec]: the answer to a command line, given
    the number of failures of that call so far. *)
Definition world : Type := string -> nat -> execResult.

Definition maxExecRetries : nat := 30.
Definition execDelay : nat := 2000.

(** How a call of [execRetry] ends. *)
Inductive gwResult : Type :=
| Done (stdout : string)               (* [callback(stdout)] was called *)
| Handled                              (* [onError()] was called *)
| Fatal.                               (* [process.exit(1)] was called *)

(** [after evs r]: the actions [evs], then the run [r]. *)
Definition after (evs : list event) (r : list event * gwResult)
  : list event * gwResult :=
  (evs ++ r.1, r.2).

Section Script.

(** The values of [--kubeconfig=] and [--namespace=], [None] when not given. *)
Variables kubeConfig namespace : option string.

(** [${ x ? prefix + x : ''}]: nothing for [undefined] and for the empty
    string. *)
Definition optionalParam (prefix : string) (x : option string) : string :=
  match x with
  | Some v => if String.eqb v "" then "" else prefix +:+ v
  | None => ""
  end.

Definition getExtraParams : string :=
  optionalParam " --kubeconfig=" kubeConfig +:+
  optionalParam " --namespace=" namespace.

(** [execRetry(name, command, callback, onError, tryNumber)].  [onError] tells
    whether a handler was passed; what the callback and the handler do is left
    to the caller, who gets the [gwResult]. *)
Equations? execRetry (w : world) (name command : string) (onError : bool)
    (tryNumber : nat) : list event * gwResult
    by wf (S maxExecRetries - tryNumber) lt :=
  execRetry w name command onError tryNumber
    with w (command +:+ getExtraParams) tryNumber => {
    | r with failed r => {
      | false =>
          ([Exec (command +:+ getExtraParams); Callback (stdout r)],
           Done (stdout r))
      | true with lt_dec maxExecRetries (S tryNumber) => {
        | left _ =>
            if onError then
              ([Exec (command +:+ getExtraParams); OnError], Handled)
            else
              ([Exec (command +:+ getExtraParams);
                Log (FatalOutOfRetries name); ProcessExit 1], Fatal)
        | right _ =>
            after [Exec (command +:+ getExtraParams);
                   Log (NetworkError name (S tryNumber)); RetryIn execDelay]
                  (execRetry w name command onError (S tryNumber)) } } }.
Proof. lia. Qed.

(** [getPodBuildNumber] and [getDeploymentBuildNumber]: the query, then the
    answer handed to the callback; [None] when the process has exited. *)
Definition getPodBuildNumber (w : world) (podId : string)
  : list event * option buildAnswer :=
  match execRetry w "get pod" ("kubectl get pod " +:+ podId +:+ " -o yaml")
          false 0 with
  | (evs, Done out) => (evs, Some (extractBuild out))
  | (evs, _) => (evs, None)
  end.

Definition getDeploymentBuildNumber (w : world) (serviceName : string)
  : list event * option buildAnswer :=
  match execRetry w "get deployment"
          ("kubectl get deployment " +:+ serviceName +:+ " -o yaml")
          false 0 with
  | (evs, Done out) => (evs, Some (extractBuild out))
  | (evs, _) => (evs, None)
  end.

(** How [getPodsWithBuildNumbers] ends. *)
Inductive snapshot : Type :=
| Pods (pods : list Pod.t)             (* [callback(false, pods)] *)
| NoPods                               (* the gateway has left the process *)
| Endless.                             (* a loop over matches does not end *)

(** [getPodsWithBuildNumbers(deployments, callback)].  Neither query passes an
    error handler, and [getPods] always calls back with [false] as its error,
    so the callback is only ever reached with [error == false]. *)
Definition getPodsWithBuildNumbers (w : world) (deployments : list string)
  : list event * snapshot :=
  match execRetry w "get pods" "kubectl get pods" false 0 with
  | (evs1, Done out1) =>
      match parsePods out1 with
      | Some parsed =>
          let pods := filter (fun pod => Pod.name pod ∈ deployments) parsed in
          match execRetry w "get pod"
                  ("kubectl get pod " +:+ join " " (Pod.id <$> pods) +:+
                   " -o yaml") false 0 with
          | (evs2, Done out2) =>
              match withBuildNumbers pods out2 with
              | Some pods' => (evs1 ++ evs2, Pods pods')
              | None => (evs1 ++ evs2, Endless)
              end
          | (evs2, _) => (evs1 ++ evs2, NoPods)
          end
      | None => (evs1, Endless)
      end
  | (evs1, _) => (evs1, NoPods)
  end.

(** ** Global poll state *)

(** The value of a JavaScript expression used as a number. *)
Inductive JsNumber : Type :=
| Num (z : Z)
| NaN.

(** [a > b] for an integer [a]; every comparison with [NaN] is false. *)
Definition exceeds (a : Z) (b : JsNumber) : bool :=
  match b with
  | Num z => (z <? a)%Z
  | NaN => false
  end.

(** The closure [listener] made by one call of [healthCheckPods]: what it has
    captured, and [ref], which tells two closures apart ([_.pull] compares
    them by identity). *)
Record Listener : Type := mkListener {
  ref : nat;
  deployment : Deployment.t;
  buildNumber : string
}.

(** The module-level variables of the poller.  [pollTimeout] is 600 or the
    text after [--timeout=], read as a number where it is compared (whole
    seconds; [NaN] when the text is not a number).  [pollStarted] is in whole
    seconds.  [closures] counts the listeners made so far and [trace] lists
    what the process has done. *)
Record Globals : Type := mkGlobals {
  pollingStarted : bool;
  pollingTargets : list string;
  pollingListeners : list Listener;
  pollingHasErrors : bool;
  pollTimeout : JsNumber;
  pollStarted : option Z;
  closures : nat;
  trace : list event
}.

Definition pollInterval : nat := 5000.

(** The state of the script when it is loaded. *)
Definition initial : Globals :=
  mkGlobals false [] [] false (Num 600) None 0 [].

Definition setPollingStarted (b : bool) (g : Globals) : Globals :=
  mkGlobals b (pollingTargets g) (pollingListeners g) (pollingHasErrors g)
    (pollTimeout g) (pollStarted g) (closures g) (trace g).

Definition setPollingTargets (l : list string) (g : Globals) : Globals :=
  mkGlobals (pollingStarted g) l (pollingListeners g) (pollingHasErrors g)
    (pollTimeout g) (pollStarted g) (closures g) (trace g).

Definition setPollingListeners (l : list Listener) (g : Globals) : Globals :=
  mkGlobals (pollingStarted g) (pollingTargets g) l (pollingHasErrors g)
    (pollTimeout g) (pollStarted g) (closures g) (trace g).

Definition setPollingHasErrors (b : bool) (g : Globals) : Globals :=
  mkGlobals (pollingStarted g) (pollingTargets g) (pollingListeners g) b
    (pollTimeout g) (pollStarted g) (closures g) (trace g).

Definition setPollStarted (t : option Z) (g : Globals) : Globals :=
  mkGlobals (pollingStarted g) (pollingTargets g) (pollingListeners g)
    (pollingHasErrors g) (pollTimeout g) t (closures g) (trace g).

Definition setClosures (n : nat) (g : Globals) : Globals :=
  mkGlobals (pollingStarted g) (pollingTargets g) (pollingListeners g)
    (pollingHasErrors g) (pollTimeout g) (pollStarted g) n (trace g).

(** The process does [evs]. *)
Definition emit (evs : list event) (g : Globals) : Globals :=
  mkGlobals (pollingStarted g) (pollingTargets g) (pollingListeners g)
    (pollingHasErrors g) (pollTimeout g) (pollStarted g) (closures g)
    (trace g ++ evs).

(** [_.pull(pollingTargets, serviceName)]: every occurrence goes. *)
Definition pullTarget (serviceName : string) (g : Globals) : Globals :=
  setPollingTargets (filter (fun t => t ≠ serviceName) (pollingTargets g)) g.

(** [_.pull(pollingListeners, listener)] *)
Definition pullListener (me : Listener) (g : Globals) : Globals :=
  setPollingListeners
    (filter (fun l => ref l ≠ ref me) (pollingListeners g)) g.

(** How a function called from the event loop ends. *)
Inductive outcome : Type :=
| Returned (g : Globals)               (* back in the event loop *)
| Exited (code : Z) (g : Globals)      (* [process.exit(code)] *)
| Thrown (err : string) (g : Globals)  (* an exception nobody catches *)
| Hangs (g : Globals).                 (* a loop that does not end *)

(** [process.exit(code)] *)
Definition processExit (code : Z) (g : Globals) : outcome :=
  Exited code (emit [ProcessExit code] g).

(** ** Health listener *)

Record Counters : Type := mkCounters {
  totalPodsRunning : nat;
  totalErrors : nat
}.

(** The test of the first branch in the loop of the listener: the state is
    none of the four it waits in. *)
Definition unexpectedState (st : string) : bool :=
  negb (String.eqb st "ContainerCreating") && negb (String.eqb st "Running") &&
  negb (String.eqb st "Pending") && negb (String.eqb st "Terminating").

(** The body of [currentPods.forEach] in the listener, on the two counters
    and the log lines written so far. *)
Definition countPod (buildNumber : string) (acc : Counters * list event)
    (pod : Pod.t) : Counters * list event :=
  if bool_decide (Pod.build pod = Some buildNumber) then
    if unexpectedState (Pod.state pod) then
      (mkCounters (totalPodsRunning acc.1) (S (totalErrors acc.1)),
       acc.2 ++ [Log (PodInState (Pod.id pod) (Pod.state pod))])
    else if String.eqb (Pod.state pod) "Running" && Pod.ready pod then
      (mkCounters (S (totalPodsRunning acc.1)) (totalErrors acc.1), acc.2)
    else acc
  else acc.

(** [_.filter(pods, { name: serviceName })] and the loop over the result. *)
Definition countPods (serviceName buildNumber : string) (pods : list Pod.t)
  : Counters * list event :=
  fold_left (countPod buildNumber)
    (filter (fun pod => Pod.name pod = serviceName) pods)
    (mkCounters 0 0, []).

(** The closure [listener] of [healthCheckPods], called with a snapshot. *)
Definition listener (me : Listener) (pods : list Pod.t) (g : Globals)
  : Globals :=
  let serviceName := Deployment.name (deployment me) in
  let desiredCount := Deployment.desiredCount (deployment me) in
  let counted := countPods serviceName (buildNumber me) pods in
  let totalPodsRunning := totalPodsRunning counted.1 in
  let totalErrors := totalErrors counted.1 in
  let g := emit counted.2 g in
  if (totalPodsRunning + totalErrors =? desiredCount)%nat then
    let g :=
      if (0 <? totalErrors)%nat then
        emit [Log (FailedToStart totalErrors desiredCount serviceName)]
          (setPollingHasErrors true g)
      else emit [Log (AllUpToDate serviceName)] g in
    pullListener me (pullTarget serviceName g)
  else g.

(** ** Convergence poller *)

(** [pollingListeners.forEach(listener => listener(pods))].  [forEach] reads
    the length once, before the first call, and then visits index 0, 1, ... of
    the array as it is at that moment, passing over an index the array no
    longer has; [_.pull] takes elements out of the same array in place. *)
Fixpoint forEachListener (count k : nat) (pods : list Pod.t) (g : Globals)
  : Globals :=
  match count with
  | O => g
  | S count' =>
      let g' :=
        match pollingListeners g !! k with
        | Some l => listener l pods (emit [Dispatch (ref l)] g)
        | None => g
        end in
      forEachListener count' (S k) pods g'
  end.

Definition dispatch (pods : list Pod.t) (g : Globals) : Globals :=
  forEachListener (length (pollingListeners g)) 0 pods g.

(** [finishUpdate] *)
Definition finishUpdate (g : Globals) : outcome :=
  let g := emit [Log (Completed (negb (pollingHasErrors g)))] g in
  if pollingHasErrors g then processExit 1 g else processExit 0 g.

(** [!pollStarted]: [undefined] and 0 are the values that count as unset. *)
Definition unset (t : option Z) : bool :=
  match t with
  | Some z => (z =? 0)%Z
  | None => true
  end.

(** [if (!pollStarted) pollStarted = Math.floor(new Date() / 1000)], where
    [now] is the value of [Math.floor(new Date() / 1000)]. *)
Definition startClock (now : Z) (g : Globals) : Globals :=
  if unset (pollStarted g) then setPollStarted (Some now) g else g.

(** [Math.floor(new Date() / 1000) - pollStarted] *)
Definition elapsed (now : Z) (g : Globals) : Z :=
  (now - default 0 (pollStarted g))%Z.

(** [pollPods], from the firing of its timer to the next [setTimeout] or the
    end of the process, when no other callback runs while its two queries
    are under way.  The tick with other callbacks in between is
    [pollPodsAmid], further down. *)
Definition pollPods (w : world) (now : Z) (g : Globals) : outcome :=
  let g := startClock now g in
  if exceeds (elapsed now g) (pollTimeout g) then
    processExit 1
      (emit [Log (TimeoutReached (join ", " (pollingTargets g)))] g)
  else
    match getPodsWithBuildNumbers w (pollingTargets g) with
    | (evs, Pods pods) =>
        let g := dispatch pods (emit evs g) in
        if (length (pollingTargets g) =? 0)%nat then finishUpdate g
        else Returned (emit [PollIn pollInterval] g)
    | (evs, NoPods) => Exited 1 (emit evs g)
    | (evs, Endless) => Hangs (emit evs g)
    end.

(** [healthCheckPods(deployment, buildNumber)] *)
Definition healthCheckPods (w : world) (now : Z) (deployment : Deployment.t)
    (buildNumber : string) (g : Globals) : outcome :=
  let me := mkListener (closures g) deployment buildNumber in
  let g := setClosures (S (closures g)) g in
  let g := setPollingListeners (pollingListeners g ++ [me]) g in
  if pollingStarted g then Returned g
  else pollPods w now (setPollingStarted true g).

(** ** Update driver *)

(** The names that can be read where the error handler of
    [updateDeploymentBuildNumber] is written: the parameters and the constant
    of that function, what the module declares, and what Node provides. *)
Definition handlerScope : list string :=
  ["deployment"; "newBuildNumber"; "originalBuild"; "serviceName";
   "exec"; "chalk"; "timestamp"; "async"; "_"; "namespace"; "kubeConfig";
   "timeLog"; "maxExecRetries"; "execDelay"; "execRetry"; "parseDeployments";
   "parsePods"; "getPods"; "getPodsWithBuildNumbers"; "getDeployments";
   "getNiceState"; "getExtraParams"; "getPodBuildNumber";
   "getDeploymentBuildNumber"; "pollingStarted"; "pollingTargets";
   "pollingListeners"; "pollingHasErrors"; "pollInterval"; "pollTimeout";
   "pollStarted"; "pollPods"; "finishUpdate"; "updateDeploymentBuildNumber";
   "healthCheckPods";
   "console"; "process"; "setTimeout"; "require"; "module"; "exports";
   "Math"; "Date"; "global"].

(** Reading the names [names] in order: the first one that is not bound
    throws a ReferenceError. *)
Fixpoint unbound (scope names : list string) : option string :=
  match names with
  | [] => None
  | n :: names' =>
      if bool_decide (n ∈ scope) then unbound scope names' else Some n
  end.

(** The error handler passed by [updateDeploymentBuildNumber]. *)
Definition updateFailed (serviceName : string) (g : Globals) : outcome :=
  let g := emit [Log (FatalWhileUpdating serviceName)] g in
  let g := pullTarget serviceName g in
  let g := setPollingHasErrors true g in
  match unbound handlerScope ["console"; "error"; "stderr"] with
  | Some n => Thrown ("ReferenceError: " +:+ n +:+ " is not defined") g
  | None =>
      let g := emit [ConsoleError] g in
      if (length (pollingTargets g) =? 0)%nat then finishUpdate g
      else Returned g
  end.

(** [updateDeploymentBuildNumber(deployment, newBuildNumber, originalBuild)] *)
Definition updateDeploymentBuildNumber (w : world) (now : Z)
    (deployment : Deployment.t) (newBuildNumber : string)
    (originalBuild : option string) (g : Globals) : outcome :=
  let serviceName := Deployment.name deployment in
  match execRetry w ("update deployment " +:+ serviceName)
          ("kubectl get deployment " +:+ serviceName +:+ " -o yaml" +:+
           getExtraParams +:+ " | sed 's/\(image: .*\):.*$/\1:build-" +:+
           newBuildNumber +:+ "/' | kubectl" +:+ getExtraParams +:+
           " replace -f -") true 0 with
  | (evs, Done _) =>
      healthCheckPods w now deployment newBuildNumber
        (emit [Log (DeploymentUpdated serviceName originalBuild
                      newBuildNumber)] (emit evs g))
  | (evs, Handled) => updateFailed serviceName (emit evs g)
  | (evs, Fatal) => Exited 1 (emit evs g)
  end.

(** ** Orchestration *)

(** The callback that the main program passes to [getDeploymentBuildNumber]
    for one command-line argument.  [deployment] is the argument split at "=",
    [pods] the pods of that name found at start, [buildNumber] the second
    argument of the callback ([undefined] when the first one is [true]). *)
Definition onDeploymentBuildNumber (w : world) (now : Z)
    (deployment : list string) (foundDeployment : Deployment.t)
    (pods : list Pod.t) (buildNumber : option string) (g : Globals)
  : outcome :=
  match deployment with
  | serviceName :: requested :: _ =>
      let g := setPollingTargets (pollingTargets g ++ [serviceName]) g in
      if bool_decide (Some requested = buildNumber) then
        let g := emit [Log (AlreadyConfigured serviceName buildNumber)] g in
        let running :=
          length (filter (fun pod =>
                    Pod.build pod = buildNumber /\
                    Pod.state pod = "Running" /\ Pod.ready pod = true) pods) in
        if (running =? Deployment.desiredCount foundDeployment)%nat then
          Returned (emit [Log (AllUpToDate serviceName)] g)
        else
          healthCheckPods w now foundDeployment requested
            (emit [Log (NotUpToDate serviceName)] g)
      else updateDeploymentBuildNumber w now foundDeployment requested
             buildNumber g
  | [serviceName] =>
      Returned
        (emit (Log (ConfiguredTo serviceName buildNumber) ::
               map (fun pod => Log (PodReport (Pod.id pod) (Pod.build pod)))
                 pods) g)
  | [] => Returned g
  end.

End Script.

(** ** Reading a trace *)

(** How many actions of [l] satisfy [p]. *)
Fixpoint occurrences (p : event -> bool) (l : list event) : nat :=
  match l with
  | [] => 0
  | e :: l' => (if p e then 1 else 0) + occurrences p l'
  end.

Definition isExec (e : event) : bool :=
  match e with Exec _ => true | _ => false end.

Definition isRetryIn (ms : nat) (e : event) : bool :=
  match e with RetryIn n => (n =? ms)%nat | _ => false end.

Definition isAnyRetry (e : event) : bool :=
  match e with RetryIn _ => true | _ => false end.

Definition isCallback (e : event) : bool :=
  match e with Callback _ => true | _ => false end.

Definition isOnError (e : event) : bool :=
  match e with OnError => true | _ => false end.

Definition isProcessExit (e : event) : bool :=
  match e with ProcessExit _ => true | _ => false end.

Definition isDispatch (l : nat) (e : event) : bool :=
  match e with Dispatch n => (n =? l)%nat | _ => false end.

(** The actions of [n] failed tries that are tried again, the first of them
    made with [tryNumber] failures behind it. *)
Fixpoint retries (name cmd : string) (tryNumber n : nat) : list event :=
  match n with
  | O => []
  | S n' =>
      [Exec cmd; Log (NetworkError name (S tryNumber)); RetryIn execDelay] ++
      retries name cmd (S tryNumber) n'
  end.

(** The end of a call of [execRetry] that has run out of retries. *)
Definition givingUp (name cmd : string) (onError : bool)
  : list event * gwResult :=
  if onError then ([Exec cmd; OnError], Handled)
  else ([Exec cmd; Log (FatalOutOfRetries name); ProcessExit 1], Fatal).

(** A command that fails on its first thirty tries and succeeds on the next
    one. *)
Definition thirtyFailures : world :=
  fun _ n => if (n <? 30)%nat then mkExec true "" "connection refused"
             else mkExec false "deployment replaced" "".

(** A command that never succeeds. *)
Definition alwaysFailing : world :=
  fun _ _ => mkExec true "" "connection refused".

(** ** The verdicts of the health listener, in words of the specification *)

(** The states a pod of the new build may be in while the listener waits. *)
Definition waitingStates : list string :=
  ["ContainerCreating"; "Running"; "Pending"; "Terminating"].

(** [pod] belongs to the target and runs the expected build. *)
Definition matching (serviceName buildNumber : string) (pod : Pod.t) : Prop :=
  Pod.name pod = serviceName /\ Pod.build pod = Some buildNumber.

(** A matching pod that is Running and ready. *)
Definition succeeded (serviceName buildNumber : string) (pod : Pod.t) : Prop :=
  matching serviceName buildNumber pod /\
  Pod.state pod = "Running" /\ Pod.ready pod = true.

(** A matching pod whose state is none of the waiting states. *)
Definition hasFailed (serviceName buildNumber : string) (pod : Pod.t) : Prop :=
  matching serviceName buildNumber pod /\ Pod.state pod ∉ waitingStates.

(** The hard-failure set of the specification. *)
Definition hardFailure (state : string) : Prop :=
  state = "Error" \/ state = "CrashLoopBackOff".

#[global] Instance matching_dec serviceName buildNumber pod :
  Decision (matching serviceName buildNumber pod).
Proof. unfold matching. apply _. Defined.

#[global] Instance succeeded_dec serviceName buildNumber pod :
  Decision (succeeded serviceName buildNumber pod).
Proof. unfold succeeded. apply _. Defined.

#[global] Instance hasFailed_dec serviceName buildNumber pod :
  Decision (hasFailed serviceName buildNumber pod).
Proof. unfold hasFailed. apply _. Defined.

(** The state an [outcome] leaves behind. *)
Definition stateOf (o : outcome) : Globals :=
  match o with
  | Returned g | Exited _ g | Thrown _ g | Hangs g => g
  end.

(** A pod of the new build "42" of "myapp" that cannot pull its image. *)
Definition stuckPod : Pod.t :=
  Pod.mk "myapp-1234567890-abc12" false "myapp" "ImagePullBackOff" "0"
    (Some "42").

(** The closures in [pollingListeners] are distinct and were all made by
    calls of [healthCheckPods] counted in [closures]. *)
Definition distinctListeners (g : Globals) : Prop :=
  NoDup (ref <$> pollingListeners g) /\
  Forall (fun l => ref l < closures g) (pollingListeners g).

(** ** A run with two targets

    The script is started as [kubeimage a=2 b=2] against a cluster whose
    deployments "a" and "b" are at build 1 and want one replica each. *)

Definition answers (stdout : string) : execResult := mkExec false stdout "".

Definition refused : execResult := mkExec true "" "connection refused".

(** The output of [kubectl get pod ... -o yaml] for the two new pods. *)
Definition yamlOfBoth : string :=
"items:
- metadata:
    name: a-1234567890-abcde
  status:
    containerStatuses:
    - image: registry/a:build-2
- metadata:
    name: b-1234567890-abcde
  status:
    containerStatuses:
    - image: registry/b:build-2
".

(** The cluster while the new pods start: every command succeeds. *)
Definition clusterStarting : world := fun command _ =>
  if String.eqb command "kubectl get pods" then
    answers
"NAME                 READY   STATUS              RESTARTS   AGE
a-1234567890-abcde   0/1     ContainerCreating   0          1s
b-1234567890-abcde   0/1     ContainerCreating   0          1s
"
  else if String.prefix "kubectl get pod " command then answers yamlOfBoth
  else answers "deployment replaced".

(** The cluster once both new pods are up. *)
Definition clusterReady : world := fun command _ =>
  if String.eqb command "kubectl get pods" then
    answers
"NAME                 READY   STATUS    RESTARTS   AGE
a-1234567890-abcde   1/1     Running   0          9s
b-1234567890-abcde   1/1     Running   0          9s
"
  else if String.prefix "kubectl get pod " command then answers yamlOfBoth
  else answers "deployment replaced".

(** The cluster refusing the update of "b" and nothing else. *)
Definition clusterRefusingB : world := fun command n =>
  if String.prefix "kubectl get deployment b " command then refused
  else clusterStarting command n.

Definition deploymentA : Deployment.t := Deployment.mk "a" 1.
Definition deploymentB : Deployment.t := Deployment.mk "b" 1.

(** After the callback for "a=2": the deployment is updated, its listener
    registered and the first tick of the loop done. *)
Definition afterA : Globals :=
  stateOf (onDeploymentBuildNumber None None clusterStarting 100 ["a"; "2"]
             deploymentA [] (Some "1") initial).

(** After the callback for "b=2" as well. *)
Definition afterB : Globals :=
  stateOf (onDeploymentBuildNumber None None clusterStarting 101 ["b"; "2"]
             deploymentB [] (Some "1") afterA).

(** The listeners of the two targets. *)
Definition listenerA : Listener := mkListener 0 deploymentA "2".
Definition listenerB : Listener := mkListener 1 deploymentB "2".

(** The snapshot of the tick that finds both new pods up. *)
Definition bothReady : list Pod.t :=
  [Pod.mk "a-1234567890-abcde" true "a" "Running" "0" (Some "2");
   Pod.mk "b-1234567890-abcde" true "b" "Running" "0" (Some "2")].

(** A snapshot for a target "myapp" that wants three replicas of build "42":
    two are up and one has crashed. *)
Definition twoUpOneDown : list Pod.t :=
  [Pod.mk "myapp-1234567890-aaaaa" true "myapp" "Running" "0" (Some "42");
   Pod.mk "myapp-1234567890-bbbbb" true "myapp" "Running" "0" (Some "42");
   Pod.mk "myapp-1234567890-ccccc" false "myapp" "CrashLoopBackOff" "4"
     (Some "42")].

Definition listenerOfMyapp : Listener :=
  mkListener 0 (Deployment.mk "myapp" 3) "42".

Definition waitingForMyapp : Globals :=
  mkGlobals true ["myapp"] [listenerOfMyapp] false (Num 600) (Some 100%Z) 1 [].

(** A pod of "myapp" at build "42" that is up. *)
Definition upPod : Pod.t :=
  Pod.mk "myapp-1234567890-aaaaa" true "myapp" "Running" "0" (Some "42").

(** ** Auxiliary notions for the facts about the patterns *)

(** Reading a literal word. *)
Fixpoint readLit (w : string) (x : State) : option State :=
  match w with
  | EmptyString => Some x
  | String ch w' =>
      match rest x with
      | String a s => if (a =? ch)%char then readLit w' (advance a s x) else None
      | EmptyString => None
      end
  end.

(** [dashOnLine s]: a dash comes before the first line terminator of [s]. *)
Fixpoint dashOnLine (s : string) : bool :=
  match s with
  | EmptyString => false
  | String a s' =>
      if (a =? "-")%char then true
      else if isLineTerminator a then false else dashOnLine s'
  end.

(** What follows "image:" in the pattern: [.*-([\d]* )]. *)
Definition imageTail : re :=
  (Star true Dot >> Char "-" >> Group 1 (Star true Digit))%re.


(** The last character of [w], or [d] when [w] is empty. *)
Fixpoint lastChar (w : string) (d : option ascii) : option ascii :=
  match w with
  | EmptyString => d
  | String a w' => lastChar w' (Some a)
  end.

(** The state [x] after reading the word [w], with [s] left to read. *)
Definition moved (w s : string) (x : State) : State :=
  mkState (lastChar w (prev x)) s (captures x).

(** What follows group 1 in the name pattern: [-[\d]*-]. *)
Definition nameTail : re := (Char "-" >> Star true Digit >> Char "-")%re.

(** [s] starts with a dash, decimal digits (or none) and a dash. *)
Definition dashDigitsDash (s : string) : Prop :=
  exists ds r, s = "-" +:+ ds +:+ "-" +:+ r /\ allChars isDigit ds = true.


(** The numbers of the groups of a pattern. *)
Fixpoint groupsOf (r : re) : list nat :=
  match r with
  | Empty | Char _ | Class _ | LineStart _ => []
  | Seq r1 r2 | Alt r1 r2 => groupsOf r1 ++ groupsOf r2
  | Star _ r1 => groupsOf r1
  | Group n r1 => n :: groupsOf r1
  end.

(** What follows group 1 in the pattern of [parsePods]. *)
Definition podsTail : re :=
  (Plus true Space >>
   Group 2 (Star true Digit) >> Char "/" >> Group 3 (Star true Digit) >>
   Plus true Space >> Group 4 (Plus true NonSpace) >> Plus true Space >>
   Group 5 (Star true Digit))%re.

(** * The rest of the script

    The deployment table ([parseDeployments], [getDeployments]), the state
    shown for a pod ([getNiceState]), the command line and the main program,
    and the poll loop over several ticks. *)

(** ** Deployment table *)

(** The pattern of [parseDeployments], flags g and m, piece by piece:
      ^    group 1 = [^\s]+    then [\s]+    then group 2 = [\d]+ *)
Definition deploymentsRe : re :=
  (LineStart true >> Group 1 (Plus true NonSpace) >> Plus true Space >>
   Group 2 (Plus true Digit))%re.

(** The number a run of decimal digits converts to where [==] compares it
    with a count. *)
Fixpoint decimalFrom (acc : nat) (digits : string) : nat :=
  match digits with
  | EmptyString => acc
  | String c digits' => decimalFrom (10 * acc + (nat_of_ascii c - 48)) digits'
  end.

Definition decimal (digits : string) : nat := decimalFrom 0 digits.

(** The body of the loop of [parseDeployments] for one match [m]. *)
Definition deploymentOfMatch (m : State) : Deployment.t :=
  {| Deployment.name := field 1 m;
     Deployment.desiredCount := decimal (field 2 m) |}.

(** [parseDeployments]; [None] when the loop over the matches would not
    end. *)
Definition parseDeployments (stdout : string) : option (list Deployment.t) :=
  map deploymentOfMatch <$> execAll deploymentsRe stdout.

(** How [getDeployments] ends. *)
Inductive listing : Type :=
| Deployments (deployments : list Deployment.t) (* [callback(false, ...)] *)
| NoDeployments                        (* the gateway has left the process *)
| EndlessListing.                      (* the loop over matches does not end *)

(** [getDeployments(callback)] *)
Definition getDeployments (kubeConfig namespace : option string) (w : world)
  : list event * listing :=
  match execRetry kubeConfig namespace w "get deployments"
          "kubectl get deployments" false 0 with
  | (evs, Done out) =>
      match parseDeployments out with
      | Some deployments => (evs, Deployments deployments)
      | None => (evs, EndlessListing)
      end
  | (evs, _) => (evs, NoDeployments)
  end.

(** ** The state shown for a pod *)

(** The colours [getNiceState] asks of chalk. *)
Inductive colour : Type := Red | Green | Yellow.

(** A text put together from pieces, each in a colour of chalk or in none. *)
Definition styled : Type := list (option colour * string).

(** The characters of a styled text, colours left out. *)
Definition plain (text : styled) : string :=
  fold_right (fun piece s => piece.2 +:+ s) "" text.

(** [getNiceState(pod)] *)
Definition getNiceState (pod : Pod.t) : styled :=
  let r := [if Pod.ready pod then (Some Green, "Ready")
            else (Some Red, "Not ready")] in
  let r := r ++ [(None, ", ")] in
  if String.eqb (Pod.state pod) "CrashLoopBackOff" ||
     String.eqb (Pod.state pod) "Error"
  then r ++ [(Some Red, Pod.state pod)]
  else if String.eqb (Pod.state pod) "Running"
  then r ++ [(Some Green, "Running")]
  else if String.eqb (Pod.state pod) "ContainerCreating" ||
          String.eqb (Pod.state pod) "Terminating"
  then r ++ [(Some Yellow, "ContainerCreating")]
  else r ++ [(None, Pod.state pod)].

(** ** Command line *)

(** [s.split(sep)] for a separator of one character. *)
Fixpoint split (sep : ascii) (s : string) : list string :=
  match s with
  | EmptyString => [""]
  | String c s' =>
      if (c =? sep)%char then "" :: split sep s'
      else match split sep s' with
           | piece :: pieces => String c piece :: pieces
           | [] => [String c ""]
           end
  end.

(** [s.includes(word)] *)
Fixpoint includes (word s : string) : bool :=
  String.prefix word s ||
  match s with
  | EmptyString => false
  | String _ s' => includes word s'
  end.

(** The class written [a-zA-z] in two of the patterns below: its second
    range runs from A to z and so takes in the six characters between Z
    and a. *)
Definition letterish (c : ascii) : bool :=
  let n := nat_of_ascii c in
  (((97 <=? n) && (n <=? 122)) || ((65 <=? n) && (n <=? 122)))%nat.

(** The patterns that tell the options apart, without flags: the word, then
    [^\s]*? for the first and [a-zA-z]*? for the other two. *)
Definition kubeconfigRe : re :=
  (Lit "--kubeconfig=" >> Star false NonSpace)%re.

Definition namespaceRe : re :=
  (Lit "--namespace=" >> Star false (Class letterish))%re.

Definition timeoutRe : re :=
  (Lit "--timeout=" >> Star false (Class letterish))%re.

(** [s.match(r)] used as a condition, for a pattern without the g flag. *)
Definition matches (r : re) (s : string) : bool :=
  match exec r s with
  | Some _ => true
  | None => false
  end.

(** The value of the variable [pollTimeout]: the number 600 it is declared
    with, or what an argument has assigned to it. *)
Inductive timeoutValue : Type :=
| Declared
| Assigned (text : option string).

(** The variables the loop over the arguments writes to. *)
Module Args.

Record t : Type := mk {
  kubeConfig : option string;
  namespace : option string;
  pollTimeout : timeoutValue;
  deploymentsToUpdate : list (list string)
}.

End Args.

(** The variables before the first argument is read. *)
Definition noArgs : Args.t := Args.mk None None Declared [].

(** The body of [args.forEach], for one argument. *)
Definition parseArg (o : Args.t) (arg : string) : Args.t :=
  if matches kubeconfigRe arg then
    Args.mk (split "=" arg !! 1) (Args.namespace o) (Args.pollTimeout o)
      (Args.deploymentsToUpdate o)
  else if matches namespaceRe arg then
    Args.mk (Args.kubeConfig o) (split "=" arg !! 1) (Args.pollTimeout o)
      (Args.deploymentsToUpdate o)
  else if matches timeoutRe arg then
    Args.mk (Args.kubeConfig o) (Args.namespace o)
      (Assigned (split "=" arg !! 1)) (Args.deploymentsToUpdate o)
  else
    Args.mk (Args.kubeConfig o) (Args.namespace o) (Args.pollTimeout o)
      (Args.deploymentsToUpdate o ++ [split "=" arg]).

Definition parseArgs (args : list string) : Args.t :=
  fold_left parseArg args noArgs.

(** The characters a numeric literal or the white space around it can be
    made of: digits, the point, the sign and exponent marks, the letters of
    Infinity, the marks of the other radixes and their digits. *)
Definition numericChar (c : ascii) : bool :=
  isDigit c || isSpace c ||
  bool_decide (c ∈ list_ascii_of_string ".+-eEInfityxXoObBaAcCdDF").

(** [pollTimeout] as a number, where [pollPods] compares it: the text of
    decimal digits is its value and the empty text is 0; a text with a
    character that no numeric literal has is [NaN].  The other texts (signs,
    fractions, exponents, other radixes, Infinity, white space around the
    number) are left out: [None]. *)
Definition toNumber (text : string) : option JsNumber :=
  if String.eqb text "" then Some (Num 0)
  else if allChars isDigit text then Some (Num (Z.of_nat (decimal text)))
  else if allChars numericChar text then None
  else Some NaN.

Definition timeoutNumber (v : timeoutValue) : option JsNumber :=
  match v with
  | Declared => Some (Num 600)
  | Assigned (Some text) => toNumber text
  | Assigned None => Some NaN
  end.

(** The state of the poller once the arguments are read, where the timeout
    is one of the texts [toNumber] covers. *)
Definition loaded (o : Args.t) : option Globals :=
  (fun timeout => mkGlobals false [] [] false timeout None 0 []) <$>
  timeoutNumber (Args.pollTimeout o).

(** ** Main program *)

(** The lines the main program writes itself. *)
Inductive startupLine : Type :=
| NoPodNames                           (* the thrown text, caught and written *)
| UsingConfig (kubeConfig : string)
| UsingNamespace (namespace : string)
| CouldNotFind (deployment : string).

(** What the main program does with one entry of [deploymentsToUpdate]. *)
Inductive planned : Type :=
| Missing (deployment : list string)   (* "Could not find" is written *)
| Asked (serviceName : string) (deployment : list string)
    (foundDeployment : Deployment.t) (pods : list Pod.t).
                                       (* [getDeploymentBuildNumber] is called *)

(** The body of [deploymentsToUpdate.forEach], up to the call of
    [getDeploymentBuildNumber]. *)
Definition plan (deployments : list Deployment.t) (allPods : list Pod.t)
    (deployment : list string) : planned :=
  match head deployment with
  | Some serviceName =>
      match head (filter (fun d => Deployment.name d = serviceName)
                    deployments) with
      | Some foundDeployment =>
          Asked serviceName deployment foundDeployment
            (filter (fun pod => Pod.name pod = serviceName) allPods)
      | None => Missing deployment
      end
  | None => Missing deployment
  end.

(** The line of an entry, if it has one; an array is written as its elements
    with commas in between. *)
Definition lineOf (p : planned) : list startupLine :=
  match p with
  | Missing deployment => [CouldNotFind (join "," deployment)]
  | Asked _ _ _ _ => []
  end.

(** How the main program ends. *)
Inductive startup : Type :=
| Refused                              (* no deployment was named *)
| Left                                 (* a query has left the process *)
| Stuck                                (* a loop over matches does not end *)
| Started (entries : list planned).

(** The main program up to the calls of [getDeploymentBuildNumber]: the
    variables it has set, the lines it has written, what each of the two
    tasks of [async.parallel] does when run to its end, and how it ends. *)
Record Main : Type := mkMain {
  variables : Args.t;
  lines : list startupLine;
  deploymentsTask : list event;
  podsTask : list event;
  ending : startup
}.

(** [x ? [line x] : []] *)
Definition whenSet (line : string -> startupLine) (x : option string)
  : list startupLine :=
  match x with
  | Some v => if String.eqb v "" then [] else [line v]
  | None => []
  end.

Definition main (args : list string) (w : world) : Main :=
  let o := parseArgs args in
  if (length (Args.deploymentsToUpdate o) =? 0)%nat then
    mkMain o [NoPodNames] [] [] Refused
  else
    let announced :=
      whenSet UsingConfig (Args.kubeConfig o) ++
      whenSet UsingNamespace (Args.namespace o) in
    let listed := getDeployments (Args.kubeConfig o) (Args.namespace o) w in
    let fetched :=
      getPodsWithBuildNumbers (Args.kubeConfig o) (Args.namespace o) w
        (d ← Args.deploymentsToUpdate o; take 1 d) in
    match listed.2, fetched.2 with
    | Deployments deployments, Pods allPods =>
        let entries := plan deployments allPods <$> Args.deploymentsToUpdate o in
        mkMain o (announced ++ (p ← entries; lineOf p)) listed.1 fetched.1
          (Started entries)
    | NoDeployments, _ | _, NoPods => mkMain o announced listed.1 fetched.1 Left
    | _, _ => mkMain o announced listed.1 fetched.1 Stuck
    end.

(** The second argument of the callback of [getDeploymentBuildNumber]. *)
Definition buildOf (answer : buildAnswer) : option string :=
  match answer with
  | BuildFound buildNumber => buildNumber
  | BuildNotFound => None
  end.

(** What follows from one entry: the query for the build of the deployment
    and the callback the main program has passed to it. *)
Definition runEntry (kubeConfig namespace : option string) (w : world)
    (now : Z) (p : planned) (g : Globals) : outcome :=
  match p with
  | Missing _ => Returned g
  | Asked serviceName deployment foundDeployment pods =>
      match getDeploymentBuildNumber kubeConfig namespace w serviceName with
      | (evs, Some answer) =>
          onDeploymentBuildNumber kubeConfig namespace w now deployment
            foundDeployment pods (buildOf answer) (emit evs g)
      | (evs, None) => Exited 1 (emit evs g)
      end
  end.

(** ** The loop over several ticks *)

(** The timer of [pollPods] fires again and again, each time against the
    cluster and the clock of that moment, for as long as the tick before has
    set it. *)
Fixpoint pollLoop (kubeConfig namespace : option string)
    (ticks : list (world * Z)) (g : Globals) : outcome :=
  match ticks with
  | [] => Returned g
  | (w, now) :: ticks' =>
      match pollPods kubeConfig namespace w now g with
      | Returned g' => pollLoop kubeConfig namespace ticks' g'
      | o => o
      end
  end.

(** ** Notions for the properties of the loop *)

(** A name in [pollingTargets] that no registered listener will ever take
    out: none of them was made for a deployment of that name. *)
Definition orphan (t : string) (g : Globals) : Prop :=
  t ∈ pollingTargets g /\
  Forall (fun l => Deployment.name (deployment l) ≠ t) (pollingListeners g).

(** The run that started in state [g] ends as [o]: when the process exits,
    the status is 0 or 1; it is 0 only with no target left and the error
    flag down; and it is 1 when the flag was already up in [g]. *)
Definition exitTellsErrors (g : Globals) (o : outcome) : Prop :=
  forall code g', o = Exited code g' ->
    (code = 0 \/ code = 1)%Z /\
    (code = 0%Z -> pollingTargets g' = [] /\ pollingHasErrors g' = false /\
                   last (trace g') = Some (ProcessExit 0)) /\
    (pollingHasErrors g = true -> code = 1%Z).

(** ** Notions for the properties of the queries *)

(** The command line of the batched build query for the pods [ids]. *)
Definition batchedQuery (ids : list string) : string :=
  "kubectl get pod " +:+ join " " ids +:+ " -o yaml".

(** Every command among the actions [evs] is one of [commands], with the
    options [extra] appended. *)
Definition runsOnly (commands : string -> Prop) (extra : string)
    (evs : list event) : Prop :=
  Forall (fun e => forall command, e = Exec command ->
            exists c, commands c /\ command = c +:+ extra) evs.

(** The two commands of a snapshot. *)
Definition snapshotQuery (c : string) : Prop :=
  c = "kubectl get pods" \/ exists ids, c = batchedQuery ids.

(** ** Notions for the properties of the command line *)

(** The three tests of the loop over the arguments, in words of
    [includes]. *)
Definition namesKubeconfig (arg : string) : bool :=
  includes "--kubeconfig=" arg.

Definition namesNamespace (arg : string) : bool :=
  negb (includes "--kubeconfig=" arg) && includes "--namespace=" arg.

Definition namesTimeout (arg : string) : bool :=
  negb (includes "--kubeconfig=" arg) && negb (includes "--namespace=" arg) &&
  includes "--timeout=" arg.

Definition isOption (arg : string) : bool :=
  includes "--kubeconfig=" arg || includes "--namespace=" arg ||
  includes "--timeout=" arg.

(** The text of an option: what stands between the first "=" of the
    argument and the next one. *)
Definition valueOf (arg : string) : option string := split "=" arg !! 1.

(** The line [pollPods] writes when the deadline has passed. *)
Definition isTimeoutLine (e : event) : bool :=
  match e with
  | Log (TimeoutReached _) => true
  | _ => false
  end.

(** ** Notions for the properties of the tables *)

(** The longest prefix of [s] whose characters all satisfy [p], and what
    comes after it. *)
Fixpoint run (p : ascii -> bool) (s : string) : string :=
  match s with
  | String a s' => if p a then String a (run p s') else ""
  | EmptyString => ""
  end.

Fixpoint afterRun (p : ascii -> bool) (s : string) : string :=
  match s with
  | String a s' => if p a then afterRun p s' else s
  | EmptyString => ""
  end.

(** [s] is empty or begins with a character that does not satisfy [p]. *)
Definition stops (p : ascii -> bool) (s : string) : bool :=
  match s with
  | String a _ => negb (p a)
  | EmptyString => true
  end.

Definition nonEmpty (s : string) : bool :=
  match s with
  | String _ _ => true
  | EmptyString => false
  end.

(** A blank of a table: a space or a tab. *)
Definition isBlank (c : ascii) : bool :=
  (c =? " ")%char || (c =? "009")%char.

(** A line of the table that "kubectl get deployments" prints, without its
    line feed: a row, made of the name, blanks, the count and the rest of
    the line; or a line of another kind, such as the heading, made of a
    word, blanks, and a second word that does not begin with a digit. *)
Inductive deploymentLine : Type :=
| DeploymentRow (name gap count tail : string)
| OtherLine (word gap : string) (c : ascii) (tail : string).

Definition wellFormedDeploymentLine (l : deploymentLine) : bool :=
  match l with
  | DeploymentRow name gap count tail =>
      nonEmpty name && allChars (fun c => negb (isSpace c)) name &&
      nonEmpty gap && allChars isBlank gap &&
      nonEmpty count && allChars isDigit count &&
      allChars (fun c => negb (isLineTerminator c)) tail &&
      stops isDigit tail
  | OtherLine word gap c tail =>
      nonEmpty word && allChars (fun c => negb (isSpace c)) word &&
      nonEmpty gap && allChars isBlank gap &&
      negb (isSpace c) && negb (isDigit c) &&
      allChars (fun c => negb (isLineTerminator c)) tail
  end.

Definition printDeploymentLine (l : deploymentLine) : string :=
  match l with
  | DeploymentRow name gap count tail =>
      name +:+ gap +:+ count +:+ tail +:+ String "010" ""
  | OtherLine word gap c tail =>
      word +:+ gap +:+ String c tail +:+ String "010" ""
  end.

Definition printDeployments (table : list deploymentLine) : string :=
  fold_right (fun l s => printDeploymentLine l +:+ s) "" table.

(** The deployments a table shows. *)
Definition deploymentsShown (table : list deploymentLine)
  : list Deployment.t :=
  omap (fun l => match l with
                 | DeploymentRow name _ count _ =>
                     Some (Deployment.mk name (decimal count))
                 | OtherLine _ _ _ _ => None
                 end) table.

(** The table of the run with two targets. *)
Definition tableOfBoth : list deploymentLine :=
  [OtherLine "NAME" "   " "D" "ESIRED   CURRENT   UP-TO-DATE   AVAILABLE   AGE";
   DeploymentRow "a" "      " "1" "         1         1            1           5d";
   DeploymentRow "b" "      " "1" "         1         1            1           5d"].

Definition notSlash (c : ascii) : bool := negb (c =? "/")%char.

(** A line of the table that "kubectl get pods" prints, without its line
    feed: a row, made of the id, the two counts of READY with "/" in
    between, the state and the restarts, with blanks in between, and the
    rest of the line; or a text of another kind, such as the heading. *)
Inductive podLine : Type :=
| PodRow (id gap1 ready total gap2 state gap3 restarts tail : string)
| NoPodLine (text : string).

Definition wellFormedPodLine (l : podLine) : bool :=
  match l with
  | PodRow id gap1 ready total gap2 state gap3 restarts tail =>
      nonEmpty id && allChars (fun c => negb (isSpace c)) id &&
      allChars notSlash id &&
      nonEmpty gap1 && allChars isBlank gap1 &&
      allChars isDigit ready && allChars isDigit total &&
      nonEmpty gap2 && allChars isBlank gap2 &&
      nonEmpty state && allChars (fun c => negb (isSpace c)) state &&
      nonEmpty gap3 && allChars isBlank gap3 &&
      nonEmpty restarts && allChars isDigit restarts &&
      allChars notSlash tail && stops isDigit tail
  | NoPodLine text => allChars notSlash text
  end.

Definition printPodLine (l : podLine) : string :=
  match l with
  | PodRow id gap1 ready total gap2 state gap3 restarts tail =>
      id +:+ gap1 +:+ ready +:+ "/" +:+ total +:+ gap2 +:+ state +:+ gap3 +:+
      restarts +:+ tail +:+ String "010" ""
  | NoPodLine text => text +:+ String "010" ""
  end.

Definition printPods (table : list podLine) : string :=
  fold_right (fun l s => printPodLine l +:+ s) "" table.

(** The pods a table shows. *)
Definition podsShown (table : list podLine) : list Pod.t :=
  omap (fun l => match l with
                 | PodRow id _ ready total _ state _ restarts _ =>
                     Some (Pod.mk id (String.eqb total ready) (deriveName id)
                             state restarts None)
                 | NoPodLine _ => None
                 end) table.

(** A match of the pattern of [parsePods] cannot begin at [s] unless a "/"
    comes after a word, white space and digits. *)
Definition slashNext (s : string) : bool :=
  match afterRun isDigit s with
  | String a _ => (a =? "/")%char
  | EmptyString => false
  end.

Definition slashAfterSpace (s : string) : bool :=
  slashNext (afterRun isSpace s).

Definition mayStart (s : string) : bool :=
  slashAfterSpace (afterRun (fun c => negb (isSpace c)) s).

(** The table of pods once both pods of the run with two targets are up. *)
Definition podsOfBoth : list podLine :=
  [NoPodLine "NAME                 READY   STATUS    RESTARTS   AGE";
   PodRow "a-1234567890-abcde" "   " "1" "1" "     " "Running" "   " "0"
     "          9s";
   PodRow "b-1234567890-abcde" "   " "1" "1" "     " "Running" "   " "0"
     "          9s"].

(** ** Notions for the properties of a pass over the listeners *)

(** The listener [l] resolves on the snapshot [pods]: the pods of its name
    and build that have succeeded or failed make up the wanted number. *)
Definition resolves (pods : list Pod.t) (l : Listener) : bool :=
  (length (filter (succeeded (Deployment.name (deployment l)) (buildNumber l))
             pods) +
   length (filter (hasFailed (Deployment.name (deployment l)) (buildNumber l))
             pods) =? Deployment.desiredCount (deployment l))%nat.

(** The listeners of [listeners] that a pass calls, in order: every one but
    those that stand right behind a called listener that resolves.  [skip]
    tells that the head of the list is such a one. *)
Fixpoint calledFrom (skip : bool) (pods : list Pod.t)
    (listeners : list Listener) : list Listener :=
  match listeners with
  | [] => []
  | l :: rest =>
      if skip then calledFrom false pods rest
      else l :: calledFrom (resolves pods l) pods rest
  end.

Definition called (pods : list Pod.t) (listeners : list Listener)
  : list Listener :=
  calledFrom false pods listeners.

(** The listeners still registered after the pass: those passed over and
    those that were called and did not resolve. *)
Fixpoint keptFrom (skip : bool) (pods : list Pod.t)
    (listeners : list Listener) : list Listener :=
  match listeners with
  | [] => []
  | l :: rest =>
      if skip then l :: keptFrom false pods rest
      else if resolves pods l then keptFrom true pods rest
      else l :: keptFrom false pods rest
  end.

Definition kept (pods : list Pod.t) (listeners : list Listener)
  : list Listener :=
  keptFrom false pods listeners.

(** The listeners called in the actions [evs], in order. *)
Definition dispatched (evs : list event) : list nat :=
  omap (fun e => match e with Dispatch n => Some n | _ => None end) evs.

(** The cluster of the run with two targets as the main program finds it:
    the table of deployments, and the pods up. *)
Definition clusterListing : world := fun command n =>
  if String.eqb command "kubectl get deployments"
  then answers (printDeployments tableOfBoth)
  else clusterReady command n.

(** ** The tick among the other callbacks

    A tick is not one run of code.  [pollPods] returns once "kubectl get
    pods" is under way; the callback of that query issues the batched query
    and returns; the callback of the batched query dispatches the snapshot.
    In between the event loop runs whatever else is due, such as the callbacks
    the main program has passed to [getDeploymentBuildNumber], which push
    their targets. *)

(** [getPodsWithBuildNumbers(deployments, callback)] with [meanwhile1] and
    [meanwhile2] for what the other callbacks do to the variables of the
    script while the first and the second query are under way (retries
    included; the code of a retry touches none of them).  [deployments] is
    the array the caller has passed, read where the callback of the first
    query filters the pods: [pollPods] passes [pollingTargets] itself, so the
    names pushed in the meantime are there.  The actions of a query are
    put behind those of the callbacks that ran while it was under way; a
    callback that ends the process ends the tick with it, so [meanwhile1]
    and [meanwhile2] stand for callbacks that return.  The result is the
    state the callback is called in, and the snapshot. *)
Definition getPodsWithBuildNumbersAmid (kubeConfig namespace : option string)
    (meanwhile1 meanwhile2 : Globals -> Globals) (w : world)
    (deployments : Globals -> list string) (g : Globals)
  : Globals * snapshot :=
  match execRetry kubeConfig namespace w "get pods" "kubectl get pods"
          false 0 with
  | (evs1, Done out1) =>
      let g := emit evs1 (meanwhile1 g) in
      match parsePods out1 with
      | Some parsed =>
          let pods :=
            filter (fun pod => Pod.name pod ∈ deployments g) parsed in
          match execRetry kubeConfig namespace w "get pod"
                  ("kubectl get pod " +:+ join " " (Pod.id <$> pods) +:+
                   " -o yaml") false 0 with
          | (evs2, Done out2) =>
              let g := emit evs2 (meanwhile2 g) in
              match withBuildNumbers pods out2 with
              | Some pods' => (g, Pods pods')
              | None => (g, Endless)
              end
          | (evs2, _) => (emit evs2 (meanwhile2 g), NoPods)
          end
      | None => (g, Endless)
      end
  | (evs1, _) => (emit evs1 (meanwhile1 g), NoPods)
  end.

(** [pollPods] among the other callbacks. *)
Definition pollPodsAmid (kubeConfig namespace : option string)
    (meanwhile1 meanwhile2 : Globals -> Globals) (w : world) (now : Z)
    (g : Globals) : outcome :=
  let g := startClock now g in
  if exceeds (elapsed now g) (pollTimeout g) then
    processExit 1
      (emit [Log (TimeoutReached (join ", " (pollingTargets g)))] g)
  else
    match getPodsWithBuildNumbersAmid kubeConfig namespace
            meanwhile1 meanwhile2 w pollingTargets g with
    | (g, Pods pods) =>
        let g := dispatch pods g in
        if (length (pollingTargets g) =? 0)%nat then finishUpdate g
        else Returned (emit [PollIn pollInterval] g)
    | (g, NoPods) => Exited 1 g
    | (g, Endless) => Hangs g
    end.

(** The callback of the main program for "b=2", as something that runs while
    a query of the tick is under way. *)
Definition callbackForB (g : Globals) : Globals :=
  stateOf (onDeploymentBuildNumber None None clusterStarting 101 ["b"; "2"]
             deploymentB [] (Some "1") g).

(** ** Notions for the properties of a whole run *)

(** One thing the event loop runs to its end: the chain of callbacks set off
    for an entry of the plan of the main program, or a tick of the loop, each
    against the cluster and the clock of its moment. *)
Inductive turn : Type :=
| EntryTurn (w : world) (now : Z) (p : planned)
| TickTurn (w : world) (now : Z).

Definition runTurn (kubeConfig namespace : option string) (t : turn)
    (g : Globals) : outcome :=
  match t with
  | EntryTurn w now p => runEntry kubeConfig namespace w now p g
  | TickTurn w now => pollPods kubeConfig namespace w now g
  end.

(** The turns one after the other, for as long as the process is there. *)
Fixpoint runTurns (kubeConfig namespace : option string) (turns : list turn)
    (g : Globals) : outcome :=
  match turns with
  | [] => Returned g
  | t :: turns' =>
      match runTurn kubeConfig namespace t g with
      | Returned g' => runTurns kubeConfig namespace turns' g'
      | o => o
      end
  end.

(** The run that started in state [g] has come to [o].  While the process is
    there, an error flag that was up is still up.  When it exits, the status
    is 0 or 1, and 0 only with no target left, the flag down now and at the
    start, the exit being the last thing done.  When it is ended by an
    exception nobody catches, the flag is up.  It is not caught in a loop. *)
Definition endTellsErrors (g : Globals) (o : outcome) : Prop :=
  match o with
  | Returned g' => pollingHasErrors g = true -> pollingHasErrors g' = true
  | Exited code g' =>
      (code = 0 \/ code = 1)%Z /\
      (code = 0%Z ->
       pollingTargets g' = [] /\ pollingHasErrors g' = false /\
       pollingHasErrors g = false /\
       last (trace g') = Some (ProcessExit 0))
  | Thrown _ g' => pollingHasErrors g' = true
  | Hangs _ => False
  end.

(** What is left to tell of an ending: the flag stays up while the process
    is there, an exception comes with the flag up, and no loop over matches
    goes on for ever. *)
Definition soundEnding (g : Globals) (o : outcome) : Prop :=
  match o with
  | Returned g' => pollingHasErrors g = true -> pollingHasErrors g' = true
  | Exited _ _ => True
  | Thrown _ g' => pollingHasErrors g' = true
  | Hangs _ => False
  end.

(** ** Notions of the specification, for the resolution of a target *)

(** Failed as the specification has it: a matching pod whose state is in
    the hard-failure set. *)
Definition failedAsSpecified (serviceName buildNumber : string)
    (pod : Pod.t) : Prop :=
  matching serviceName buildNumber pod /\ hardFailure (Pod.state pod).

#[global] Instance hardFailure_dec state : Decision (hardFailure state).
Proof. unfold hardFailure. apply _. Defined.

#[global] Instance failedAsSpecified_dec serviceName buildNumber pod :
  Decision (failedAsSpecified serviceName buildNumber pod).
Proof. unfold failedAsSpecified. apply _. Defined.

(** The condition of resolution as the specification has it: Succeeded and
    Failed instances make up the wanted number of replicas. *)
Definition resolvesAsSpecified (pods : list Pod.t) (l : Listener) : Prop :=
  length (filter (succeeded (Deployment.name (deployment l)) (buildNumber l))
            pods) +
  length (filter (failedAsSpecified (Deployment.name (deployment l))
                    (buildNumber l)) pods)
  = Deployment.desiredCount (deployment l).

(** A listener for "myapp" at build "42" that wants one replica, and the
    state in which it waits. *)
Definition listenerOfOne : Listener :=
  mkListener 0 (Deployment.mk "myapp" 1) "42".

Definition waitingForOne : Globals :=
  mkGlobals true ["myapp"] [listenerOfOne] false (Num 600) (Some 100%Z) 1 [].

(** ** Pods for the batched query *)


(** The cluster of the run with two targets, refusing every update. *)
Definition clusterRefusingUpdates : world := fun command n =>
  if includes " replace -f -" command then refused
  else clusterStarting command n.

(** ** Notions for the list of targets after a pass *)

(** The names of the listeners that a pass over [listeners] calls and that
    resolve on the snapshot [pods]. *)
Definition resolvedFrom (skip : bool) (pods : list Pod.t)
    (listeners : list Listener) : list string :=
  (fun l => Deployment.name (deployment l)) <$>
  filter (fun l => resolves pods l = true) (calledFrom skip pods listeners).

Definition resolvedNames (pods : list Pod.t) (listeners : list Listener)
  : list string :=
  resolvedFrom false pods listeners.

(** * Facts and claims *)

(** * Facts about the matcher *)

Section MatcherFacts.

Local Abbreviation len x := (String.length (rest x)).

(** A successful repeat ends in a call of the continuation, no earlier in the
    input than where it started. *)
Lemma repeatMatcher_progress (m : State -> Continuation -> option State)
    (greedy : bool) (c : Continuation) :
  (forall x d z, m x d = Some z -> exists y, d y = Some z /\ len y <= len x) ->
  forall n x z, repeatMatcher m greedy c n x = Some z ->
    exists y, c y = Some z /\ len y <= len x.
Proof.
  intros Hm n. induction n as [|n IH]; intros x z H; simpl in H.
  - exists x. split; [exact H | lia].
  - assert (Hiter : forall z0,
      m x (fun y => if (len y =? len x)%nat then None
                    else repeatMatcher m greedy c n y) = Some z0 ->
      exists y, c y = Some z0 /\ len y <= len x).
    { intros z0 H0. apply Hm in H0 as (y1 & Hd & Hle).
      destruct (len y1 =? len x)%nat; [discriminate|].
      apply IH in Hd as (y & Hc & Hle'). exists y. split; [exact Hc | lia]. }
    destruct greedy.
    + destruct (m x _) as [z0|] eqn:E.
      * apply Hiter. exact H.
      * exists x. split; [exact H | lia].
    + destruct (c x) as [z0|] eqn:E.
      * inversion H; subst. exists x. split; [exact E | lia].
      * apply Hiter. exact H.
Qed.

(** A successful match ends in a call of the continuation, at least
    [minLength r] characters further. *)
Lemma matcher_progress (r : re) :
  forall x c z, matcher r x c = Some z ->
    exists y, c y = Some z /\ len y + minLength r <= len x.
Proof.
  induction r as [|ch|p|ml|r1 IH1 r2 IH2|r1 IH1 r2 IH2|g r1 IH1|k r1 IH1];
    intros x c z H; simpl in H.
  - exists x. split; [exact H | simpl; lia].
  - destruct (rest x) as [|a s] eqn:E; [discriminate|].
    destruct (a =? ch)%char; [|discriminate].
    exists (advance a s x). split; [exact H | simpl; lia].
  - destruct (rest x) as [|a s] eqn:E; [discriminate|].
    destruct (p a); [|discriminate].
    exists (advance a s x). split; [exact H | simpl; lia].
  - exists x. split; [|simpl; lia].
    destruct (prev x) as [a|]; [|exact H].
    destruct (ml && isLineTerminator a); [exact H | discriminate].
  - apply IH1 in H as (y1 & H & Hle1). apply IH2 in H as (y & H & Hle2).
    exists y. split; [exact H | simpl; lia].
  - destruct (matcher r1 x c) as [z1|] eqn:E.
    + inversion H; subst. apply IH1 in E as (y & Hc & Hle).
      exists y. split; [exact Hc | simpl; lia].
    + apply IH2 in H as (y & Hc & Hle). exists y. split; [exact Hc | simpl; lia].
  - apply repeatMatcher_progress in H as (y & Hc & Hle).
    + exists y. split; [exact Hc | simpl; lia].
    + intros x0 d z0 H0. apply IH1 in H0 as (y & Hd & Hle).
      exists y. split; [exact Hd | lia].
  - apply IH1 in H as (y & Hc & Hle).
    exists (capture k x y). split; [exact Hc | simpl in *; lia].
Qed.

Lemma search_progress (r : re) :
  forall s before z, search r before s = Some z ->
    len z + minLength r <= String.length s.
Proof.
  induction s as [|a s IH]; intros before z H; simpl in H.
  - destruct (matcher r _ Some) as [z0|] eqn:E; [|discriminate].
    inversion H; subst. apply matcher_progress in E as (y & Hy & Hle).
    inversion Hy; subst. exact Hle.
  - destruct (matcher r _ Some) as [z0|] eqn:E.
    + inversion H; subst. apply matcher_progress in E as (y & Hy & Hle).
      inversion Hy; subst. exact Hle.
    + apply IH in H. simpl. lia.
Qed.

(** The loop over the matches of a pattern that cannot match the empty word
    ends. *)
Lemma execLoop_total (r : re) :
  0 < minLength r ->
  forall fuel before s, String.length s < fuel ->
    exists ms, execLoop fuel r before s = Some ms.
Proof.
  intros Hr fuel. induction fuel as [|fuel IH]; intros before s Hs; [lia|].
  simpl. destruct (search r before s) as [z|] eqn:E; [|eauto].
  apply search_progress in E.
  destruct (Nat.ltb_spec (len z) (String.length s)) as [Hlt|Hge]; [|lia].
  destruct (IH (prev z) (rest z)) as (ms & Hms); [lia|].
  rewrite Hms. simpl. eauto.
Qed.

Lemma execAll_total (r : re) (s : string) :
  0 < minLength r -> exists ms, execAll r s = Some ms.
Proof. intros Hr. apply execLoop_total; [exact Hr | lia]. Qed.

End MatcherFacts.

(** ** Strings *)

Lemma append_nil_r (s : string) : s +:+ "" = s.
Proof. induction s as [|a s IH]; simpl; [reflexivity | now f_equal]. Qed.

Lemma append_assoc (s1 s2 s3 : string) :
  (s1 +:+ s2) +:+ s3 = s1 +:+ (s2 +:+ s3).
Proof. induction s1 as [|a s1 IH]; simpl; [reflexivity | now f_equal]. Qed.

Lemma length_append (s1 s2 : string) :
  String.length (s1 +:+ s2) = String.length s1 + String.length s2.
Proof. induction s1 as [|a s1 IH]; simpl; [reflexivity | now f_equal]. Qed.

Lemma firstChars_append (s1 s2 : string) : firstChars (String.length s1) (s1 +:+ s2) = s1.
Proof. induction s1 as [|a s1 IH]; simpl; [now destruct s2 | now f_equal]. Qed.

Lemma allChars_append (p : ascii -> bool) (s1 s2 : string) :
  allChars p (s1 +:+ s2) = allChars p s1 && allChars p s2.
Proof.
  induction s1 as [|a s1 IH]; simpl; [reflexivity|].
  rewrite IH. now rewrite andb_assoc.
Qed.

(** ** The build pattern of the single queries *)

Section ImagePattern.

Local Abbreviation notLT := (fun c : ascii => negb (isLineTerminator c)).

Lemma repeatMatcher_total (m : State -> Continuation -> option State)
    (greedy : bool) (c : Continuation) (n : nat) (x : State) :
  is_Some (c x) -> is_Some (repeatMatcher m greedy c n x).
Proof.
  intros [z Hz]. destruct n as [|n]; simpl; [eauto|].
  destruct greedy.
  - destruct (m x _); eauto.
  - rewrite Hz. eauto.
Qed.

(** The star of a character class, one character at a time. *)
Lemma star_class_unfold (g : bool) (p : ascii -> bool) (x : State)
    (c : Continuation) :
  matcher (Star g (Class p)) x c =
  match rest x with
  | String a s =>
      if p a then
        if g then
          match matcher (Star g (Class p)) (advance a s x) c with
          | Some z => Some z
          | None => c x
          end
        else
          match c x with
          | Some z => Some z
          | None => matcher (Star g (Class p)) (advance a s x) c
          end
      else c x
  | EmptyString => c x
  end.
Proof.
  simpl. destruct (rest x) as [|a s] eqn:E; simpl; [reflexivity|].
  rewrite E. destruct (p a); simpl.
  - assert (Hne : (String.length s =? S (String.length s))%nat = false)
      by (apply Nat.eqb_neq; lia).
    rewrite Hne. reflexivity.
  - destruct g; [reflexivity | now destruct (c x)].
Qed.

Lemma matcher_Lit (w : string) (r : re) :
  forall x c, matcher (Lit w >> r) x c =
    match readLit w x with
    | Some y => matcher r y c
    | None => None
    end.
Proof.
  induction w as [|ch w IH]; intros x c; [reflexivity|].
  simpl. destruct (rest x) as [|a s]; [reflexivity|].
  destruct (a =? ch)%char; [|reflexivity]. apply (IH (advance a s x) c).
Qed.

Lemma readLit_Some (w : string) :
  forall x y, readLit w x = Some y -> rest x = w +:+ rest y.
Proof.
  induction w as [|ch w IH]; intros x y H; simpl in H.
  - now inversion H.
  - destruct (rest x) as [|a s] eqn:E; [discriminate|].
    destruct (Ascii.eqb_spec a ch) as [->|]; [|discriminate].
    apply IH in H. simpl in H. now rewrite H.
Qed.

Lemma readLit_append (w : string) :
  forall x s, rest x = w +:+ s -> exists y, readLit w x = Some y /\ rest y = s.
Proof.
  induction w as [|ch w IH]; intros x s H; simpl in *; [eauto|].
  rewrite H, Ascii.eqb_refl. apply IH. reflexivity.
Qed.

Lemma dashOnLine_spec (s : string) :
  dashOnLine s = true <->
  exists mid post, s = mid +:+ "-" +:+ post /\ allChars notLT mid = true.
Proof.
  induction s as [|a s IH]; simpl.
  - split; [discriminate|]. intros (mid & post & H & _).
    destruct mid; discriminate.
  - destruct (Ascii.eqb_spec a "-") as [->|Hne].
    + split; [|reflexivity]. intros _. exists "", s. split; reflexivity.
    + destruct (isLineTerminator a) eqn:Elt.
      * split; [discriminate|]. intros (mid & post & H & Hmid).
        destruct mid as [|b mid]; simpl in *; inversion H; subst.
        -- congruence.
        -- rewrite Elt in Hmid. discriminate.
      * rewrite IH. split.
        -- intros (mid & post & -> & Hmid). exists (String a mid), post.
           simpl. rewrite Elt. split; [reflexivity | exact Hmid].
        -- intros (mid & post & H & Hmid).
           destruct mid as [|b mid]; simpl in *; inversion H; subst.
           ++ congruence.
           ++ exists mid, post. split; [reflexivity|].
              now apply andb_true_iff in Hmid as [_ ?].
Qed.

Lemma dash_digits_Some (x : State) :
  is_Some (matcher (Char "-" >> Group 1 (Star true Digit)) x Some) <->
  exists s, rest x = String "-" s.
Proof.
  simpl. destruct (rest x) as [|a s]; simpl.
  - split; [intros [? ?]; discriminate | intros [? ?]; discriminate].
  - destruct (Ascii.eqb_spec a "-") as [->|Hne].
    + split; [eauto|]. intros _. apply repeatMatcher_total. eauto.
    + split; [intros [? ?]; discriminate | intros [? H]; congruence].
Qed.

Lemma matcher_Seq (r1 r2 : re) (x : State) (c : Continuation) :
  matcher (r1 >> r2) x c = matcher r1 x (fun y => matcher r2 y c).
Proof. reflexivity. Qed.

Lemma imageTail_Some :
  forall s x, rest x = s ->
    (is_Some (matcher imageTail x Some) <-> dashOnLine s = true).
Proof.
  unfold imageTail, Dot.
  induction s as [|a s IH]; intros x Hx;
    rewrite matcher_Seq, star_class_unfold, Hx; cbv beta.
  - rewrite dash_digits_Some, Hx. simpl.
    split; [intros [? ?]; discriminate | discriminate].
  - simpl dashOnLine.
    destruct (Ascii.eqb_spec a "-") as [->|Hne].
    + simpl negb. cbv iota.
      split; [reflexivity|]. intros _.
      destruct (matcher (Star true _) _ _); [eauto|].
      apply dash_digits_Some. eauto.
    + destruct (isLineTerminator a) eqn:Elt; simpl negb; cbv iota.
      * etransitivity; [apply dash_digits_Some|]. rewrite Hx.
        split; [intros [? ?]; congruence | discriminate].
      * pose proof (IH (advance a s x) eq_refl) as IH'.
        rewrite matcher_Seq in IH'. rewrite <- IH'.
        destruct (matcher (Star true _) (advance a s x) _); [split; eauto|].
        split; [|intros [? ?]; discriminate].
        intros H. apply dash_digits_Some in H as [? ?]. congruence.
Qed.

Lemma imageRe_at (before : option ascii) (s : string) :
  is_Some (matcher imageRe (mkState before s []) Some) <->
  exists t, s = "image:" +:+ t /\ dashOnLine t = true.
Proof.
  unfold imageRe. rewrite matcher_Lit.
  destruct (readLit "image:" _) as [y|] eqn:E.
  - pose proof (readLit_Some _ _ _ E) as Hs. simpl rest in Hs.
    fold imageTail. rewrite (imageTail_Some (rest y) y eq_refl).
    split.
    + intros H. exists (rest y). split; [exact Hs | exact H].
    + intros (t & Ht & Hd).
      assert (Heq : rest y = t) by (rewrite Hs in Ht; simpl in Ht; congruence).
      rewrite Heq. exact Hd.
  - split; [intros [? ?]; discriminate|].
    intros (t & Ht & _).
    destruct (readLit_append "image:" (mkState before s []) t Ht) as (y & Hy & _).
    congruence.
Qed.

Lemma search_nil (r : re) (before : option ascii) :
  search r before "" =
  match matcher r (mkState before "" []) Some with
  | Some z => Some z
  | None => None
  end.
Proof. reflexivity. Qed.

Lemma search_cons (r : re) (before : option ascii) (a : ascii) (s : string) :
  search r before (String a s) =
  match matcher r (mkState before (String a s) []) Some with
  | Some z => Some z
  | None => search r (Some a) s
  end.
Proof. reflexivity. Qed.


End ImagePattern.


(** ** The name pattern *)

Section NamePattern.

Local Abbreviation notLT := (fun c : ascii => negb (isLineTerminator c)).

Lemma moved_nil (x : State) (s : string) : rest x = s -> moved "" s x = x.
Proof. intros <-. now destruct x. Qed.

(** A greedy star of a class hands the continuation the longest run it
    accepts. *)
Lemma star_greedy_spec (p : ascii -> bool) (k : Continuation) :
  forall s x, rest x = s ->
    match matcher (Star true (Class p)) x k with
    | Some z =>
        exists w s', s = w +:+ s' /\ allChars p w = true /\
          k (moved w s' x) = Some z /\
          forall w' s'', s = w' +:+ s'' -> allChars p w' = true ->
            String.length w < String.length w' -> k (moved w' s'' x) = None
    | None =>
        forall w s', s = w +:+ s' -> allChars p w = true ->
          k (moved w s' x) = None
    end.
Proof.
  induction s as [|a s IH]; intros x Hx; rewrite star_class_unfold, Hx.
  - destruct (k x) as [z|] eqn:E.
    + exists "", "". rewrite (moved_nil x _ Hx).
      repeat split; [exact E|]. intros w' s'' H _ Hlen.
      destruct w'; simpl in *; [lia | discriminate].
    + intros w s' H _. destruct w; [|discriminate]. simpl in H. subst s'.
      rewrite (moved_nil x _ Hx). exact E.
  - destruct (p a) eqn:Ea.
    + specialize (IH (advance a s x) eq_refl).
      destruct (matcher (Star true (Class p)) (advance a s x) k) as [z|].
      * destruct IH as (w & s' & Hs & Hw & Hk & Hmax).
        exists (String a w), s'. simpl. rewrite Ea, Hs.
        repeat split; try assumption.
        intros w' s'' H Hw' Hlen. destruct w' as [|b w']; simpl in *; [lia|].
        injection H as <- H. apply andb_true_iff in Hw' as [_ Hw'].
        apply (Hmax w' s''); [congruence | assumption | lia].
      * destruct (k x) as [z|] eqn:E.
        -- exists "", (String a s). rewrite (moved_nil x _ Hx).
           repeat split; [exact E|]. intros w' s'' H Hw' Hlen.
           destruct w' as [|b w']; simpl in *; [lia|].
           injection H as <- H. apply andb_true_iff in Hw' as [_ Hw'].
           apply (IH w' s'' H Hw').
        -- intros w s' H Hw. destruct w as [|b w]; simpl in *.
           ++ subst s'. rewrite (moved_nil x _ Hx). exact E.
           ++ injection H as <- H. apply andb_true_iff in Hw as [_ Hw].
              apply (IH w s' H Hw).
    + destruct (k x) as [z|] eqn:E.
      * exists "", (String a s). rewrite (moved_nil x _ Hx).
        repeat split; [exact E|]. intros w' s'' H Hw' Hlen.
        destruct w' as [|b w']; simpl in *; [lia|].
        injection H as <- H. rewrite Ea in Hw'. discriminate.
      * intros w s' H Hw. destruct w as [|b w]; simpl in *.
        -- subst s'. rewrite (moved_nil x _ Hx). exact E.
        -- injection H as <- H. rewrite Ea in Hw. discriminate.
Qed.

Lemma isDigit_not_dash (a : ascii) : isDigit a = true -> a <> "-"%char.
Proof. intros H ->. discriminate. Qed.

(** Digits, then a dash. *)
Lemma digits_dash_spec :
  forall s y z, rest y = s ->
    (matcher (Star true Digit) y (fun y' => matcher (Char "-") y' Some) = Some z
     <-> exists ds r, s = ds +:+ "-" +:+ r /\ allChars isDigit ds = true /\
           z = mkState (Some "-"%char) r (captures y)).
Proof.
  unfold Digit.
  induction s as [|a s IH]; intros y z Hy; rewrite star_class_unfold, Hy.
  - simpl. rewrite Hy. split; [discriminate|].
    intros (ds & r & H & _). destruct ds; discriminate.
  - destruct (isDigit a) eqn:Ea.
    + assert (Hc : matcher (Char "-") y Some = None).
      { simpl. rewrite Hy. destruct (Ascii.eqb_spec a "-") as [->|]; [discriminate|reflexivity]. }
      rewrite Hc.
      assert (Hm : forall o : option State,
                match o with Some z0 => Some z0 | None => None end = o)
        by (now intros [|]).
      rewrite Hm, (IH (advance a s y) z eq_refl). simpl captures. split.
      * intros (ds & r & -> & Hds & ->). exists (String a ds), r.
        simpl. rewrite Ea. auto.
      * intros (ds & r & H & Hds & ->). destruct ds as [|b ds]; simpl in *.
        -- inversion H; subst. discriminate.
        -- inversion H; subst. apply andb_true_iff in Hds as [_ Hds].
           exists ds, r. auto.
    + simpl. rewrite Hy. destruct (Ascii.eqb_spec a "-") as [->|Hne].
      * split.
        -- intros H. inversion H; subst. exists "", s. auto.
        -- intros (ds & r & H & Hds & ->). destruct ds as [|b ds]; simpl in *.
           ++ inversion H; subst. reflexivity.
           ++ inversion H; subst. discriminate.
      * split; [discriminate|].
        intros (ds & r & H & Hds & ->). destruct ds as [|b ds]; simpl in *.
        -- inversion H; subst. congruence.
        -- inversion H; subst. rewrite Ea in Hds. discriminate.
Qed.

Lemma matcher_Char (ch : ascii) (x : State) (c : Continuation) :
  matcher (Char ch) x c =
  match rest x with
  | String a s => if (a =? ch)%char then c (advance a s x) else None
  | EmptyString => None
  end.
Proof. reflexivity. Qed.

Lemma nameTail_spec (y z : State) :
  matcher nameTail y Some = Some z <->
  exists ds r, rest y = "-" +:+ ds +:+ "-" +:+ r /\
    allChars isDigit ds = true /\ z = mkState (Some "-"%char) r (captures y).
Proof.
  change (matcher nameTail y Some)
    with (matcher (Char "-") y (fun y1 =>
            matcher (Star true Digit) y1 (fun y2 => matcher (Char "-") y2 Some))).
  rewrite matcher_Char.
  destruct (rest y) as [|a s] eqn:E.
  - split; [discriminate|]. intros (? & ? & ? & _). discriminate.
  - destruct (Ascii.eqb_spec a "-") as [->|Hne].
    + rewrite (digits_dash_spec s (advance "-" s y) z eq_refl). simpl captures.
      split.
      * intros (ds & r & -> & Hds & ->). exists ds, r. auto.
      * intros (ds & r & H & Hds & ->). simpl in H. injection H as ->.
        exists ds, r. auto.
    + split; [discriminate|]. intros (? & ? & H & _). simpl in H.
      injection H as -> _. congruence.
Qed.

(** The pattern is anchored: it matches at the start of the id or nowhere. *)
Lemma nameRe_anchored :
  forall s a, search nameRe (Some a) s = None.
Proof.
  induction s as [|b s IH]; intros a.
  - reflexivity.
  - rewrite search_cons. simpl matcher. apply IH.
Qed.

Lemma exec_nameRe (id : string) :
  exec nameRe id =
  matcher (Star true Dot) (mkState None id [])
    (fun y => matcher nameTail (capture 1 (mkState None id []) y) Some).
Proof.
  unfold exec. destruct id as [|a s].
  - rewrite search_nil. simpl. reflexivity.
  - rewrite search_cons, nameRe_anchored.
    change (matcher nameRe (mkState None (String a s) []) Some)
      with (matcher (Star true Dot) (mkState None (String a s) [])
              (fun y => matcher nameTail
                          (capture 1 (mkState None (String a s) []) y) Some)).
    now destruct (matcher _ _ _).
Qed.

Lemma consumed_moved (w s' : string) (before : option ascii)
    (caps : list (nat * string)) :
  consumed (mkState before (w +:+ s') caps)
           (moved w s' (mkState before (w +:+ s') caps)) = w.
Proof.
  unfold consumed. simpl. rewrite length_append.
  replace (String.length w + String.length s' - String.length s')
    with (String.length w) by lia.
  apply firstChars_append.
Qed.

(** The match of the name pattern on an id. *)
Lemma exec_nameRe_spec (id : string) :
  match exec nameRe id with
  | Some m2 =>
      exists w s', id = w +:+ s' /\ allChars notLT w = true /\
        dashDigitsDash s' /\ group 1 m2 = Some w /\
        forall w' s'', id = w' +:+ s'' -> allChars notLT w' = true ->
          dashDigitsDash s'' -> String.length w' <= String.length w
  | None =>
      forall w s', id = w +:+ s' -> allChars notLT w = true ->
        ~ dashDigitsDash s'
  end.
Proof.
  rewrite exec_nameRe. unfold Dot.
  pose proof (star_greedy_spec notLT
    (fun y => matcher nameTail (capture 1 (mkState None id []) y) Some)
    id (mkState None id []) eq_refl) as H.
  destruct (matcher (Star true (Class notLT)) _ _) as [z|].
  - destruct H as (w & s' & -> & Hw & Hk & Hmax).
    apply nameTail_spec in Hk as (ds & r & Hrest & Hds & ->).
    simpl in Hrest. exists w, s'. repeat split; try assumption.
    + exists ds, r. auto.
    + unfold group. simpl. now rewrite consumed_moved.
    + intros w' s'' Hid Hw' (ds' & r' & -> & Hds').
      destruct (Nat.le_gt_cases (String.length w') (String.length w))
        as [Hle|Hgt]; [exact Hle|].
      specialize (Hmax w' _ Hid Hw' Hgt).
      assert (Hs : matcher nameTail
                 (capture 1 (mkState None (w +:+ s') [])
                    (moved w' ("-" +:+ ds' +:+ "-" +:+ r')
                       (mkState None (w +:+ s') []))) Some <> None).
      { intros Hn.
        pose proof (proj2 (nameTail_spec
          (capture 1 (mkState None (w +:+ s') [])
             (moved w' ("-" +:+ ds' +:+ "-" +:+ r')
                (mkState None (w +:+ s') [])))
          (mkState (Some "-"%char) r'
             (captures (capture 1 (mkState None (w +:+ s') [])
                (moved w' ("-" +:+ ds' +:+ "-" +:+ r')
                   (mkState None (w +:+ s') [])))))))
          as Hex.
        rewrite Hn in Hex. discriminate Hex. exists ds', r'. auto. }
      contradiction.
  - intros w s' Hid Hw (ds & r & -> & Hds).
    specialize (H w _ Hid Hw).
    pose proof (proj2 (nameTail_spec
      (capture 1 (mkState None id [])
         (moved w ("-" +:+ ds +:+ "-" +:+ r) (mkState None id [])))
      (mkState (Some "-"%char) r
         (captures (capture 1 (mkState None id [])
            (moved w ("-" +:+ ds +:+ "-" +:+ r) (mkState None id [])))))))
      as Hex.
    rewrite H in Hex. discriminate Hex. exists ds, r. auto.
Qed.

End NamePattern.

(** ** The ids of parsed pods *)

Section PodIds.

Local Abbreviation notLT := (fun c : ascii => negb (isLineTerminator c)).
Local Abbreviation nonSpace := (fun c : ascii => negb (isSpace c)).

(** A successful repeat leaves the groups it does not contain as they
    were. *)
Lemma repeatMatcher_captures (m : State -> Continuation -> option State)
    (greedy : bool) (c : Continuation) (k : nat) :
  (forall x d z, m x d = Some z ->
     exists y, d y = Some z /\
       lookupGroup k (captures y) = lookupGroup k (captures x)) ->
  forall n x z, repeatMatcher m greedy c n x = Some z ->
    exists y, c y = Some z /\
      lookupGroup k (captures y) = lookupGroup k (captures x).
Proof.
  intros Hm n. induction n as [|n IH]; intros x z H; simpl in H.
  - exists x. split; [exact H | reflexivity].
  - assert (Hiter : forall o : option State, o = m x (fun y =>
        if (String.length (rest y) =? String.length (rest x))%nat then None
        else repeatMatcher m greedy c n y) ->
      o = Some z ->
      exists y, c y = Some z /\
        lookupGroup k (captures y) = lookupGroup k (captures x)).
    { intros o -> H0. apply Hm in H0 as (y1 & Hd & Hcap).
      destruct (_ =? _)%nat; [discriminate|].
      apply IH in Hd as (y & Hc & Hcap'). exists y.
      split; [exact Hc | congruence]. }
    destruct greedy.
    + destruct (m x _) as [z0|] eqn:E.
      * exact (Hiter _ eq_refl H).
      * exists x. split; [exact H | reflexivity].
    + destruct (c x) as [z0|] eqn:E.
      * injection H as <-. exists x. split; [exact E | reflexivity].
      * eapply Hiter; [reflexivity | exact H].
Qed.

(** A successful match leaves the groups the pattern does not contain as
    they were. *)
Lemma matcher_captures (k : nat) (r : re) :
  k ∉ groupsOf r ->
  forall x c z, matcher r x c = Some z ->
    exists y, c y = Some z /\
      lookupGroup k (captures y) = lookupGroup k (captures x).
Proof.
  induction r as [|ch|p|ml|r1 IH1 r2 IH2|r1 IH1 r2 IH2|g r1 IH1|n r1 IH1];
    intros Hk x c z H; simpl in H, Hk.
  - eauto.
  - destruct (rest x) as [|a s]; [discriminate|].
    destruct (a =? ch)%char; [|discriminate]. eauto.
  - destruct (rest x) as [|a s]; [discriminate|].
    destruct (p a); [|discriminate]. eauto.
  - destruct (prev x) as [a|]; [|eauto].
    destruct (ml && isLineTerminator a); [eauto | discriminate].
  - apply not_elem_of_app in Hk as [Hk1 Hk2].
    apply (IH1 Hk1) in H as (y1 & H & Hc1).
    apply (IH2 Hk2) in H as (y & H & Hc2).
    exists y. split; [exact H | congruence].
  - apply not_elem_of_app in Hk as [Hk1 Hk2].
    destruct (matcher r1 x c) as [z1|] eqn:E.
    + injection H as <-. apply (IH1 Hk1) in E. exact E.
    + apply (IH2 Hk2) in H. exact H.
  - eapply repeatMatcher_captures; [|exact H].
    intros x0 d z0 H0. apply (IH1 Hk) in H0. exact H0.
  - apply not_elem_of_cons in Hk as [Hne Hk].
    apply (IH1 Hk) in H as (y & Hc & Hcap).
    exists (capture n x y). split; [exact Hc|].
    simpl. destruct (Nat.eqb_spec n k); [congruence | exact Hcap].
Qed.

Lemma matcher_Class (p : ascii -> bool) (x : State) (c : Continuation) :
  matcher (Class p) x c =
  match rest x with
  | String a s => if p a then c (advance a s x) else None
  | EmptyString => None
  end.
Proof. reflexivity. Qed.

(** Group 1 of a match of the pattern of [parsePods] is a word without white
    space. *)
Lemma podsRe_group1 (x z : State) :
  captures x = [] ->
  matcher podsRe x Some = Some z ->
  exists w, group 1 z = Some w /\ allChars nonSpace w = true.
Proof.
  intros Hx H.
  change (matcher NonSpace x (fun y1 =>
            matcher (Star true NonSpace) y1 (fun y =>
              matcher podsTail (capture 1 x y) Some)) = Some z) in H.
  unfold NonSpace in H. rewrite matcher_Class in H.
  destruct (rest x) as [|a s] eqn:Erest; [discriminate|].
  destruct (negb (isSpace a)) eqn:Ea; [|discriminate].
  pose proof (star_greedy_spec nonSpace
    (fun y => matcher podsTail (capture 1 x y) Some) s (advance a s x) eq_refl)
    as Hstar.
  rewrite H in Hstar. destruct Hstar as (w & s' & -> & Hw & Hk & _).
  apply (matcher_captures 1 podsTail) in Hk as (y & Hy & Hcap).
  - injection Hy as <-. exists (String a w). split.
    + unfold group. rewrite Hcap. simpl. f_equal.
      unfold consumed. simpl rest. rewrite Erest. simpl String.length.
      rewrite length_append.
      replace (S (String.length w + String.length s') - String.length s')
        with (S (String.length w)) by lia.
      simpl. now rewrite firstChars_append.
    + simpl. now rewrite Ea, Hw.
  - simpl. rewrite !not_elem_of_cons. repeat split; try lia.
    apply not_elem_of_nil.
Qed.

Lemma search_from_nil (r : re) :
  forall s before z, search r before s = Some z ->
    exists before' s', matcher r (mkState before' s' []) Some = Some z.
Proof.
  induction s as [|a s IH]; intros before z H.
  - rewrite search_nil in H.
    destruct (matcher r _ Some) as [z'|] eqn:E; [|discriminate].
    injection H as <-. eauto.
  - rewrite search_cons in H.
    destruct (matcher r _ Some) as [z'|] eqn:E; [|eauto].
    injection H as <-. eauto.
Qed.

Lemma execLoop_all (P : State -> Prop) (r : re) :
  (forall before s z, search r before s = Some z -> P z) ->
  forall fuel before s ms, execLoop fuel r before s = Some ms -> Forall P ms.
Proof.
  intros HP fuel. induction fuel as [|fuel IH]; intros before s ms H; simpl in H.
  - discriminate.
  - destruct (search r before s) as [z|] eqn:E.
    + destruct (String.length (rest z) <? String.length s)%nat; [|discriminate].
      destruct (execLoop fuel r (prev z) (rest z)) as [ms'|] eqn:E';
        [|discriminate].
      injection H as <-. constructor; [eapply HP, E | eapply IH, E'].
    + injection H as <-. constructor.
Qed.

(** Every pod of [parsePods] carries the name derived from its id, and its id
    has no white space in it. *)
Lemma parsePods_ids (stdout : string) (pods : list Pod.t) (pod : Pod.t) :
  parsePods stdout = Some pods -> pod ∈ pods ->
  Pod.name pod = deriveName (Pod.id pod) /\
  allChars nonSpace (Pod.id pod) = true.
Proof.
  intros H Hin. unfold parsePods in H.
  destruct (execAll podsRe stdout) as [ms|] eqn:E; [|discriminate].
  injection H as <-. apply list_elem_of_fmap in Hin as (m & -> & Hm).
  split; [reflexivity|].
  assert (Hall : Forall (fun z => exists w, group 1 z = Some w /\
                           allChars nonSpace w = true) ms).
  { eapply execLoop_all; [|exact E]. intros before s z Hs.
    apply search_from_nil in Hs as (before' & s' & Hs).
    eapply podsRe_group1; [|exact Hs]. reflexivity. }
  rewrite Forall_forall in Hall. destruct (Hall m Hm) as (w & Hg & Hw).
  simpl. unfold field. rewrite Hg. exact Hw.
Qed.

(** A word without white space has no line break in it, and so has every
    part of it. *)
Lemma nonSpace_notLT (w s : string) :
  allChars nonSpace (w +:+ s) = true -> allChars notLT w = true.
Proof.
  induction w as [|a w IH]; simpl; [reflexivity|].
  intros H. apply andb_true_iff in H as [Ha H].
  rewrite (IH H), andb_true_r.
  unfold isSpace, isLineTerminator in *.
  destruct (Ascii.eqb_spec a "010") as [->|]; [discriminate|].
  destruct (Ascii.eqb_spec a "013") as [->|]; [discriminate|].
  reflexivity.
Qed.

End PodIds.

(** C7, as stated, fails on its own example: the hash segment of
    "myapp-7f8c9d-abc12" is not a run of digits, the name pattern does not
    match, and the id is kept whole. *)
Lemma deriveName_keeps_hex_hash :
  deriveName "myapp-7f8c9d-abc12" = "myapp-7f8c9d-abc12" /\
  deriveName "myapp-7f8c9d-abc12" <> "myapp".
Proof. split; [reflexivity | discriminate]. Qed.

(** C7, amended.  The name of every parsed pod is [deriveName] of its id,
    and the id has no white space.  For such an id, [deriveName] gives the
    part before the last place where a dash, decimal digits (or none) and a
    dash follow one another; when there is no such place the id is its own
    name.  So "myapp-1234567890-abc12" derives "myapp". *)
Theorem deriveName_spec :
  deriveName "myapp-1234567890-abc12" = "myapp" /\
  (forall stdout pods pod,
     parsePods stdout = Some pods -> pod ∈ pods ->
     Pod.name pod = deriveName (Pod.id pod) /\
     allChars (fun c => negb (isSpace c)) (Pod.id pod) = true) /\
  forall id,
    allChars (fun c => negb (isSpace c)) id = true ->
    (deriveName id = id /\
     forall w s, id = w +:+ s -> ~ dashDigitsDash s) \/
    (exists s, id = deriveName id +:+ s /\ dashDigitsDash s /\
       forall w' s', id = w' +:+ s' -> dashDigitsDash s' ->
         String.length w' <= String.length (deriveName id)).
Proof.
  split; [reflexivity|]. split; [apply parsePods_ids|].
  intros id Hid. unfold deriveName. pose proof (exec_nameRe_spec id) as H.
  destruct (exec nameRe id) as [m2|].
  - right. destruct H as (w & s' & -> & Hw & Hs' & Hg & Hmax).
    unfold field. rewrite Hg. simpl. exists s'.
    split; [reflexivity|]. split; [exact Hs'|].
    intros w' s'' Heq Hs''. apply (Hmax w' s'' Heq); [|exact Hs''].
    rewrite Heq in Hid. eapply nonSpace_notLT, Hid.
  - left. split; [reflexivity|]. intros w s -> Hs.
    apply (H w s eq_refl); [|exact Hs]. eapply nonSpace_notLT, Hid.
Qed.

(** The theorem at the id of the example. *)
Lemma deriveName_spec_witness :
  allChars (fun c => negb (isSpace c)) "myapp-1234567890-abc12" = true /\
  deriveName "myapp-1234567890-abc12" = "myapp" /\
  String.length "myapp" <= String.length (deriveName "myapp-1234567890-abc12").
Proof.
  destruct deriveName_spec as (H1 & _ & H3).
  split; [reflexivity|]. split; [exact H1|].
  destruct (H3 "myapp-1234567890-abc12" eq_refl)
    as [[_ Hno]|(s & _ & _ & Hmax)].
  - exfalso. apply (Hno "myapp" "-1234567890-abc12"); [reflexivity|].
    exists "1234567890", "abc12". split; reflexivity.
  - apply (Hmax "myapp" "-1234567890-abc12"); [reflexivity|].
    exists "1234567890", "abc12". split; reflexivity.
Defined.

(** ** The batched build query *)

Section BatchedBuilds.



Lemma consumed_moved_rest (w s' : string) (x : State) :
  rest x = w +:+ s' -> consumed x (moved w s' x) = w.
Proof.
  intros H. unfold consumed. simpl. rewrite H, length_append.
  replace (String.length w + String.length s' - String.length s')
    with (String.length w) by lia.
  apply firstChars_append.
Qed.



End BatchedBuilds.



(** ** The gateway *)

Section Gateway.

Variables kubeConfig namespace : option string.

Lemma execRetry_step (w : world) (name command : string) (onError : bool)
    (tryNumber : nat) :
  execRetry kubeConfig namespace w name command onError tryNumber =
  let cmd := command +:+ getExtraParams kubeConfig namespace in
  let r := w cmd tryNumber in
  if failed r then
    if (maxExecRetries <? S tryNumber)%nat then
      if onError then ([Exec cmd; OnError], Handled)
      else ([Exec cmd; Log (FatalOutOfRetries name); ProcessExit 1], Fatal)
    else
      after [Exec cmd; Log (NetworkError name (S tryNumber)); RetryIn execDelay]
        (execRetry kubeConfig namespace w name command onError (S tryNumber))
  else ([Exec cmd; Callback (stdout r)], Done (stdout r)).
Proof.
  rewrite execRetry_unfold_eq at 1.
  unfold execRetry_unfold, execRetry_unfold_clause_1. cbv zeta.
  destruct (failed _) eqn:E; simpl; [|reflexivity].
  destruct (lt_dec maxExecRetries (S tryNumber)) as [Hlt|Hge]; simpl.
  - destruct (Nat.ltb_spec maxExecRetries (S tryNumber)); [reflexivity | lia].
  - destruct (Nat.ltb_spec maxExecRetries (S tryNumber)); [lia | reflexivity].
Qed.

End Gateway.

Section GatewayClaims.

Variables kubeConfig namespace : option string.

Lemma occurrences_app (p : event -> bool) (l1 l2 : list event) :
  occurrences p (l1 ++ l2) = occurrences p l1 + occurrences p l2.
Proof. induction l1 as [|e l1 IH]; simpl; [reflexivity | rewrite IH; lia]. Qed.

Lemma occurrences_retries (p : event -> bool) (name cmd : string) :
  forall n t,
    occurrences p (retries name cmd t n) =
    n * occurrences p [Exec cmd; RetryIn execDelay] +
    occurrences p
      (map (fun k => Log (NetworkError name (S k))) (seq t n)).
Proof.
  induction n as [|n IH]; intros t; [reflexivity|].
  cbn [retries]. rewrite occurrences_app, IH. simpl. lia.
Qed.

(** Failing all the way from [tryNumber] failures on. *)
Lemma execRetry_failing (w : world) (name command : string) (onError : bool) :
  forall k tryNumber,
    tryNumber + k = maxExecRetries ->
    (forall n, tryNumber <= n <= maxExecRetries ->
       failed (w (command +:+ getExtraParams kubeConfig namespace) n) = true) ->
    execRetry kubeConfig namespace w name command onError tryNumber =
    after (retries name (command +:+ getExtraParams kubeConfig namespace)
             tryNumber k)
      (givingUp name (command +:+ getExtraParams kubeConfig namespace) onError).
Proof.
  induction k as [|k IH]; intros t Ht Hfail; rewrite execRetry_step; cbv zeta;
    rewrite Hfail by lia.
  - destruct (Nat.ltb_spec maxExecRetries (S t)); [|lia].
    unfold givingUp, after. now destruct onError.
  - destruct (Nat.ltb_spec maxExecRetries (S t)); [lia|].
    rewrite (IH (S t)) by (try lia; intros; apply Hfail; lia).
    unfold after. simpl. reflexivity.
Qed.

(** Whatever the command answers, the process runs it at most 31 times,
    waits [execDelay] before each new try and calls the handler at most
    once. *)
Lemma execRetry_bounds (w : world) (name command : string) (onError : bool) :
  forall k tryNumber,
    maxExecRetries - tryNumber <= k ->
    let run := execRetry kubeConfig namespace w name command onError tryNumber in
    occurrences isExec run.1 <= S k /\
    occurrences isOnError run.1 <= 1 /\
    occurrences isAnyRetry run.1 = occurrences (isRetryIn execDelay) run.1.
Proof.
  induction k as [|k IH]; intros t Ht; cbv zeta; rewrite execRetry_step;
    cbv zeta; destruct (failed _).
  - destruct (Nat.ltb_spec maxExecRetries (S t)); [|lia].
    destruct onError; simpl; lia.
  - simpl; lia.
  - destruct (Nat.ltb_spec maxExecRetries (S t)).
    + destruct onError; simpl; lia.
    + destruct (IH (S t)) as (H1 & H2 & H3); [lia|].
      unfold after. cbn [fst]. rewrite !occurrences_app. simpl. lia.
  - simpl; lia.
Qed.

End GatewayClaims.

(** C9, as stated, fails: thirty failed tries are not the end.  The command
    is run a thirty-first time, and when that try succeeds the callback gets
    its output and no handler is called. *)
Lemma execRetry_thirty_failures_not_fatal :
  (forall n, n < 30 -> failed (thirtyFailures "kubectl get pods" n) = true) /\
  (execRetry None None thirtyFailures "get pods" "kubectl get pods" true 0).2
    = Done "deployment replaced" /\
  occurrences isOnError
    (execRetry None None thirtyFailures "get pods" "kubectl get pods" true 0).1
    = 0 /\
  occurrences isExec
    (execRetry None None thirtyFailures "get pods" "kubectl get pods" true 0).1
    = 31.
Proof.
  split.
  - intros n Hn. unfold thirtyFailures.
    destruct (Nat.ltb_spec n 30); [reflexivity | lia].
  - vm_compute. repeat split.
Qed.

(** C9, amended.  Every call runs the command at most 31 times (the first
    try and [maxExecRetries] = 30 retries), each retry after [execDelay] =
    2000 ms, and calls the handler at most once.  A command that fails on
    all 31 tries is retried 30 times and then given up: the handler, when one
    was passed, is called once and the process goes on; without a handler
    the process exits with status 1. *)
Theorem execRetry_exhaustion (kubeConfig namespace : option string)
    (w : world) (name command : string) (onError : bool) :
  let cmd := command +:+ getExtraParams kubeConfig namespace in
  let run := execRetry kubeConfig namespace w name command onError 0 in
  (occurrences isExec run.1 <= S maxExecRetries /\
   occurrences isOnError run.1 <= 1 /\
   occurrences isAnyRetry run.1 = occurrences (isRetryIn 2000) run.1) /\
  ((forall n, n <= maxExecRetries -> failed (w cmd n) = true) ->
   run = after (retries name cmd 0 maxExecRetries) (givingUp name cmd onError) /\
   occurrences isExec run.1 = 31 /\
   occurrences (isRetryIn 2000) run.1 = 30 /\
   occurrences isCallback run.1 = 0 /\
   occurrences isOnError run.1 = (if onError then 1 else 0) /\
   occurrences isProcessExit run.1 = (if onError then 0 else 1) /\
   run.2 = (if onError then Handled else Fatal)).
Proof.
  cbv zeta. split.
  - apply (execRetry_bounds kubeConfig namespace w name command onError
             maxExecRetries 0). lia.
  - intros Hfail.
    rewrite (execRetry_failing kubeConfig namespace w name command onError
               maxExecRetries 0) by (try reflexivity; intros; apply Hfail; lia).
    split; [reflexivity|]. unfold after. cbn [fst snd].
    rewrite !occurrences_app, !occurrences_retries.
    unfold givingUp. destruct onError; vm_compute; repeat split.
Qed.

(** The theorem at a command that never succeeds, with a handler. *)
Lemma execRetry_exhaustion_witness :
  (forall n, n <= maxExecRetries ->
     failed (alwaysFailing ("kubectl get pods" +:+ getExtraParams None None) n)
     = true) /\
  occurrences isOnError
    (execRetry None None alwaysFailing "get pods" "kubectl get pods" true 0).1
    = 1.
Proof.
  split; [reflexivity|].
  apply (execRetry_exhaustion None None alwaysFailing "get pods"
           "kubectl get pods" true).
  reflexivity.
Defined.

(** ** The health listener *)

Section ListenerFacts.

Lemma Running_waits : "Running" ∈ waitingStates.
Proof. unfold waitingStates. rewrite !elem_of_cons. auto. Qed.

Lemma unexpectedState_spec (st : string) :
  unexpectedState st = true <-> st ∉ waitingStates.
Proof.
  unfold unexpectedState, waitingStates.
  rewrite !andb_true_iff, !negb_true_iff, !String.eqb_neq.
  rewrite !not_elem_of_cons. split.
  - intros (((? & ?) & ?) & ?). repeat split; try assumption. apply not_elem_of_nil.
  - intros (? & ? & ? & ? & _). auto.
Qed.

(** One step of the loop of the listener, on a pod of the right name. *)
Lemma countPod_spec (serviceName buildNumber : string) (pod : Pod.t)
    (acc : Counters * list event) :
  Pod.name pod = serviceName ->
  totalPodsRunning (countPod buildNumber acc pod).1 =
    totalPodsRunning acc.1 +
    (if decide (succeeded serviceName buildNumber pod) then 1 else 0) /\
  totalErrors (countPod buildNumber acc pod).1 =
    totalErrors acc.1 +
    (if decide (hasFailed serviceName buildNumber pod) then 1 else 0).
Proof.
  intros Hname.
  destruct (decide (succeeded serviceName buildNumber pod)) as [Hs|Hs],
           (decide (hasFailed serviceName buildNumber pod)) as [Hf|Hf];
    unfold countPod.
  - exfalso. destruct Hs as (_ & Hs & _), Hf as (_ & Hf). apply Hf.
    rewrite Hs. apply Running_waits.
  - destruct Hs as ((_ & Hb) & Hs & Hr).
    rewrite bool_decide_eq_true_2 by exact Hb. rewrite Hs, Hr. simpl. lia.
  - destruct Hf as ((_ & Hb) & Hf).
    rewrite bool_decide_eq_true_2 by exact Hb.
    apply unexpectedState_spec in Hf. rewrite Hf. simpl. lia.
  - destruct (bool_decide_reflect (Pod.build pod = Some buildNumber)) as [Hb|Hb];
      [|lia].
    destruct (unexpectedState (Pod.state pod)) eqn:Eu.
    { exfalso. apply Hf. split; [split; assumption|].
      now apply unexpectedState_spec. }
    destruct (String.eqb_spec (Pod.state pod) "Running") as [Hst|Hst];
      [|simpl; lia].
    destruct (Pod.ready pod) eqn:Er; [|simpl; lia].
    exfalso. apply Hs. repeat split; assumption.
Qed.

Lemma fold_countPod (serviceName buildNumber : string) :
  forall pods acc,
    Forall (fun pod => Pod.name pod = serviceName) pods ->
    totalPodsRunning (fold_left (countPod buildNumber) pods acc).1 =
      totalPodsRunning acc.1 +
      length (filter (succeeded serviceName buildNumber) pods) /\
    totalErrors (fold_left (countPod buildNumber) pods acc).1 =
      totalErrors acc.1 +
      length (filter (hasFailed serviceName buildNumber) pods).
Proof.
  induction pods as [|pod pods IH]; intros acc Hall; simpl.
  - rewrite !Nat.add_0_r. auto.
  - inversion Hall as [|? ? Hpod Hrest]; subst.
    destruct (IH (countPod buildNumber acc pod) Hrest) as [-> ->].
    destruct (countPod_spec (Pod.name pod) buildNumber pod acc eq_refl)
      as [-> ->].
    rewrite !filter_cons.
    destruct (decide (succeeded _ _ pod)), (decide (hasFailed _ _ pod));
      simpl; lia.
Qed.

(** The two totals of the listener are the numbers of succeeded and of
    failed pods of the snapshot. *)
Lemma countPods_counts (serviceName buildNumber : string) (pods : list Pod.t) :
  totalPodsRunning (countPods serviceName buildNumber pods).1 =
    length (filter (succeeded serviceName buildNumber) pods) /\
  totalErrors (countPods serviceName buildNumber pods).1 =
    length (filter (hasFailed serviceName buildNumber) pods).
Proof.
  unfold countPods.
  destruct (fold_countPod serviceName buildNumber
              (filter (fun pod => Pod.name pod = serviceName) pods)
              (mkCounters 0 0, [])) as [-> ->].
  - apply Forall_forall. intros pod Hin.
    apply list_elem_of_filter in Hin as [? _]. assumption.
  - simpl. rewrite !list_filter_filter.
    split; f_equal; apply list_filter_iff; intros pod;
      unfold succeeded, hasFailed, matching; tauto.
Qed.

End ListenerFacts.

(** C2, as stated, fails: the listener counts as failed a pod whose state is
    outside the hard-failure set of the specification. *)
Lemma stuck_pod_counts_as_failed :
  matching "myapp" "42" stuckPod /\
  ~ hardFailure (Pod.state stuckPod) /\
  totalErrors (countPods "myapp" "42" [stuckPod]).1 = 1.
Proof.
  split; [split; reflexivity|]. split; [|reflexivity].
  intros [H|H]; discriminate H.
Qed.

(** C2, amended.  On every snapshot the listener counts as Succeeded exactly
    the pods of the target's name and expected build that are Running and
    ready, and as Failed exactly those of that name and build whose state is
    none of ContainerCreating, Running, Pending and Terminating; no pod is
    both, and every other pod (another name, another build, or waiting)
    adds to neither total. *)
Theorem countPods_classification (serviceName buildNumber : string)
    (pods : list Pod.t) :
  totalPodsRunning (countPods serviceName buildNumber pods).1 =
    length (filter (succeeded serviceName buildNumber) pods) /\
  totalErrors (countPods serviceName buildNumber pods).1 =
    length (filter (hasFailed serviceName buildNumber) pods) /\
  (forall pod, ~ (succeeded serviceName buildNumber pod /\
                  hasFailed serviceName buildNumber pod)) /\
  (forall pod, hardFailure (Pod.state pod) ->
     matching serviceName buildNumber pod ->
     hasFailed serviceName buildNumber pod) /\
  (forall pod, ~ matching serviceName buildNumber pod ->
     ~ succeeded serviceName buildNumber pod /\
     ~ hasFailed serviceName buildNumber pod).
Proof.
  destruct (countPods_counts serviceName buildNumber pods) as [H1 H2].
  split; [exact H1|]. split; [exact H2|]. split; [|split].
  - intros pod [(_ & Hs & _) (_ & Hf)]. apply Hf. rewrite Hs.
    apply Running_waits.
  - intros pod [Hs|Hs] Hm; (split; [exact Hm|]); rewrite Hs;
      unfold waitingStates; rewrite !not_elem_of_cons;
      repeat split; try discriminate; apply not_elem_of_nil.
  - intros pod Hn. split; intros [? _]; contradiction.
Qed.

(** ** One call of the listener *)

Section ListenerCall.

Variables (me : Listener) (pods : list Pod.t) (g : Globals).

Let serviceName := Deployment.name (deployment me).
Let desiredCount := Deployment.desiredCount (deployment me).
Let nSucceeded := length (filter (succeeded serviceName (buildNumber me)) pods).
Let nFailed := length (filter (hasFailed serviceName (buildNumber me)) pods).
Let logs := (countPods serviceName (buildNumber me) pods).2.

(** The call when the counts add up to the wanted number of replicas. *)
Lemma listener_resolved :
  nSucceeded + nFailed = desiredCount ->
  listener me pods g =
  pullListener me
    (pullTarget serviceName
       (if (0 <? nFailed)%nat then
          emit [Log (FailedToStart nFailed desiredCount serviceName)]
            (setPollingHasErrors true (emit logs g))
        else emit [Log (AllUpToDate serviceName)] (emit logs g))).
Proof.
  intros Hsum. unfold listener.
  destruct (countPods_counts serviceName (buildNumber me) pods) as [Hs Hf].
  fold serviceName desiredCount. rewrite Hs, Hf.
  fold nSucceeded nFailed. rewrite Hsum, Nat.eqb_refl. reflexivity.
Qed.

(** The call when they do not. *)
Lemma listener_waiting :
  nSucceeded + nFailed <> desiredCount ->
  listener me pods g = emit logs g.
Proof.
  intros Hsum. unfold listener.
  destruct (countPods_counts serviceName (buildNumber me) pods) as [Hs Hf].
  fold serviceName desiredCount. rewrite Hs, Hf.
  fold nSucceeded nFailed.
  destruct (Nat.eqb_spec (nSucceeded + nFailed) desiredCount);
    [contradiction | reflexivity].
Qed.

End ListenerCall.

(** C1, as stated, fails twice over.  With Failed as the specification has
    it (a state of the hard-failure set), a pod that cannot pull its image
    counts as neither Succeeded nor Failed, so that a target that wants one
    replica does not meet the condition of resolution; the listener resolves
    it all the same, and with the error flag.  And in the run with the two
    targets, at the tick that finds both pods up, "b" is registered and
    meets the condition, but its listener is passed over in that dispatch:
    target and listener are still there after it. *)
Lemma resolution_not_as_specified :
  (~ resolvesAsSpecified [stuckPod] listenerOfOne /\
   pollingTargets (listener listenerOfOne [stuckPod] waitingForOne) = [] /\
   pollingListeners (listener listenerOfOne [stuckPod] waitingForOne) = [] /\
   pollingHasErrors (listener listenerOfOne [stuckPod] waitingForOne) = true)
  /\
  (listenerB ∈ pollingListeners afterB /\
   "b" ∈ pollingTargets afterB /\
   resolvesAsSpecified bothReady listenerB /\
   "b" ∈ pollingTargets (dispatch bothReady afterB) /\
   listenerB ∈ pollingListeners (dispatch bothReady afterB)).
Proof.
  split.
  - split; [vm_compute; discriminate|]. vm_compute. auto.
  - split; [vm_compute; apply list_elem_of_further, list_elem_of_here|].
    split; [vm_compute; apply list_elem_of_further, list_elem_of_here|].
    split; [vm_compute; reflexivity|].
    split; vm_compute; apply list_elem_of_here.
Qed.

(** C1, amended.  Each time it is called with a snapshot, the listener of a
    target resolves exactly when the pods of the target's name and expected
    build that are Running and ready, and those whose state is none of
    ContainerCreating, Running, Pending and Terminating (the pods the
    listener counts as failed), add up to the [desiredCount] held by the
    deployment record the listener was made with.  When it resolves, the
    error flag is set if a pod has failed and left as it was otherwise, every
    occurrence of the target's name leaves [pollingTargets] and the listener
    leaves [pollingListeners], all within that call.  When it does not, the
    list of targets, the listeners and the flag are as they were. *)
Theorem listener_resolution (me : Listener) (pods : list Pod.t) (g : Globals) :
  let serviceName := Deployment.name (deployment me) in
  let desiredCount := Deployment.desiredCount (deployment me) in
  let nSucceeded :=
    length (filter (succeeded serviceName (buildNumber me)) pods) in
  let nFailed :=
    length (filter (hasFailed serviceName (buildNumber me)) pods) in
  let g' := listener me pods g in
  (nSucceeded + nFailed = desiredCount ->
     pollingTargets g' = filter (fun t => t ≠ serviceName) (pollingTargets g) /\
     pollingListeners g' =
       filter (fun l => ref l ≠ ref me) (pollingListeners g) /\
     (serviceName ∉ pollingTargets g') /\
     (me ∉ pollingListeners g') /\
     pollingHasErrors g' =
       (if (0 <? nFailed)%nat then true else pollingHasErrors g) /\
     last (trace g') =
       Some (Log (if (0 <? nFailed)%nat
                  then FailedToStart nFailed desiredCount serviceName
                  else AllUpToDate serviceName))) /\
  (nSucceeded + nFailed <> desiredCount ->
     pollingTargets g' = pollingTargets g /\
     pollingListeners g' = pollingListeners g /\
     pollingHasErrors g' = pollingHasErrors g).
Proof.
  cbv zeta. split.
  - intros Hsum. rewrite (listener_resolved me pods g Hsum).
    set (nF := length (filter (hasFailed _ _) pods)).
    assert (Ht : forall h : Globals,
      pollingTargets (pullListener me
        (pullTarget (Deployment.name (deployment me)) h)) =
      filter (fun t => t ≠ Deployment.name (deployment me)) (pollingTargets h))
      by reflexivity.
    assert (Hl : forall h : Globals,
      pollingListeners (pullListener me
        (pullTarget (Deployment.name (deployment me)) h)) =
      filter (fun l => ref l ≠ ref me) (pollingListeners h))
      by reflexivity.
    rewrite Ht, Hl.
    split; [destruct (0 <? nF)%nat; reflexivity|].
    split; [destruct (0 <? nF)%nat; reflexivity|].
    split.
    { intros Hin. apply list_elem_of_filter in Hin as [Hn _]. now apply Hn. }
    split.
    { intros Hin. apply list_elem_of_filter in Hin as [Hn _]. now apply Hn. }
    split; destruct (0 <? nF)%nat; simpl; try reflexivity; apply last_snoc.
  - intros Hsum. rewrite (listener_waiting me pods g Hsum). repeat split.
Qed.

(** The theorem on the snapshot of the specification: three replicas wanted,
    two up and one crashed.  The target resolves with its counts adding up to
    three, the error flag is set, and target and listener are gone. *)
Lemma listener_resolution_witness :
  length (filter (succeeded "myapp" "42") twoUpOneDown) +
  length (filter (hasFailed "myapp" "42") twoUpOneDown) = 3 /\
  pollingTargets (listener listenerOfMyapp twoUpOneDown waitingForMyapp) = [] /\
  pollingListeners (listener listenerOfMyapp twoUpOneDown waitingForMyapp) = [] /\
  pollingHasErrors (listener listenerOfMyapp twoUpOneDown waitingForMyapp)
    = true /\
  last (trace (listener listenerOfMyapp twoUpOneDown waitingForMyapp))
    = Some (Log (FailedToStart 1 3 "myapp")).
Proof.
  pose proof (listener_resolution listenerOfMyapp twoUpOneDown waitingForMyapp)
    as [H _].
  split; [reflexivity|].
  destruct (H eq_refl) as (Ht & Hl & _ & _ & He & Hlast).
  split; [rewrite Ht; reflexivity|]. split; [rewrite Hl; reflexivity|].
  split; [rewrite He; reflexivity|]. rewrite Hlast. reflexivity.
Defined.


(** ** The poll loop *)

Section PollFacts.

Variables kubeConfig namespace : option string.

Lemma listener_targets (me : Listener) (pods : list Pod.t) (g : Globals) :
  sublist (pollingTargets (listener me pods g)) (pollingTargets g).
Proof.
  unfold listener.
  destruct (_ =? _)%nat; [|reflexivity].
  destruct (0 <? _)%nat; simpl; apply sublist_filter.
Qed.

Lemma forEachListener_targets (pods : list Pod.t) :
  forall count k g,
    sublist (pollingTargets (forEachListener count k pods g))
            (pollingTargets g).
Proof.
  induction count as [|count IH]; intros k g; simpl; [reflexivity|].
  etransitivity; [apply IH|].
  destruct (pollingListeners g !! k); [|reflexivity].
  etransitivity; [apply listener_targets | reflexivity].
Qed.

Lemma dispatch_targets (pods : list Pod.t) (g : Globals) :
  sublist (pollingTargets (dispatch pods g)) (pollingTargets g).
Proof. apply forEachListener_targets. Qed.

Lemma parsePods_total (stdout : string) :
  exists pods, parsePods stdout = Some pods.
Proof.
  unfold parsePods.
  destruct (execAll_total podsRe stdout) as (ms & ->); [simpl; lia|].
  simpl. eauto.
Qed.

Lemma withBuildNumbers_total (pods : list Pod.t) (stdout : string) :
  exists pods', withBuildNumbers pods stdout = Some pods'.
Proof.
  unfold withBuildNumbers.
  destruct (execAll_total podBuildRe stdout) as (ms & ->); [simpl; lia|].
  simpl. eauto.
Qed.

(** The loops over the matches end: a snapshot is fetched or the gateway has
    left the process. *)
Lemma getPodsWithBuildNumbers_ends (w : world) (deployments : list string) :
  (getPodsWithBuildNumbers kubeConfig namespace w deployments).2 <> Endless.
Proof.
  unfold getPodsWithBuildNumbers.
  destruct (execRetry _ _ w "get pods" _ _ _) as [evs1 [out1| |]];
    try discriminate.
  destruct (parsePods_total out1) as (parsed & ->).
  destruct (execRetry _ _ w "get pod" _ _ _) as [evs2 [out2| |]];
    try discriminate.
  destruct (withBuildNumbers_total
              (filter (fun pod => Pod.name pod ∈ deployments) parsed) out2)
    as (pods' & ->).
  discriminate.
Qed.

Lemma startClock_targets (now : Z) (g : Globals) :
  pollingTargets (startClock now g) = pollingTargets g.
Proof. unfold startClock. now destruct (unset _). Qed.

Lemma finishUpdate_exits (g : Globals) :
  exists code g', finishUpdate g = Exited code g' /\
    pollingTargets g' = pollingTargets g.
Proof.
  unfold finishUpdate. simpl. destruct (pollingHasErrors g); simpl; eauto.
Qed.

End PollFacts.

(** C5, as stated, fails twice over.  A target is added to the list once the
    loop has started (the callback for "b=2" runs after the first tick for
    "a"), and a tick can end the loop with the list not empty and the
    deadline far away (the snapshot query runs out of retries). *)
Lemma target_added_after_loop_start :
  pollingStarted afterA = true /\
  ("b" ∉ pollingTargets afterA) /\
  onDeploymentBuildNumber None None clusterStarting 101 ["b"; "2"]
    deploymentB [] (Some "1") afterA = Returned afterB /\
  "b" ∈ pollingTargets afterB /\
  exists g',
    pollPods None None alwaysFailing 102 afterB = Exited 1 g' /\
    pollingTargets g' = ["a"; "b"] /\
    exceeds (elapsed 102 afterB) (pollTimeout afterB) = false.
Proof.
  split; [reflexivity|]. split.
  { vm_compute. intros H. apply elem_of_cons in H as [H|H]; [discriminate|].
    now apply not_elem_of_nil in H. }
  split; [vm_compute; reflexivity|]. split.
  { vm_compute. apply list_elem_of_further, list_elem_of_here. }
  eexists. split; [vm_compute; reflexivity|]. split; reflexivity.
Qed.

(** ** Dispatch and the update handler *)

Section DispatchFacts.

Lemma fold_countPod_logs (buildNumber : string) :
  forall pods acc,
    occurrences isExec acc.2 = 0 ->
    (forall n, occurrences (isDispatch n) acc.2 = 0) ->
    occurrences isExec (fold_left (countPod buildNumber) pods acc).2 = 0 /\
    forall n,
      occurrences (isDispatch n) (fold_left (countPod buildNumber) pods acc).2
      = 0.
Proof.
  induction pods as [|pod pods IH]; intros acc He Hd; simpl; [auto|].
  apply IH; unfold countPod;
    destruct (bool_decide _); try assumption;
    destruct (unexpectedState _);
    try (destruct (_ && _); assumption).
  - simpl. rewrite occurrences_app, He. reflexivity.
  - intros n. simpl. rewrite occurrences_app, Hd. reflexivity.
Qed.

(** The listener writes log lines and nothing else. *)
Lemma countPods_logs (serviceName buildNumber : string) (pods : list Pod.t)
    (n : nat) :
  occurrences (isDispatch n) (countPods serviceName buildNumber pods).2 = 0.
Proof.
  unfold countPods. apply fold_countPod_logs; [reflexivity|]. intros; reflexivity.
Qed.

Lemma listener_dispatches (me : Listener) (pods : list Pod.t) (g : Globals)
    (n : nat) :
  occurrences (isDispatch n) (trace (listener me pods g)) =
  occurrences (isDispatch n) (trace g).
Proof.
  unfold listener.
  pose proof (countPods_logs (Deployment.name (deployment me)) (buildNumber me)
                pods n) as Hlogs.
  destruct (_ =? _)%nat; [destruct (0 <? _)%nat|]; simpl;
    rewrite ?occurrences_app, Hlogs; simpl; lia.
Qed.

Lemma listener_listeners (me : Listener) (pods : list Pod.t) (g : Globals) :
  sublist (pollingListeners (listener me pods g)) (pollingListeners g).
Proof.
  unfold listener.
  destruct (_ =? _)%nat; [|reflexivity].
  destruct (0 <? _)%nat; simpl; apply sublist_filter.
Qed.

Lemma sublist_drop_both {A : Type} (l1 l2 : list A) :
  sublist l1 l2 -> forall k, sublist (drop k l1) (drop k l2).
Proof.
  induction 1 as [|x l1 l2 H IH|x l1 l2 H IH]; intros k.
  - rewrite drop_nil. constructor.
  - destruct k as [|k]; [now constructor | apply IH].
  - destruct k as [|k]; [now constructor|]. simpl.
    transitivity (drop k l1); [|apply IH].
    destruct (drop k l1) as [|y l] eqn:E.
    + assert (Hlen : length (drop k l1) = 0) by now rewrite E.
      rewrite length_drop in Hlen.
      rewrite drop_ge by lia. constructor.
    + replace (drop (S k) l1) with (drop 1 (drop k l1))
        by (rewrite drop_drop; f_equal; lia).
      rewrite E. simpl. rewrite drop_0. now constructor.
Qed.

(** A listener that is not in the rest of the array is not called in the rest
    of the pass. *)
Lemma forEach_absent (pods : list Pod.t) (n : nat) :
  forall count k g,
    (forall l, l ∈ drop k (pollingListeners g) -> ref l <> n) ->
    occurrences (isDispatch n) (trace (forEachListener count k pods g)) =
    occurrences (isDispatch n) (trace g).
Proof.
  induction count as [|count IH]; intros k g Habs; [reflexivity|].
  cbn [forEachListener].
  destruct (pollingListeners g !! k) as [l|] eqn:El.
  - rewrite IH.
    + rewrite listener_dispatches. simpl. rewrite occurrences_app. simpl.
      assert (Hl : ref l <> n).
      { apply Habs. rewrite (drop_S _ _ _ El). apply list_elem_of_here. }
      destruct (Nat.eqb_spec (ref l) n); [contradiction | lia].
    + intros x Hx. apply Habs.
      pose proof (sublist_drop_both _ _
        (listener_listeners l pods (emit [Dispatch (ref l)] g)) (S k)) as Hsub.
      apply (elem_of_sublist _ _ _ Hx) in Hsub. simpl in Hsub.
      rewrite (drop_S _ _ _ El). now apply list_elem_of_further.
  - apply IH. intros x Hx. apply Habs.
    rewrite (drop_ge (pollingListeners g) (S k)) in Hx
      by (apply lookup_ge_None in El; lia).
    now apply not_elem_of_nil in Hx.
Qed.

(** In one pass a listener is called at most once. *)
Lemma forEach_at_most_once (pods : list Pod.t) (n : nat) :
  forall count k g,
    NoDup (ref <$> pollingListeners g) ->
    occurrences (isDispatch n) (trace (forEachListener count k pods g)) <=
    occurrences (isDispatch n) (trace g) + 1.
Proof.
  induction count as [|count IH]; intros k g Hnd; [simpl; lia|].
  cbn [forEachListener].
  destruct (pollingListeners g !! k) as [l|] eqn:El; [|apply IH, Hnd].
  pose proof (listener_listeners l pods (emit [Dispatch (ref l)] g)) as Hsub.
  simpl in Hsub.
  assert (Hnd' : NoDup (ref <$> pollingListeners
                   (listener l pods (emit [Dispatch (ref l)] g)))).
  { eapply sublist_NoDup; [exact Hnd|]. now apply fmap_sublist. }
  destruct (Nat.eq_dec (ref l) n) as [Heq|Hne].
  - rewrite forEach_absent.
    + rewrite listener_dispatches. simpl. rewrite occurrences_app. simpl.
      destruct (_ =? _)%nat; lia.
    + intros x Hx Hrx.
      pose proof (elem_of_sublist _ _ _ Hx
                    (sublist_drop_both _ _ Hsub (S k))) as Hin.
      apply list_elem_of_lookup in Hin as (j & Hj).
      rewrite lookup_drop in Hj.
      assert (Hk : (ref <$> pollingListeners g) !! k = Some n)
        by (rewrite list_lookup_fmap, El; simpl; congruence).
      assert (Hj' : (ref <$> pollingListeners g) !! (S k + j) = Some n)
        by (rewrite list_lookup_fmap, Hj; simpl; congruence).
      pose proof (NoDup_lookup _ _ _ _ Hnd Hk Hj'). lia.
  - etransitivity; [apply IH, Hnd'|].
    rewrite listener_dispatches. simpl. rewrite occurrences_app. simpl.
    destruct (Nat.eqb_spec (ref l) n); [contradiction | lia].
Qed.

(** With two listeners registered, the second is passed over in the pass in
    which the first resolves. *)
Lemma forEach_passes_over_second (first second : Listener)
    (pods : list Pod.t) (g : Globals) :
  pollingListeners g = [first; second] ->
  ref first <> ref second ->
  length (filter (succeeded (Deployment.name (deployment first))
                    (buildNumber first)) pods) +
  length (filter (hasFailed (Deployment.name (deployment first))
                    (buildNumber first)) pods) =
  Deployment.desiredCount (deployment first) ->
  pollingListeners (dispatch pods g) = [second] /\
  occurrences (isDispatch (ref second)) (trace (dispatch pods g)) =
  occurrences (isDispatch (ref second)) (trace g).
Proof.
  intros Hl Hne Hsum. unfold dispatch. rewrite Hl. simpl forEachListener.
  rewrite Hl. simpl lookup.
  assert (Hls' : pollingListeners
                   (listener first pods (emit [Dispatch (ref first)] g))
                 = [second]).
  { rewrite (listener_resolved first pods _ Hsum).
    assert (Hpull : forall h : Globals,
      pollingListeners h = [first; second] ->
      pollingListeners (pullListener first h) = [second]).
    { intros h Hh. unfold pullListener. simpl. rewrite Hh.
      rewrite filter_cons_False by (intros H; now apply H).
      rewrite filter_cons_True by congruence. reflexivity. }
    apply Hpull. destruct (0 <? _)%nat; exact Hl. }
  rewrite Hls'. simpl lookup. split; [exact Hls'|].
  rewrite listener_dispatches. simpl. rewrite occurrences_app. simpl.
  destruct (Nat.eqb_spec (ref first) (ref second)); [contradiction | lia].
Qed.

Lemma dispatch_at_most_once (pods : list Pod.t) (g : Globals) (n : nat) :
  NoDup (ref <$> pollingListeners g) ->
  occurrences (isDispatch n) (trace (dispatch pods g)) <=
  occurrences (isDispatch n) (trace g) + 1.
Proof. apply forEach_at_most_once. Qed.

Lemma dispatch_absent (pods : list Pod.t) (g : Globals) (n : nat) :
  (forall l, l ∈ pollingListeners g -> ref l <> n) ->
  occurrences (isDispatch n) (trace (dispatch pods g)) =
  occurrences (isDispatch n) (trace g).
Proof. intros H. apply forEach_absent. now rewrite drop_0. Qed.

Lemma forEachListener_listeners (pods : list Pod.t) :
  forall count k g,
    sublist (pollingListeners (forEachListener count k pods g))
            (pollingListeners g) /\
    closures (forEachListener count k pods g) = closures g.
Proof.
  induction count as [|count IH]; intros k g; simpl; [split; reflexivity|].
  destruct (IH (S k)
    match pollingListeners g !! k with
    | Some l => listener l pods (emit [Dispatch (ref l)] g)
    | None => g
    end) as [Hs Hc].
  destruct (pollingListeners g !! k) as [l|]; [|split; assumption].
  split.
  - etransitivity; [exact Hs|].
    apply (listener_listeners l pods (emit [Dispatch (ref l)] g)).
  - rewrite Hc. unfold listener.
    destruct (_ =? _)%nat; [destruct (0 <? _)%nat|]; reflexivity.
Qed.

Lemma dispatch_listeners (pods : list Pod.t) (g : Globals) :
  sublist (pollingListeners (dispatch pods g)) (pollingListeners g) /\
  closures (dispatch pods g) = closures g.
Proof. apply forEachListener_listeners. Qed.

Lemma distinctListeners_sublist (g g' : Globals) :
  sublist (pollingListeners g') (pollingListeners g) ->
  closures g' = closures g ->
  distinctListeners g -> distinctListeners g'.
Proof.
  intros Hs Hc [Hnd Hlt]. split.
  - eapply sublist_NoDup; [exact Hnd|]. now apply fmap_sublist.
  - rewrite Hc. rewrite Forall_forall in *. intros l Hl.
    apply Hlt. eapply elem_of_sublist; eassumption.
Qed.

End DispatchFacts.

(** C4 at its failing input.  In the run with the two targets, the tick that
    finds both new pods up calls the listener of "a", which resolves and
    takes itself out of the array that [forEach] is walking; index 1 is then
    past the end of the array and the listener of "b", registered when the
    pass started and not resolved, is not called on this snapshot.  The same
    happens to any second listener when the first one resolves.  What does
    hold of a pass: a listener is called at most once, and one that is not in
    the array is not called. *)
Theorem dispatch_skips_listener_after_resolved :
  pollingListeners afterB = [listenerA; listenerB] /\
  (getPodsWithBuildNumbers None None clusterReady (pollingTargets afterB)).2
    = Pods bothReady /\
  trace (dispatch bothReady afterB) =
    trace afterB ++ [Dispatch (ref listenerA); Log (AllUpToDate "a")] /\
  pollingListeners (dispatch bothReady afterB) = [listenerB] /\
  occurrences (isDispatch (ref listenerB)) (trace (dispatch bothReady afterB))
    = 0 /\
  (exists g',
     pollPods None None clusterReady 106 afterB = Returned g' /\
     pollingTargets g' = ["b"] /\
     occurrences (isDispatch (ref listenerB)) (trace g') = 0) /\
  (forall first second pods g,
     pollingListeners g = [first; second] ->
     ref first <> ref second ->
     length (filter (succeeded (Deployment.name (deployment first))
                       (buildNumber first)) pods) +
     length (filter (hasFailed (Deployment.name (deployment first))
                       (buildNumber first)) pods) =
     Deployment.desiredCount (deployment first) ->
     pollingListeners (dispatch pods g) = [second] /\
     occurrences (isDispatch (ref second)) (trace (dispatch pods g)) =
     occurrences (isDispatch (ref second)) (trace g)) /\
  (forall pods g n,
     distinctListeners g ->
     occurrences (isDispatch n) (trace (dispatch pods g)) <=
     occurrences (isDispatch n) (trace g) + 1) /\
  (forall pods g n,
     (forall l, l ∈ pollingListeners g -> ref l <> n) ->
     occurrences (isDispatch n) (trace (dispatch pods g)) =
     occurrences (isDispatch n) (trace g)).
Proof.
  split; [reflexivity|]. split; [vm_compute; reflexivity|].
  split; [vm_compute; reflexivity|]. split; [vm_compute; reflexivity|].
  split; [vm_compute; reflexivity|]. split; [|split; [|split]].
  - eexists. split; [vm_compute; reflexivity|]. split; reflexivity.
  - apply forEach_passes_over_second.
  - intros pods g n [Hnd _]. now apply dispatch_at_most_once.
  - apply dispatch_absent.
Qed.

Section UpdateFacts.

Variables kubeConfig namespace : option string.

(** The command composed by [updateDeploymentBuildNumber], as [exec] gets it. *)
Lemma update_exhausted (w : world) (now : Z) (deployment : Deployment.t)
    (newBuildNumber : string) (originalBuild : option string) (g : Globals) :
  (forall n, n <= maxExecRetries ->
     failed (w (("kubectl get deployment " +:+ Deployment.name deployment +:+
                 " -o yaml" +:+ getExtraParams kubeConfig namespace +:+
                 " | sed 's/\(image: .*\):.*$/\1:build-" +:+ newBuildNumber +:+
                 "/' | kubectl" +:+ getExtraParams kubeConfig namespace +:+
                 " replace -f -") +:+ getExtraParams kubeConfig namespace) n)
     = true) ->
  exists g',
    updateDeploymentBuildNumber kubeConfig namespace w now deployment
      newBuildNumber originalBuild g =
      Thrown "ReferenceError: error is not defined" g' /\
    pollingTargets g' =
      filter (fun t => t ≠ Deployment.name deployment) (pollingTargets g) /\
    pollingListeners g' = pollingListeners g /\
    pollingHasErrors g' = true.
Proof.
  intros Hfail. unfold updateDeploymentBuildNumber.
  rewrite (execRetry_failing kubeConfig namespace w _ _ true maxExecRetries 0)
    by (try reflexivity; intros; apply Hfail; lia).
  unfold after, givingUp. cbn [fst snd].
  eexists. split; [reflexivity|]. repeat split.
Qed.

Lemma pollPods_listeners (w : world) (now : Z) (g : Globals) :
  sublist (pollingListeners (stateOf (pollPods kubeConfig namespace w now g)))
          (pollingListeners g) /\
  closures (stateOf (pollPods kubeConfig namespace w now g)) = closures g.
Proof.
  unfold pollPods.
  assert (Hclock : pollingListeners (startClock now g) = pollingListeners g /\
                   closures (startClock now g) = closures g)
    by (unfold startClock; destruct (unset _); split; reflexivity).
  destruct Hclock as [Hl Hc].
  destruct (exceeds _ _); [simpl; rewrite Hl, Hc; split; reflexivity|].
  destruct (getPodsWithBuildNumbers _ _ w _) as [evs [pods| |]];
    try (simpl; rewrite Hl, Hc; split; reflexivity).
  destruct (dispatch_listeners pods (emit evs (startClock now g)))
    as [Hs Hcl].
  change (pollingListeners (emit evs (startClock now g)))
    with (pollingListeners (startClock now g)) in Hs.
  change (closures (emit evs (startClock now g)))
    with (closures (startClock now g)) in Hcl.
  rewrite Hl in Hs. rewrite Hc in Hcl.
  destruct (_ =? 0)%nat.
  - unfold finishUpdate. simpl.
    destruct (pollingHasErrors _); simpl; split; assumption.
  - simpl. split; assumption.
Qed.

Lemma healthCheckPods_distinct (w : world) (now : Z)
    (deployment : Deployment.t) (buildNumber : string) (g : Globals) :
  distinctListeners g ->
  distinctListeners
    (stateOf (healthCheckPods kubeConfig namespace w now deployment
                buildNumber g)).
Proof.
  intros [Hnd Hlt]. unfold healthCheckPods.
  assert (Hnew : distinctListeners
    (setPollingListeners
       (pollingListeners (setClosures (S (closures g)) g) ++
        [mkListener (closures g) deployment buildNumber])
       (setClosures (S (closures g)) g))).
  { split; simpl.
    - rewrite fmap_app. apply NoDup_app. split; [exact Hnd|]. split.
      + intros n Hn Hin. apply list_elem_of_singleton in Hin. subst n.
        apply list_elem_of_fmap in Hn as (l & Hl & Hin).
        rewrite Forall_forall in Hlt. specialize (Hlt l Hin). simpl in Hl. lia.
      + apply NoDup_singleton.
    - apply Forall_app. split.
      + eapply Forall_impl; [exact Hlt|]. simpl. intros; lia.
      + constructor; [simpl; lia | constructor]. }
  simpl pollingStarted. destruct (pollingStarted g); [exact Hnew|].
  destruct (pollPods_listeners w now
              (setPollingStarted true
                 (setPollingListeners
                    (pollingListeners (setClosures (S (closures g)) g) ++
                     [mkListener (closures g) deployment buildNumber])
                    (setClosures (S (closures g)) g)))) as [Hs Hc].
  eapply distinctListeners_sublist; [exact Hs | exact Hc | exact Hnew].
Qed.

(** Every function called from the event loop keeps the listeners
    distinct. *)
Lemma handlers_keep_listeners_distinct (w : world) (now : Z) (g : Globals) :
  distinctListeners g ->
  distinctListeners (stateOf (pollPods kubeConfig namespace w now g)) /\
  (forall deployment newBuildNumber originalBuild,
     distinctListeners
       (stateOf (updateDeploymentBuildNumber kubeConfig namespace w now
                   deployment newBuildNumber originalBuild g))) /\
  (forall deployment foundDeployment pods buildNumber,
     distinctListeners
       (stateOf (onDeploymentBuildNumber kubeConfig namespace w now
                   deployment foundDeployment pods buildNumber g))).
Proof.
  intros Hg.
  assert (Hupd : forall g0 deployment newBuildNumber originalBuild,
    distinctListeners g0 ->
    distinctListeners
      (stateOf (updateDeploymentBuildNumber kubeConfig namespace w now
                  deployment newBuildNumber originalBuild g0))).
  { intros g0 d nb ob Hg0. unfold updateDeploymentBuildNumber.
    destruct (execRetry _ _ w _ _ true 0) as [evs [out| |]].
    - apply healthCheckPods_distinct. exact Hg0.
    - exact Hg0.
    - exact Hg0. }
  split; [|split].
  - destruct (pollPods_listeners w now g) as [Hs Hc].
    eapply distinctListeners_sublist; eassumption.
  - intros. now apply Hupd.
  - intros d fd pods b. unfold onDeploymentBuildNumber.
    destruct d as [|serviceName [|requested d]]; try exact Hg.
    destruct (bool_decide _).
    + destruct (_ =? _)%nat; [exact Hg|].
      apply healthCheckPods_distinct. exact Hg.
    + apply Hupd. exact Hg.
Qed.

End UpdateFacts.

(** C8 at its failing input.  The error handler of the update reads [error]
    and [stderr], which are not bound where it is written: once it has taken
    the target out and set the error flag it throws, and the exception ends
    the process, with the other target still waiting and [finishUpdate] never
    reached.  This is so for every update that runs out of retries. *)
Theorem update_failure_throws :
  (exists g',
     onDeploymentBuildNumber None None clusterRefusingB 101 ["b"; "2"]
       deploymentB [] (Some "1") afterA =
       Thrown "ReferenceError: error is not defined" g' /\
     pollingTargets g' = ["a"] /\
     pollingListeners g' = [listenerA] /\
     occurrences isOnError (trace g') = 1) /\
  (exists g',
     updateDeploymentBuildNumber None None alwaysFailing 100 deploymentB "2"
       (Some "1") (setPollingTargets ["b"] initial) =
       Thrown "ReferenceError: error is not defined" g' /\
     pollingTargets g' = [] /\
     occurrences isProcessExit (trace g') = 0) /\
  forall kubeConfig namespace w now deployment newBuildNumber originalBuild g,
    (forall n, n <= maxExecRetries ->
       failed (w (("kubectl get deployment " +:+ Deployment.name deployment +:+
                   " -o yaml" +:+ getExtraParams kubeConfig namespace +:+
                   " | sed 's/\(image: .*\):.*$/\1:build-" +:+
                   newBuildNumber +:+
                   "/' | kubectl" +:+ getExtraParams kubeConfig namespace +:+
                   " replace -f -") +:+ getExtraParams kubeConfig namespace) n)
       = true) ->
    exists g',
      updateDeploymentBuildNumber kubeConfig namespace w now deployment
        newBuildNumber originalBuild g =
        Thrown "ReferenceError: error is not defined" g' /\
      pollingTargets g' =
        filter (fun t => t ≠ Deployment.name deployment) (pollingTargets g) /\
      pollingListeners g' = pollingListeners g /\
      pollingHasErrors g' = true.
Proof.
  split; [|split].
  - eexists. split; [vm_compute; reflexivity|]. repeat split.
  - eexists. split; [vm_compute; reflexivity|]. repeat split.
  - intros. now apply update_exhausted.
Qed.

(** ** Further properties of the script *)

(** The loops of [parsePods] and [getPodsWithBuildNumbers] over the matches
    of their patterns end on every input: a match of either pattern reads at
    least one character, so the last index always moves on. *)
Theorem match_loops_end (kubeConfig namespace : option string) (w : world)
    (deployments : list string) (stdout : string) (pods : list Pod.t) :
  (exists parsed, parsePods stdout = Some parsed) /\
  (exists pods', withBuildNumbers pods stdout = Some pods') /\
  (getPodsWithBuildNumbers kubeConfig namespace w deployments).2 <> Endless.
Proof.
  split; [apply parsePods_total|]. split; [apply withBuildNumbers_total|].
  apply getPodsWithBuildNumbers_ends.
Qed.

(** The examples of the build tagging convention: "build-42" gives "42", and
    an image reference without any dash gives NotFound. *)
Theorem extractBuild_examples :
  extractBuild "    image: registry/app:build-42" = BuildFound (Some "42") /\
  extractBuild "    image: registry/app:latest" = BuildNotFound.
Proof. split; reflexivity. Qed.

Lemma filter_none {A : Type} (P : A -> Prop) `{forall x, Decision (P x)}
    (l : list A) :
  (forall x, x ∈ l -> ~ P x) -> filter P l = [].
Proof.
  induction l as [|x l IH]; intros Hno; [reflexivity|].
  rewrite filter_cons_False by (apply Hno, list_elem_of_here).
  apply IH. intros y Hy. apply Hno. now apply list_elem_of_further.
Qed.

(** A snapshot in which no pod of the target's name and build has succeeded
    or failed leaves a target that wants at least one replica exactly as it
    was: still in the list, its listener still registered. *)
Theorem waiting_snapshot_changes_nothing (me : Listener) (pods : list Pod.t)
    (g : Globals) :
  0 < Deployment.desiredCount (deployment me) ->
  (forall pod, pod ∈ pods ->
     matching (Deployment.name (deployment me)) (buildNumber me) pod ->
     Pod.state pod ∈ ["ContainerCreating"; "Pending"; "Terminating"]) ->
  pollingTargets (listener me pods g) = pollingTargets g /\
  pollingListeners (listener me pods g) = pollingListeners g /\
  pollingHasErrors (listener me pods g) = pollingHasErrors g.
Proof.
  intros Hpos Hwait.
  rewrite listener_waiting; [repeat split|].
  rewrite !filter_none; [simpl; lia | |].
  - intros pod Hin (Hm & Hnot). specialize (Hwait pod Hin Hm).
    apply Hnot. unfold waitingStates. rewrite !elem_of_cons in *. tauto.
  - intros pod Hin (Hm & Hst & _). specialize (Hwait pod Hin Hm).
    rewrite Hst in Hwait. rewrite !elem_of_cons in Hwait.
    destruct Hwait as [H|[H|[H|H]]]; try discriminate.
    now apply not_elem_of_nil in H.
Qed.

(** The theorem at the first tick of the run with two targets. *)
Lemma waiting_snapshot_changes_nothing_witness :
  pollingTargets
    (listener listenerA
       [Pod.mk "a-1234567890-abcde" false "a" "ContainerCreating" "0"
          (Some "2")] afterB) = ["a"; "b"].
Proof.
  assert (H1 : 0 < Deployment.desiredCount (deployment listenerA))
    by (simpl; lia).
  assert (H2 : forall pod,
    pod ∈ [Pod.mk "a-1234567890-abcde" false "a" "ContainerCreating" "0"
             (Some "2")] ->
    matching (Deployment.name (deployment listenerA)) (buildNumber listenerA)
      pod ->
    Pod.state pod ∈ ["ContainerCreating"; "Pending"; "Terminating"]).
  { intros pod Hin _. apply list_elem_of_singleton in Hin as ->.
    simpl. apply list_elem_of_here. }
  destruct (waiting_snapshot_changes_nothing listenerA _ afterB H1 H2)
    as (Ht & _).
  rewrite Ht. reflexivity.
Defined.

(** The listeners in [pollingListeners] are always distinct closures: this
    holds when the script is loaded, and the tick of the loop, the update of
    a deployment and the callback of the main program all keep it. *)
Theorem listeners_stay_distinct (kubeConfig namespace : option string)
    (w : world) (now : Z) (g : Globals) :
  distinctListeners initial /\
  (distinctListeners g ->
   distinctListeners (stateOf (pollPods kubeConfig namespace w now g)) /\
   (forall deployment newBuildNumber originalBuild,
      distinctListeners
        (stateOf (updateDeploymentBuildNumber kubeConfig namespace w now
                    deployment newBuildNumber originalBuild g))) /\
   (forall deployment foundDeployment pods buildNumber,
      distinctListeners
        (stateOf (onDeploymentBuildNumber kubeConfig namespace w now
                    deployment foundDeployment pods buildNumber g)))).
Proof.
  split.
  - split; simpl; constructor.
  - apply handlers_keep_listeners_distinct.
Qed.

(** The theorem along the run with two targets. *)
Lemma listeners_stay_distinct_witness :
  distinctListeners afterA /\ distinctListeners afterB.
Proof.
  assert (HA : distinctListeners afterA).
  { destruct (listeners_stay_distinct None None clusterStarting 100 initial)
      as (H0 & Hstep).
    destruct (Hstep H0) as (_ & _ & Hmain).
    apply (Hmain ["a"; "2"] deploymentA [] (Some "1")). }
  split; [exact HA|].
  destruct (listeners_stay_distinct None None clusterStarting 101 afterA)
    as (_ & Hstep).
  destruct (Hstep HA) as (_ & _ & Hmain).
  apply (Hmain ["b"; "2"] deploymentB [] (Some "1")).
Defined.

(** * Further facts *)

(** ** The gateway, beyond exhaustion *)

Section GatewayRuns.

Variables kubeConfig namespace : option string.

(** Failing [k] times from [tryNumber] failures on, then succeeding. *)
Lemma execRetry_then_success (w : world) (name command : string)
    (onError : bool) :
  forall k tryNumber,
    tryNumber + k <= maxExecRetries ->
    (forall n, tryNumber <= n < tryNumber + k ->
       failed (w (command +:+ getExtraParams kubeConfig namespace) n) = true) ->
    failed (w (command +:+ getExtraParams kubeConfig namespace)
              (tryNumber + k)) = false ->
    execRetry kubeConfig namespace w name command onError tryNumber =
    after (retries name (command +:+ getExtraParams kubeConfig namespace)
             tryNumber k)
      ([Exec (command +:+ getExtraParams kubeConfig namespace);
        Callback (stdout (w (command +:+ getExtraParams kubeConfig namespace)
                            (tryNumber + k)))],
       Done (stdout (w (command +:+ getExtraParams kubeConfig namespace)
                       (tryNumber + k)))).
Proof.
  induction k as [|k IH]; intros t Ht Hfail Hok; rewrite execRetry_step;
    cbv zeta.
  - rewrite Nat.add_0_r in Hok. rewrite Hok, Nat.add_0_r. reflexivity.
  - rewrite Hfail by lia.
    destruct (Nat.ltb_spec maxExecRetries (S t)); [lia|].
    rewrite (IH (S t)); [| lia | intros; apply Hfail; lia |].
    + replace (S t + k) with (t + S k) by lia. reflexivity.
    + replace (S t + k) with (t + S k) by lia. exact Hok.
Qed.

(** A call ends in exactly one of three ways, and that is the last thing it
    does. *)
Lemma execRetry_ending (w : world) (name command : string) (onError : bool) :
  forall k tryNumber,
    maxExecRetries - tryNumber <= k ->
    let run := execRetry kubeConfig namespace w name command onError tryNumber in
    occurrences isCallback run.1 + occurrences isOnError run.1 +
      occurrences isProcessExit run.1 = 1 /\
    match run.2 with
    | Done out => last run.1 = Some (Callback out)
    | Handled => last run.1 = Some OnError /\ onError = true
    | Fatal => last run.1 = Some (ProcessExit 1) /\ onError = false
    end /\
    Forall (fun e => isExec e = true ->
              e = Exec (command +:+ getExtraParams kubeConfig namespace)) run.1.
Proof.
  induction k as [|k IH]; intros t Ht; cbv zeta; rewrite execRetry_step;
    cbv zeta; destruct (failed _).
  - destruct (Nat.ltb_spec maxExecRetries (S t)); [|lia].
    destruct onError; simpl; repeat split;
      repeat constructor; try discriminate.
  - simpl. repeat split. repeat constructor; discriminate.
  - destruct (Nat.ltb_spec maxExecRetries (S t)).
    + destruct onError; simpl; repeat split;
        repeat constructor; try discriminate.
    + destruct (IH (S t)) as (H1 & H2 & H3); [lia|].
      unfold after. cbn [fst snd]. rewrite !occurrences_app.
      split; [simpl; lia|]. split.
      * destruct (execRetry _ _ w name command onError (S t)) as [evs res].
        cbn [fst snd] in *.
        assert (Hlast : forall e, last evs = Some e ->
                  last ([Exec (command +:+ getExtraParams kubeConfig namespace);
                         Log (NetworkError name (S t)); RetryIn execDelay]
                        ++ evs) = Some e).
        { intros e He. rewrite last_app, He. reflexivity. }
        destruct res; [auto | destruct H2; auto | destruct H2; auto].
      * apply Forall_app. split; [|exact H3].
        repeat constructor; discriminate.
  - simpl. repeat split. repeat constructor; discriminate.
Qed.

End GatewayRuns.

(** A command that fails [k] times, [k] at most 30, and then succeeds is
    retried [k] times, each retry announced with its number and made
    [execDelay] later; the callback gets the output of the first try that
    succeeds, and neither the handler nor the fatal path is taken. *)
Theorem execRetry_recovers (kubeConfig namespace : option string) (w : world)
    (name command : string) (onError : bool) (k : nat) :
  let cmd := command +:+ getExtraParams kubeConfig namespace in
  let run := execRetry kubeConfig namespace w name command onError 0 in
  k <= maxExecRetries ->
  (forall n, n < k -> failed (w cmd n) = true) ->
  failed (w cmd k) = false ->
  run = after (retries name cmd 0 k)
          ([Exec cmd; Callback (stdout (w cmd k))], Done (stdout (w cmd k))) /\
  occurrences isExec run.1 = S k /\
  occurrences (isRetryIn execDelay) run.1 = k /\
  occurrences isCallback run.1 = 1 /\
  occurrences isOnError run.1 = 0 /\
  occurrences isProcessExit run.1 = 0.
Proof.
  cbv zeta. intros Hk Hfail Hok.
  rewrite (execRetry_then_success kubeConfig namespace w name command onError
             k 0); [| simpl; lia | intros; apply Hfail; lia | exact Hok].
  simpl Nat.add. split; [reflexivity|].
  unfold after. cbn [fst snd].
  rewrite !occurrences_app, !occurrences_retries.
  assert (Hlogs : forall (p : event -> bool) t,
            (forall l, p (Log l) = false) ->
            occurrences p (map (fun j => Log (NetworkError name (S j)))
                             (seq t k)) = 0).
  { intros p t Hp. induction (seq t k) as [|j js IH]; simpl; [reflexivity|].
    rewrite Hp, IH. reflexivity. }
  rewrite !Hlogs by reflexivity. simpl. repeat split; lia.
Qed.

(** The theorem at a command that is refused thirty times and then goes
    through. *)
Lemma execRetry_recovers_witness :
  (execRetry None None thirtyFailures "get pods" "kubectl get pods" false 0).2
  = Done "deployment replaced".
Proof.
  assert (H1 : 30 <= maxExecRetries) by (unfold maxExecRetries; lia).
  assert (H2 : forall n, n < 30 ->
            failed (thirtyFailures
                      ("kubectl get pods" +:+ getExtraParams None None) n)
            = true).
  { intros n Hn. unfold thirtyFailures.
    destruct (Nat.ltb_spec n 30); [reflexivity | lia]. }
  destruct (execRetry_recovers None None thirtyFailures "get pods"
              "kubectl get pods" false 30 H1 H2 eq_refl) as (H & _).
  rewrite H. reflexivity.
Defined.

(** Whatever the command answers, a call of the gateway ends in exactly one
    of three ways: the callback, the handler or the exit of the process.
    That is the last thing the call does; the handler is only taken when one
    was passed and the exit only when none was; and every try runs the same
    command line, the command with the options appended. *)
Theorem execRetry_one_ending (kubeConfig namespace : option string)
    (w : world) (name command : string) (onError : bool) :
  let run := execRetry kubeConfig namespace w name command onError 0 in
  occurrences isCallback run.1 + occurrences isOnError run.1 +
    occurrences isProcessExit run.1 = 1 /\
  match run.2 with
  | Done out => last run.1 = Some (Callback out)
  | Handled => last run.1 = Some OnError /\ onError = true
  | Fatal => last run.1 = Some (ProcessExit 1) /\ onError = false
  end /\
  Forall (fun e => isExec e = true ->
            e = Exec (command +:+ getExtraParams kubeConfig namespace)) run.1.
Proof.
  cbv zeta.
  apply (execRetry_ending kubeConfig namespace w name command onError
           maxExecRetries 0).
  lia.
Qed.

(** ** The error flag and the exit status *)

Section ExitStatus.

Variables kubeConfig namespace : option string.

Lemma listener_flag (me : Listener) (pods : list Pod.t) (g : Globals) :
  pollingHasErrors g = true -> pollingHasErrors (listener me pods g) = true.
Proof.
  intros H. unfold listener.
  destruct (_ =? _)%nat; [destruct (0 <? _)%nat|]; simpl; auto.
Qed.

Lemma forEachListener_flag (pods : list Pod.t) :
  forall count k g,
    pollingHasErrors g = true ->
    pollingHasErrors (forEachListener count k pods g) = true.
Proof.
  induction count as [|count IH]; intros k g H; simpl; [exact H|].
  apply IH. destruct (pollingListeners g !! k); [|exact H].
  apply listener_flag. exact H.
Qed.

Lemma startClock_flag (now : Z) (g : Globals) :
  pollingHasErrors (startClock now g) = pollingHasErrors g.
Proof. unfold startClock. now destruct (unset _). Qed.

Lemma finishUpdate_status (g : Globals) :
  finishUpdate g =
  Exited (if pollingHasErrors g then 1 else 0)
    (emit [Log (Completed (negb (pollingHasErrors g)));
           ProcessExit (if pollingHasErrors g then 1 else 0)] g).
Proof.
  unfold finishUpdate, processExit, emit. simpl.
  destruct (pollingHasErrors g); simpl; rewrite <- app_assoc; reflexivity.
Qed.

(** One tick: the flag stays up, and an exit tells of it. *)
Lemma pollPods_status (w : world) (now : Z) (g : Globals) :
  (pollingHasErrors g = true ->
   pollingHasErrors (stateOf (pollPods kubeConfig namespace w now g)) = true) /\
  exitTellsErrors g (pollPods kubeConfig namespace w now g).
Proof.
  unfold pollPods, exitTellsErrors.
  pose proof (startClock_flag now g) as Hflag.
  destruct (exceeds _ _).
  { split; [simpl; now rewrite Hflag|].
    intros code g' H. injection H as <- <-. repeat split; auto; discriminate. }
  destruct (getPodsWithBuildNumbers _ _ w _) as [evs [pods| |]].
  - assert (Hup : pollingHasErrors g = true ->
              pollingHasErrors (dispatch pods (emit evs (startClock now g)))
              = true).
    { intros H. apply forEachListener_flag. simpl. now rewrite Hflag. }
    destruct (pollingTargets (dispatch pods (emit evs (startClock now g))))
      as [|t ts] eqn:Et; simpl.
    + rewrite finishUpdate_status. split.
      * intros H. simpl. auto.
      * intros code g' H. injection H as <- <-.
        destruct (pollingHasErrors (dispatch pods _)) eqn:Ef.
        -- repeat split; auto; discriminate.
        -- repeat split; auto.
           ++ simpl. rewrite last_app_cons. reflexivity.
           ++ intros H. apply Hup in H. discriminate.
    + split; [simpl; exact Hup|]. intros code g' H. discriminate.
  - split; [simpl; now rewrite Hflag|].
    intros code g' H. injection H as <- <-. repeat split; auto; discriminate.
  - split; [simpl; now rewrite Hflag|]. intros code g' H. discriminate.
Qed.

Lemma pollLoop_status :
  forall ticks g,
    (pollingHasErrors g = true ->
     pollingHasErrors (stateOf (pollLoop kubeConfig namespace ticks g)) = true)
    /\ exitTellsErrors g (pollLoop kubeConfig namespace ticks g).
Proof.
  induction ticks as [|[w now] ticks IH]; intros g; simpl.
  - split; [auto|]. intros code g' H. discriminate.
  - destruct (pollPods_status w now g) as [Hflag Hexit].
    destruct (pollPods kubeConfig namespace w now g) as [g1|c g1|e g1|g1]
      eqn:Etick; try (split; [exact Hflag | exact Hexit]).
    destruct (IH g1) as [Hflag1 Hexit1]. simpl in Hflag. split.
    + intros H. apply Hflag1, Hflag, H.
    + intros code g' H. destruct (Hexit1 code g' H) as (H1 & H2 & H3).
      split; [exact H1|]. split; [exact H2|]. auto.
Qed.

Lemma healthCheckPods_status (w : world) (now : Z)
    (deployment : Deployment.t) (buildNumber : string) (g : Globals) :
  exitTellsErrors g
    (healthCheckPods kubeConfig namespace w now deployment buildNumber g).
Proof.
  unfold healthCheckPods. simpl pollingStarted.
  destruct (pollingStarted g); [intros code g' H; discriminate|].
  apply (pollPods_status w now
           (setPollingStarted true
              (setPollingListeners
                 (pollingListeners (setClosures (S (closures g)) g) ++
                  [mkListener (closures g) deployment buildNumber])
                 (setClosures (S (closures g)) g)))).
Qed.

Lemma update_status (w : world) (now : Z) (deployment : Deployment.t)
    (newBuildNumber : string) (originalBuild : option string) (g : Globals) :
  exitTellsErrors g
    (updateDeploymentBuildNumber kubeConfig namespace w now deployment
       newBuildNumber originalBuild g).
Proof.
  unfold updateDeploymentBuildNumber.
  destruct (execRetry _ _ w _ _ true 0) as [evs [out| |]].
  - apply (healthCheckPods_status w now deployment newBuildNumber
             (emit [Log (DeploymentUpdated (Deployment.name deployment)
                           originalBuild newBuildNumber)] (emit evs g))).
  - intros code g' H. discriminate.
  - intros code g' H. injection H as <- <-. repeat split; auto; discriminate.
Qed.

Lemma runEntry_status (w : world) (now : Z) (p : planned) (g : Globals) :
  exitTellsErrors g (runEntry kubeConfig namespace w now p g).
Proof.
  destruct p as [d|serviceName d fd pods]; simpl;
    [intros code g' H; discriminate|].
  destruct (getDeploymentBuildNumber _ _ w serviceName) as [evs [answer|]].
  - unfold onDeploymentBuildNumber.
    destruct d as [|s [|requested d]];
      try (intros code g' H; discriminate).
    destruct (bool_decide _).
    + destruct (_ =? _)%nat; [intros code g' H; discriminate|].
      apply (healthCheckPods_status w now fd requested
               (emit [Log (NotUpToDate s)]
                  (emit [Log (AlreadyConfigured s (buildOf answer))]
                     (setPollingTargets (pollingTargets (emit evs g) ++ [s])
                        (emit evs g))))).
    + apply (update_status w now fd requested (buildOf answer)
               (setPollingTargets (pollingTargets (emit evs g) ++ [s])
                  (emit evs g))).
  - intros code g' H. injection H as <- <-. repeat split; auto; discriminate.
Qed.

Lemma endTellsErrors_intro (g : Globals) (o : outcome) :
  exitTellsErrors g o -> soundEnding g o -> endTellsErrors g o.
Proof.
  intros Hexit Hsound. destruct o as [g'|code g'|e g'|g']; simpl in *; auto.
  destruct (Hexit code g' eq_refl) as (H1 & H2 & H3).
  split; [exact H1|]. intros ->.
  destruct (H2 eq_refl) as (Ht & Hf & Hl).
  repeat split; auto.
  destruct (pollingHasErrors g); [|reflexivity].
  specialize (H3 eq_refl). discriminate.
Qed.

Lemma pollPods_sound (w : world) (now : Z) (g : Globals) :
  soundEnding g (pollPods kubeConfig namespace w now g).
Proof.
  destruct (pollPods_status w now g) as [Hflag _].
  pose proof (getPodsWithBuildNumbers_ends kubeConfig namespace w
                (pollingTargets (startClock now g))) as Hends.
  revert Hflag. unfold pollPods.
  destruct (exceeds _ _); [simpl; auto|].
  destruct (getPodsWithBuildNumbers _ _ w _) as [evs [pods| |]];
    simpl in Hends; [| |contradiction].
  - destruct (_ =? _)%nat; [rewrite finishUpdate_status|]; simpl; auto.
  - simpl. auto.
Qed.

Lemma pollPods_end (w : world) (now : Z) (g : Globals) :
  endTellsErrors g (pollPods kubeConfig namespace w now g).
Proof.
  apply endTellsErrors_intro; [apply pollPods_status | apply pollPods_sound].
Qed.

Lemma healthCheckPods_sound (w : world) (now : Z)
    (deployment : Deployment.t) (buildNumber : string) (g : Globals) :
  soundEnding g
    (healthCheckPods kubeConfig namespace w now deployment buildNumber g).
Proof.
  unfold healthCheckPods. simpl pollingStarted.
  destruct (pollingStarted g); [simpl; auto|].
  apply (pollPods_sound w now
           (setPollingStarted true
              (setPollingListeners
                 (pollingListeners (setClosures (S (closures g)) g) ++
                  [mkListener (closures g) deployment buildNumber])
                 (setClosures (S (closures g)) g)))).
Qed.

Lemma update_sound (w : world) (now : Z) (deployment : Deployment.t)
    (newBuildNumber : string) (originalBuild : option string) (g : Globals) :
  soundEnding g
    (updateDeploymentBuildNumber kubeConfig namespace w now deployment
       newBuildNumber originalBuild g).
Proof.
  unfold updateDeploymentBuildNumber.
  destruct (execRetry _ _ w _ _ true 0) as [evs [out| |]].
  - apply (healthCheckPods_sound w now deployment newBuildNumber
             (emit [Log (DeploymentUpdated (Deployment.name deployment)
                           originalBuild newBuildNumber)] (emit evs g))).
  - reflexivity.
  - exact I.
Qed.

Lemma runEntry_sound (w : world) (now : Z) (p : planned) (g : Globals) :
  soundEnding g (runEntry kubeConfig namespace w now p g).
Proof.
  destruct p as [d|serviceName d fd pods]; simpl; [auto|].
  destruct (getDeploymentBuildNumber _ _ w serviceName) as [evs [answer|]];
    [|exact I].
  unfold onDeploymentBuildNumber.
  destruct d as [|s [|requested d]]; simpl; auto.
  destruct (bool_decide _).
  - destruct (_ =? _)%nat; [simpl; auto|].
    apply (healthCheckPods_sound w now fd requested
             (emit [Log (NotUpToDate s)]
                (emit [Log (AlreadyConfigured s (buildOf answer))]
                   (setPollingTargets (pollingTargets (emit evs g) ++ [s])
                      (emit evs g))))).
  - apply (update_sound w now fd requested (buildOf answer)
             (setPollingTargets (pollingTargets (emit evs g) ++ [s])
                (emit evs g))).
Qed.

Lemma runTurn_end (t : turn) (g : Globals) :
  endTellsErrors g (runTurn kubeConfig namespace t g).
Proof.
  destruct t as [w now p|w now]; simpl.
  - apply endTellsErrors_intro; [apply runEntry_status | apply runEntry_sound].
  - apply pollPods_end.
Qed.

(** An ending told of from a later state is told of from an earlier one. *)
Lemma endTellsErrors_later (g g1 : Globals) (o : outcome) :
  (pollingHasErrors g = true -> pollingHasErrors g1 = true) ->
  endTellsErrors g1 o -> endTellsErrors g o.
Proof.
  intros Hup. destruct o as [g'|code g'|e g'|g']; simpl; auto.
  intros [H1 H2]. split; [exact H1|]. intros Hc.
  destruct (H2 Hc) as (Ht & Hf & Hg & Hl). repeat split; auto.
  destruct (pollingHasErrors g); [|reflexivity].
  rewrite Hup in Hg by reflexivity. discriminate.
Qed.

Lemma runTurns_end :
  forall turns g, endTellsErrors g (runTurns kubeConfig namespace turns g).
Proof.
  induction turns as [|t turns IH]; intros g; simpl; [auto|].
  pose proof (runTurn_end t g) as Hturn.
  destruct (runTurn kubeConfig namespace t g) as [g1|c g1|e g1|g1];
    try exact Hturn.
  eapply endTellsErrors_later; [exact Hturn | apply IH].
Qed.

Lemma runTurns_app :
  forall before after g g1,
    runTurns kubeConfig namespace before g = Returned g1 ->
    runTurns kubeConfig namespace (before ++ after) g =
    runTurns kubeConfig namespace after g1.
Proof.
  induction before as [|t before IH]; intros after g g1 H; simpl in *.
  - now injection H as ->.
  - destruct (runTurn kubeConfig namespace t g) as [g2|c g2|e g2|g2];
      try discriminate H.
    apply IH, H.
Qed.

End ExitStatus.

(** The exit status tells of errors.  Take a run made of any number of
    chains of callbacks set off for the arguments and of ticks of the loop,
    in any order.  While the process is there, an error flag that is up
    stays up.  When the run ends the process by [process.exit], the status
    is 0 or 1, and it is 0 only when [pollingTargets] is empty and the flag
    is down, at the exit and at the start of every chain and tick of the
    run, the exit being the last thing done.  When it ends the process by the exception of
    the error handler of the update, the flag is up.  The run is never
    caught in a loop. *)
Theorem exit_status_tells_errors (kubeConfig namespace : option string)
    (turns : list turn) (g : Globals) :
  endTellsErrors g (runTurns kubeConfig namespace turns g) /\
  (forall before after g1,
     turns = before ++ after ->
     runTurns kubeConfig namespace before g = Returned g1 ->
     runTurns kubeConfig namespace turns g =
       runTurns kubeConfig namespace after g1 /\
     endTellsErrors g1 (runTurns kubeConfig namespace turns g)).
Proof.
  split; [apply runTurns_end|].
  intros before after g1 -> Hbefore.
  rewrite (runTurns_app kubeConfig namespace before after g g1 Hbefore).
  split; [reflexivity | apply runTurns_end].
Qed.

(** The theorem in two runs.  Started as [kubeimage a=2 b=2], with the pods
    up at the second tick: "a" resolves at that tick, "b" at the next one,
    and the process exits with status 0, no target left and no error
    recorded.  Started as [kubeimage a=2] against a cluster that refuses the
    update: the process is ended by the exception of the error handler, the
    flag up. *)
Lemma exit_status_tells_errors_witness :
  (exists g',
     runTurns None None
       [EntryTurn clusterStarting 100 (Asked "a" ["a"; "2"] deploymentA []);
        EntryTurn clusterStarting 101 (Asked "b" ["b"; "2"] deploymentB []);
        TickTurn clusterReady 106; TickTurn clusterReady 111] initial
     = Exited 0 g' /\
     pollingTargets g' = [] /\ pollingHasErrors g' = false) /\
  (exists err g',
     runTurns None None
       [EntryTurn clusterRefusingUpdates 100
          (Asked "a" ["a"; "2"] deploymentA [])] initial
     = Thrown err g' /\
     pollingHasErrors g' = true).
Proof.
  split.
  - destruct (exit_status_tells_errors None None
                [EntryTurn clusterStarting 100
                   (Asked "a" ["a"; "2"] deploymentA []);
                 EntryTurn clusterStarting 101
                   (Asked "b" ["b"; "2"] deploymentB []);
                 TickTurn clusterReady 106; TickTurn clusterReady 111]
                initial) as [H _].
    destruct (runTurns None None _ initial) as [g'|c g'|e g'|g'] eqn:E;
      vm_compute in E; try discriminate E.
    assert (Hc : c = 0%Z) by (injection E as <- _; reflexivity).
    subst c. clear E. destruct H as [_ H0].
    destruct (H0 eq_refl) as (Ht & Hf & _).
    exists g'. split; [reflexivity|]. split; assumption.
  - destruct (exit_status_tells_errors None None
                [EntryTurn clusterRefusingUpdates 100
                   (Asked "a" ["a"; "2"] deploymentA [])] initial) as [H _].
    destruct (runTurns None None _ initial) as [g'|c g'|e g'|g'] eqn:E;
      vm_compute in E; try discriminate E.
    clear E. exists e, g'. split; [reflexivity | exact H].
Defined.

(** ** Targets that nobody listens for *)

Section Orphans.

Variables kubeConfig namespace : option string.

Lemma listener_orphan (me : Listener) (pods : list Pod.t) (g : Globals)
    (t : string) :
  Deployment.name (deployment me) ≠ t ->
  orphan t g -> orphan t (listener me pods g).
Proof.
  intros Hne [Hin Hall]. split.
  - unfold listener.
    destruct (_ =? _)%nat; [|exact Hin].
    destruct (0 <? _)%nat; simpl; apply list_elem_of_filter;
      (split; [congruence | exact Hin]).
  - rewrite Forall_forall in *. intros l Hl. apply Hall.
    eapply elem_of_sublist; [exact Hl|].
    apply (listener_listeners me pods g).
Qed.

Lemma forEachListener_orphan (pods : list Pod.t) (t : string) :
  forall count k g,
    orphan t g -> orphan t (forEachListener count k pods g).
Proof.
  induction count as [|count IH]; intros k g Ho; simpl; [exact Ho|].
  apply IH. destruct (pollingListeners g !! k) as [l|] eqn:El; [|exact Ho].
  apply listener_orphan.
  - destruct Ho as [_ Hall]. rewrite Forall_forall in Hall.
    apply Hall. eapply list_elem_of_lookup_2, El.
  - destruct Ho as [Hin Hall]. split; assumption.
Qed.

Lemma startClock_orphan (now : Z) (g : Globals) (t : string) :
  orphan t g -> orphan t (startClock now g).
Proof. unfold startClock. now destruct (unset _). Qed.

(** A tick with an orphan among the targets never reaches [finishUpdate]. *)
Lemma pollPods_orphan (w : world) (now : Z) (g : Globals) (t : string) :
  orphan t g ->
  match pollPods kubeConfig namespace w now g with
  | Returned g' => orphan t g'
  | Exited code g' => code = 1%Z /\ t ∈ pollingTargets g'
  | Thrown _ _ | Hangs _ => False
  end.
Proof.
  intros Ho. unfold pollPods.
  pose proof (startClock_orphan now g t Ho) as Ho'.
  pose proof (getPodsWithBuildNumbers_ends kubeConfig namespace w
                (pollingTargets (startClock now g))) as Hends.
  destruct (exceeds _ _).
  { simpl. split; [reflexivity | apply Ho']. }
  destruct (getPodsWithBuildNumbers _ _ w _) as [evs [pods| |]];
    simpl in Hends; [| |contradiction].
  - assert (Hd : orphan t (dispatch pods (emit evs (startClock now g)))).
    { apply forEachListener_orphan. exact Ho'. }
    destruct (pollingTargets (dispatch pods (emit evs (startClock now g))))
      as [|t0 ts] eqn:Et; simpl.
    + destruct Hd as [Hin _]. rewrite Et in Hin.
      now apply not_elem_of_nil in Hin.
    + destruct Hd as [Hin Hall]. split; assumption.
  - split; [reflexivity | apply Ho'].
Qed.

Lemma pollLoop_orphan (t : string) :
  forall ticks g,
    orphan t g ->
    match pollLoop kubeConfig namespace ticks g with
    | Returned g' => orphan t g'
    | Exited code g' => code = 1%Z /\ t ∈ pollingTargets g'
    | Thrown _ _ | Hangs _ => False
    end.
Proof.
  induction ticks as [|[w now] ticks IH]; intros g Ho; simpl; [exact Ho|].
  pose proof (pollPods_orphan w now g t Ho) as Htick.
  destruct (pollPods kubeConfig namespace w now g) as [g1|c g1|e g1|g1];
    try exact Htick.
  apply IH, Htick.
Qed.

End Orphans.

(** A deployment that is found already configured and up to date leaves its
    name in [pollingTargets] with no listener to take it out (as long as no
    listener of that name is registered).  With such a name in the list no
    tick reaches [finishUpdate], however the other targets fare: a stretch of
    ticks either leaves the loop running, the name still there, or ends the
    process with status 1, at the deadline or in the gateway. *)
Theorem target_without_listener_never_completes
    (kubeConfig namespace : option string) (ticks : list (world * Z))
    (g : Globals) (t : string) :
  (forall w now requested foundDeployment pods,
     Forall (fun l => Deployment.name (deployment l) ≠ t)
       (pollingListeners g) ->
     length (filter (fun pod => Pod.build pod = Some requested /\
                       Pod.state pod = "Running" /\ Pod.ready pod = true) pods)
     = Deployment.desiredCount foundDeployment ->
     exists g',
       onDeploymentBuildNumber kubeConfig namespace w now [t; requested]
         foundDeployment pods (Some requested) g = Returned g' /\
       orphan t g') /\
  (orphan t g ->
   match pollLoop kubeConfig namespace ticks g with
   | Returned g' => orphan t g'
   | Exited code g' => code = 1%Z /\ t ∈ pollingTargets g'
   | Thrown _ _ | Hangs _ => False
   end).
Proof.
  split; [|apply pollLoop_orphan].
  intros w now requested fd pods Hall Hup. unfold onDeploymentBuildNumber.
  rewrite bool_decide_eq_true_2 by reflexivity.
  rewrite Hup, Nat.eqb_refl.
  eexists. split; [reflexivity|]. split; simpl.
  - apply elem_of_app. right. apply list_elem_of_here.
  - exact Hall.
Qed.

(** The theorem in the run with target "a", joined by "myapp", which is
    found up to date: at the tick that finds the pod of "a" up, "a" resolves
    and the loop goes on all the same, "myapp" still in the list. *)
Lemma target_without_listener_never_completes_witness :
  orphan "myapp"
    (stateOf (onDeploymentBuildNumber None None alwaysFailing 100
                ["myapp"; "42"] (Deployment.mk "myapp" 1) [upPod] (Some "42")
                afterA)) /\
  exists g',
    pollLoop None None [(clusterReady, 106%Z)]
      (stateOf (onDeploymentBuildNumber None None alwaysFailing 100
                  ["myapp"; "42"] (Deployment.mk "myapp" 1) [upPod]
                  (Some "42") afterA)) = Returned g' /\
    orphan "myapp" g'.
Proof.
  destruct (proj1 (target_without_listener_never_completes None None []
                     afterA "myapp")
              alwaysFailing 100%Z "42" (Deployment.mk "myapp" 1) [upPod])
    as (g1 & Hrun & Ho).
  { repeat constructor. discriminate. }
  { reflexivity. }
  rewrite Hrun. simpl stateOf. split; [exact Ho|].
  pose proof (proj2 (target_without_listener_never_completes None None
                       [(clusterReady, 106%Z)] g1 "myapp") Ho) as H.
  vm_compute in Hrun. injection Hrun as <-.
  destruct (pollLoop None None [(clusterReady, 106%Z)] _)
    as [g'|c g'|e g'|g'] eqn:E; vm_compute in E; try discriminate E.
  exists g'. split; [reflexivity | exact H].
Defined.

(** ** What the queries run and what they bring back *)

Section Queries.

Variables kubeConfig namespace : option string.

Local Abbreviation extra := (getExtraParams kubeConfig namespace).
Local Abbreviation nonSpace := (fun c : ascii => negb (isSpace c)).

Lemma runsOnly_app (commands : string -> Prop) (evs1 evs2 : list event) :
  runsOnly commands extra evs1 -> runsOnly commands extra evs2 ->
  runsOnly commands extra (evs1 ++ evs2).
Proof. intros H1 H2. apply Forall_app. split; assumption. Qed.

Lemma runsOnly_impl (c1 c2 : string -> Prop) (evs : list event) :
  (forall c, c1 c -> c2 c) ->
  runsOnly c1 extra evs -> runsOnly c2 extra evs.
Proof.
  intros Himp H. eapply Forall_impl; [exact H|]. simpl.
  intros e He command Hc. destruct (He command Hc) as (c & H1 & H2). eauto.
Qed.

Lemma runsOnly_silent (commands : string -> Prop) (evs : list event) :
  occurrences isExec evs = 0 -> runsOnly commands extra evs.
Proof.
  induction evs as [|e evs IH]; intros H; [constructor|].
  simpl in H. destruct (isExec e) eqn:Ee; [lia|].
  constructor; [|apply IH; lia].
  intros command ->. discriminate.
Qed.

(** A call of the gateway runs its command and no other. *)
Lemma execRetry_runsOnly (w : world) (name command : string)
    (onError : bool) :
  runsOnly (fun c => c = command) extra
    (execRetry kubeConfig namespace w name command onError 0).1.
Proof.
  destruct (execRetry_ending kubeConfig namespace w name command onError
              maxExecRetries 0) as (_ & _ & H); [lia|].
  eapply Forall_impl; [exact H|]. simpl.
  intros e He cmd ->. specialize (He eq_refl). injection He as ->. eauto.
Qed.

(** A call of the gateway begins by running its command. *)
Lemma execRetry_begins (w : world) (name command : string) (onError : bool)
    (tryNumber : nat) :
  exists evs,
    (execRetry kubeConfig namespace w name command onError tryNumber).1 =
    Exec (command +:+ extra) :: evs.
Proof.
  rewrite execRetry_step. cbv zeta.
  destruct (failed _); [|simpl; eauto].
  destruct (_ <? _)%nat; [destruct onError; simpl; eauto|].
  unfold after. simpl. eauto.
Qed.

(** The call that reaches the callback hands it the output in its trace. *)
Lemma execRetry_done (w : world) (name command : string) (onError : bool)
    (evs : list event) (out : string) :
  execRetry kubeConfig namespace w name command onError 0 = (evs, Done out) ->
  Exec (command +:+ extra) ∈ evs /\ Callback out ∈ evs.
Proof.
  intros H. split.
  - destruct (execRetry_begins w name command onError 0) as (evs' & He).
    rewrite H in He. simpl in He. rewrite He. apply list_elem_of_here.
  - destruct (execRetry_ending kubeConfig namespace w name command onError
                maxExecRetries 0) as (_ & Hl & _); [lia|].
    rewrite H in Hl. simpl in Hl.
    destruct evs as [|e evs _] using rev_ind; [discriminate|].
    rewrite last_snoc in Hl. injection Hl as ->.
    apply elem_of_app. right. apply list_elem_of_here.
Qed.

(** Setting builds changes nothing else of a pod. *)
Lemma assignBuilds_keeps {A : Type} (f : Pod.t -> A) (matches : list State) :
  (forall b pod, f (Pod.setBuild b pod) = f pod) ->
  forall index pods, f <$> assignBuilds matches index pods = f <$> pods.
Proof.
  intros Hf. induction matches as [|m matches IH]; intros index pods; simpl;
    [reflexivity|].
  rewrite IH. destruct (pods !! index) as [pod|] eqn:E; [|reflexivity].
  rewrite list_fmap_insert, Hf. apply list_insert_id.
  rewrite list_lookup_fmap, E. reflexivity.
Qed.

(** The commands of a snapshot. *)
Lemma getPodsWithBuildNumbers_runs (w : world) (deployments : list string) :
  runsOnly snapshotQuery extra
    (getPodsWithBuildNumbers kubeConfig namespace w deployments).1.
Proof.
  unfold getPodsWithBuildNumbers.
  pose proof (execRetry_runsOnly w "get pods" "kubectl get pods" false) as H1.
  destruct (execRetry _ _ w "get pods" _ _ _) as [evs1 [out1| |]];
    simpl in *;
    try (eapply runsOnly_impl; [|exact H1]; intros c ->; now left).
  destruct (parsePods out1) as [parsed|];
    [|eapply runsOnly_impl; [|exact H1]; intros c ->; now left].
  pose proof (execRetry_runsOnly w "get pod"
    (batchedQuery (Pod.id <$>
       filter (fun pod => Pod.name pod ∈ deployments) parsed)) false) as H2.
  unfold batchedQuery in H2.
  destruct (execRetry _ _ w "get pod" _ _ _) as [evs2 [out2| |]];
    simpl in *.
  - destruct (withBuildNumbers _ out2); simpl;
      (apply runsOnly_app;
       [eapply runsOnly_impl; [|exact H1]; intros c ->; now left
       |eapply runsOnly_impl; [|exact H2]; intros c ->; right; eauto]).
  - apply runsOnly_app;
      [eapply runsOnly_impl; [|exact H1]; intros c ->; now left
      |eapply runsOnly_impl; [|exact H2]; intros c ->; right; eauto].
  - apply runsOnly_app;
      [eapply runsOnly_impl; [|exact H1]; intros c ->; now left
      |eapply runsOnly_impl; [|exact H2]; intros c ->; right; eauto].
Qed.

End Queries.

(** A snapshot holds the pods of the deployments asked for and no others:
    they are the pods of the table printed by "kubectl get pods" whose
    derived name is among [deployments], in the order of the table and with
    the id, state and readiness parsed there; the ids have no white space in
    them, and the batched build query has named exactly these ids, in this
    order. *)
Theorem snapshot_holds_requested_pods (kubeConfig namespace : option string)
    (w : world) (deployments : list string) (evs : list event)
    (pods : list Pod.t) :
  getPodsWithBuildNumbers kubeConfig namespace w deployments = (evs, Pods pods)
  ->
  exists out parsed,
    Callback out ∈ evs /\
    parsePods out = Some parsed /\
    Pod.id <$> pods =
      Pod.id <$> filter (fun pod => Pod.name pod ∈ deployments) parsed /\
    Pod.state <$> pods =
      Pod.state <$> filter (fun pod => Pod.name pod ∈ deployments) parsed /\
    Pod.ready <$> pods =
      Pod.ready <$> filter (fun pod => Pod.name pod ∈ deployments) parsed /\
    Forall (fun pod => Pod.name pod ∈ deployments /\
                       Pod.name pod = deriveName (Pod.id pod) /\
                       allChars (fun c => negb (isSpace c)) (Pod.id pod)
                       = true) pods /\
    Exec (batchedQuery (Pod.id <$> pods) +:+
          getExtraParams kubeConfig namespace) ∈ evs.
Proof.
  unfold getPodsWithBuildNumbers.
  destruct (execRetry _ _ w "get pods" _ _ _) as [evs1 [out1| |]] eqn:E1;
    try discriminate.
  destruct (parsePods out1) as [parsed|] eqn:Ep; [|discriminate].
  destruct (execRetry _ _ w "get pod" _ _ _) as [evs2 [out2| |]] eqn:E2;
    try discriminate.
  unfold withBuildNumbers.
  destruct (execAll podBuildRe out2) as [ms|]; [|discriminate].
  simpl. intros H. injection H as <- <-.
  set (wanted := filter (fun pod => Pod.name pod ∈ deployments) parsed) in *.
  apply execRetry_done in E1 as [_ Hout], E2 as [Hcmd _].
  exists out1, parsed.
  split; [apply elem_of_app; now left|]. split; [exact Ep|].
  split; [now apply assignBuilds_keeps|].
  split; [now apply assignBuilds_keeps|].
  split; [now apply assignBuilds_keeps|].
  split.
  - assert (Hw : Forall (fun pod => Pod.name pod ∈ deployments /\
                           Pod.name pod = deriveName (Pod.id pod) /\
                           allChars (fun c => negb (isSpace c)) (Pod.id pod)
                           = true) wanted).
    { apply Forall_forall. intros pod Hin.
      apply list_elem_of_filter in Hin as [Hn Hin].
      split; [exact Hn|]. eapply parsePods_ids; eassumption. }
    assert (Hsame : (fun pod => (Pod.name pod, Pod.id pod)) <$>
                      assignBuilds ms 0 wanted =
                    (fun pod => (Pod.name pod, Pod.id pod)) <$> wanted)
      by now apply assignBuilds_keeps.
    apply Forall_forall. intros pod Hin.
    assert (Hpair : (Pod.name pod, Pod.id pod) ∈
                    (fun pod => (Pod.name pod, Pod.id pod)) <$> wanted).
    { rewrite <- Hsame. apply list_elem_of_fmap. eauto. }
    apply list_elem_of_fmap in Hpair as (pod' & Heq & Hin').
    injection Heq as Hn Hi. rewrite Forall_forall in Hw.
    specialize (Hw pod' Hin'). rewrite Hn, Hi. exact Hw.
  - apply elem_of_app. right.
    replace (Pod.id <$> assignBuilds ms 0 wanted) with (Pod.id <$> wanted)
      by (symmetry; now apply assignBuilds_keeps).
    exact Hcmd.
Qed.


(** The theorem at the tick that finds the pod of "a" up. *)
Lemma snapshot_holds_requested_pods_witness :
  Exec "kubectl get pod a-1234567890-abcde -o yaml" ∈
    (getPodsWithBuildNumbers None None clusterReady ["a"]).1.
Proof.
  destruct (getPodsWithBuildNumbers None None clusterReady ["a"])
    as [evs [pods| |]] eqn:E;
    pose proof E as E'; vm_compute in E'; try discriminate E'.
  injection E' as <- <-.
  destruct (snapshot_holds_requested_pods None None clusterReady ["a"] _ _ E)
    as (out & parsed & _ & _ & _ & _ & _ & _ & H).
  exact H.
Defined.

(** ** What the script runs when it only looks *)

Section ReadOnly.

Variables kubeConfig namespace : option string.

Local Abbreviation extra := (getExtraParams kubeConfig namespace).

Lemma listener_trace (me : Listener) (pods : list Pod.t) (g : Globals) :
  exists evs,
    trace (listener me pods g) = trace g ++ evs /\
    occurrences isExec evs = 0.
Proof.
  unfold listener.
  destruct (fold_countPod_logs (buildNumber me)
              (filter (fun pod => Pod.name pod = Deployment.name (deployment me))
                 pods) (mkCounters 0 0, []) eq_refl (fun _ => eq_refl))
    as [Hlogs _].
  fold (countPods (Deployment.name (deployment me)) (buildNumber me) pods)
    in Hlogs.
  destruct (_ =? _)%nat; [destruct (0 <? _)%nat|]; simpl;
    rewrite <- ?app_assoc; eexists; (split; [reflexivity|]);
    rewrite ?occurrences_app, Hlogs; reflexivity.
Qed.

Lemma forEachListener_trace (pods : list Pod.t) :
  forall count k g,
    exists evs,
      trace (forEachListener count k pods g) = trace g ++ evs /\
      occurrences isExec evs = 0.
Proof.
  induction count as [|count IH]; intros k g; simpl.
  - exists []. split; [now rewrite app_nil_r | reflexivity].
  - destruct (pollingListeners g !! k) as [l|]; [|apply IH].
    destruct (IH (S k) (listener l pods (emit [Dispatch (ref l)] g)))
      as (evs2 & -> & H2).
    destruct (listener_trace l pods (emit [Dispatch (ref l)] g))
      as (evs1 & -> & H1).
    simpl. rewrite <- !app_assoc. eexists. split; [reflexivity|].
    rewrite !occurrences_app, H1, H2. reflexivity.
Qed.

Lemma startClock_trace (now : Z) (g : Globals) :
  trace (startClock now g) = trace g.
Proof. unfold startClock. now destruct (unset _). Qed.

(** A tick runs the two queries of a snapshot and nothing else. *)
Lemma pollPods_trace (w : world) (now : Z) (g : Globals) :
  exists evs,
    trace (stateOf (pollPods kubeConfig namespace w now g)) = trace g ++ evs /\
    runsOnly snapshotQuery extra evs.
Proof.
  unfold pollPods.
  pose proof (startClock_trace now g) as Hclock.
  pose proof (getPodsWithBuildNumbers_runs kubeConfig namespace w
                (pollingTargets (startClock now g))) as Hruns.
  destruct (exceeds _ _).
  { simpl. rewrite Hclock, <- app_assoc. eexists. split; [reflexivity|].
    apply runsOnly_silent. reflexivity. }
  destruct (getPodsWithBuildNumbers _ _ w _) as [evs [pods| |]];
    simpl in Hruns.
  - destruct (forEachListener_trace pods
                (length (pollingListeners (emit evs (startClock now g)))) 0
                (emit evs (startClock now g))) as (evs' & Hd & Hsilent).
    fold (dispatch pods (emit evs (startClock now g))) in Hd.
    simpl in Hd. rewrite Hclock in Hd.
    destruct (_ =? 0)%nat.
    + rewrite finishUpdate_status. simpl. rewrite Hd, <- !app_assoc.
      eexists. split; [reflexivity|].
      apply runsOnly_app; [exact Hruns|].
      apply runsOnly_silent. rewrite occurrences_app, Hsilent.
      destruct (pollingHasErrors _); reflexivity.
    + simpl. rewrite Hd, <- !app_assoc. eexists. split; [reflexivity|].
      apply runsOnly_app; [exact Hruns|].
      apply runsOnly_silent. rewrite occurrences_app, Hsilent. reflexivity.
  - simpl. rewrite Hclock. eauto.
  - simpl. rewrite Hclock. eauto.
Qed.

Lemma pollLoop_trace :
  forall ticks g,
    exists evs,
      trace (stateOf (pollLoop kubeConfig namespace ticks g)) = trace g ++ evs
      /\ runsOnly snapshotQuery extra evs.
Proof.
  induction ticks as [|[w now] ticks IH]; intros g; simpl.
  - exists []. split; [now rewrite app_nil_r | constructor].
  - pose proof (pollPods_trace w now g) as Htick.
    destruct (pollPods kubeConfig namespace w now g) as [g1|c g1|e g1|g1];
      try exact Htick.
    destruct Htick as (evs1 & H1 & Hr1). simpl in H1.
    destruct (IH g1) as (evs2 & -> & Hr2). rewrite H1, <- app_assoc.
    eexists. split; [reflexivity|]. now apply runsOnly_app.
Qed.

End ReadOnly.

(** The poll loop only reads.  Over any stretch of ticks the process runs
    the two queries of a snapshot, "kubectl get pods" and the batched
    "kubectl get pod ... -o yaml", each with the options appended, and no
    other command. *)
Theorem poll_loop_runs_queries_only (kubeConfig namespace : option string)
    (ticks : list (world * Z)) (g : Globals) :
  exists evs,
    trace (stateOf (pollLoop kubeConfig namespace ticks g)) = trace g ++ evs /\
    runsOnly snapshotQuery (getExtraParams kubeConfig namespace) evs /\
    forall command, Exec command ∈ evs ->
      command = "kubectl get pods" +:+ getExtraParams kubeConfig namespace \/
      exists ids,
        command = "kubectl get pod " +:+ join " " ids +:+ " -o yaml" +:+
                  getExtraParams kubeConfig namespace.
Proof.
  destruct (pollLoop_trace kubeConfig namespace ticks g) as (evs & Ht & Hr).
  exists evs. split; [exact Ht|]. split; [exact Hr|].
  intros command Hin. unfold runsOnly in Hr. rewrite Forall_forall in Hr.
  destruct (Hr _ Hin command eq_refl) as (c & [->|(ids & ->)] & ->).
  - now left.
  - right. exists ids. unfold batchedQuery. now rewrite !append_assoc.
Qed.

(** Asking for the build of a deployment changes nothing.  For an argument
    without a build number, the chain set off for it runs the query for the
    deployment, "kubectl get deployment <name> -o yaml" with the options
    appended, and no other command; it leaves the targets, the listeners, the
    error flag and the loop as they were; and it ends the process only when
    the query runs out of retries. *)
Theorem asking_changes_nothing (kubeConfig namespace : option string)
    (w : world) (now : Z) (serviceName : string)
    (foundDeployment : Deployment.t) (pods : list Pod.t) (g : Globals) :
  let result :=
    runEntry kubeConfig namespace w now
      (Asked serviceName [serviceName] foundDeployment pods) g in
  let query := "kubectl get deployment " +:+ serviceName +:+ " -o yaml" in
  (exists evs,
     trace (stateOf result) = trace g ++ evs /\
     runsOnly (fun c => c = query) (getExtraParams kubeConfig namespace) evs) /\
  pollingTargets (stateOf result) = pollingTargets g /\
  pollingListeners (stateOf result) = pollingListeners g /\
  pollingHasErrors (stateOf result) = pollingHasErrors g /\
  pollingStarted (stateOf result) = pollingStarted g /\
  (result = Returned (stateOf result) \/
   result = Exited 1 (stateOf result) /\
   (execRetry kubeConfig namespace w "get deployment" query false 0).2
   = Fatal).
Proof.
  cbv zeta. unfold runEntry, getDeploymentBuildNumber.
  pose proof (execRetry_runsOnly kubeConfig namespace w "get deployment"
                ("kubectl get deployment " +:+ serviceName +:+ " -o yaml")
                false) as Hruns.
  destruct (execRetry_ending kubeConfig namespace w "get deployment"
              ("kubectl get deployment " +:+ serviceName +:+ " -o yaml")
              false maxExecRetries 0) as (_ & Hend & _); [lia|].
  destruct (execRetry _ _ w "get deployment" _ false 0) as [evs [out| |]];
    cbn [fst snd] in *.
  - simpl. split; [|repeat split; auto].
    rewrite <- app_assoc. eexists. split; [reflexivity|].
    apply runsOnly_app; [exact Hruns|].
    apply runsOnly_silent. simpl. f_equal.
    induction pods as [|pod pods' IH]; [reflexivity | exact IH].
  - destruct Hend as [_ Hend]. discriminate.
  - simpl. split; [eauto|]. repeat split; auto.
Qed.

(** ** The command line *)

Section CommandLine.

Lemma prefix_spec (w s : string) :
  String.prefix w s = true <-> exists post, s = w +:+ post.
Proof.
  revert s. induction w as [|a w IH]; intros s.
  - split; [intros _; exists s; reflexivity|]. intros _. now destruct s.
  - destruct s as [|b s]; simpl.
    + split; [discriminate | intros [post H]; discriminate].
    + destruct (ascii_dec a b) as [->|Hne].
      * rewrite IH. split; intros [post H]; exists post.
        -- now rewrite H.
        -- now injection H.
      * split; [discriminate|]. intros [post H]. injection H as -> _.
        contradiction.
Qed.

Lemma includes_nil (w : string) :
  includes w "" = String.prefix w "".
Proof. simpl. apply orb_false_r. Qed.

Lemma includes_cons (w : string) (b : ascii) (s : string) :
  includes w (String b s) = String.prefix w (String b s) || includes w s.
Proof. reflexivity. Qed.

Lemma includes_spec (w s : string) :
  includes w s = true <-> exists pre post, s = pre +:+ w +:+ post.
Proof.
  induction s as [|b s IH].
  - rewrite includes_nil, prefix_spec. split.
    + intros [post H]. exists "", post. exact H.
    + intros (pre & post & H). destruct pre; [eauto | discriminate].
  - rewrite includes_cons, orb_true_iff, IH, prefix_spec. split.
    + intros [[post H]|(pre & post & ->)].
      * exists "", post. exact H.
      * exists (String b pre), post. reflexivity.
    + intros (pre & post & H). destruct pre as [|c pre].
      * left. eauto.
      * right. injection H as -> ->. eauto.
Qed.

(** A lazy star in front of the end of the pattern reads nothing. *)
Lemma lazy_star_last (r : re) (x : State) :
  matcher (Star false r) x Some = Some x.
Proof. simpl. now destruct (String.length (rest x)). Qed.

Lemma prefix_cons (a b : ascii) (w s : string) :
  String.prefix (String a w) (String b s) =
  if ascii_dec a b then String.prefix w s else false.
Proof. reflexivity. Qed.

Lemma readLit_prefix (w : string) :
  forall x, is_Some (readLit w x) <-> String.prefix w (rest x) = true.
Proof.
  induction w as [|a w IH]; intros x.
  - simpl. split; [now destruct (rest x) | eauto].
  - cbn [readLit]. destruct (rest x) as [|b s] eqn:E.
    + split; [intros [? ?]; discriminate | discriminate].
    + rewrite prefix_cons.
      destruct (Ascii.eqb_spec b a) as [->|Hne].
      * destruct (ascii_dec a a); [|contradiction].
        apply (IH (advance a s x)).
      * destruct (ascii_dec a b) as [->|]; [contradiction|].
        split; [intros [? ?]; discriminate | discriminate].
Qed.

(** The patterns of the options match the arguments that include the word
    of the option, wherever it stands. *)
Lemma matches_includes (w : string) (r : re) (s : string) :
  matches (Lit w >> Star false r) s = includes w s.
Proof.
  unfold matches, exec. generalize (@None ascii) as before.
  induction s as [|b s IH]; intros before.
  - rewrite search_nil, matcher_Lit, includes_nil.
    pose proof (readLit_prefix w (mkState before "" [])) as H.
    simpl rest in H. destruct (readLit w _) as [y|].
    + rewrite lazy_star_last. symmetry. apply H. eauto.
    + destruct (String.prefix w ""); [|reflexivity].
      destruct (proj2 H eq_refl) as [? ?]. discriminate.
  - rewrite search_cons, matcher_Lit.
    pose proof (readLit_prefix w (mkState before (String b s) [])) as H.
    simpl rest in H. rewrite includes_cons.
    destruct (readLit w _) as [y|].
    + rewrite lazy_star_last.
      replace (String.prefix w (String b s)) with true
        by (symmetry; apply H; eauto).
      reflexivity.
    + destruct (String.prefix w (String b s)).
      * destruct (proj2 H eq_refl) as [? ?]. discriminate.
      * apply IH.
Qed.

(** One argument, in words of [includes]. *)
Lemma parseArg_cases (o : Args.t) (arg : string) :
  parseArg o arg =
  if namesKubeconfig arg then
    Args.mk (valueOf arg) (Args.namespace o) (Args.pollTimeout o)
      (Args.deploymentsToUpdate o)
  else if namesNamespace arg then
    Args.mk (Args.kubeConfig o) (valueOf arg) (Args.pollTimeout o)
      (Args.deploymentsToUpdate o)
  else if namesTimeout arg then
    Args.mk (Args.kubeConfig o) (Args.namespace o) (Assigned (valueOf arg))
      (Args.deploymentsToUpdate o)
  else
    Args.mk (Args.kubeConfig o) (Args.namespace o) (Args.pollTimeout o)
      (Args.deploymentsToUpdate o ++ [split "=" arg]).
Proof.
  unfold parseArg, kubeconfigRe, namespaceRe, timeoutRe, NonSpace.
  rewrite !matches_includes.
  unfold namesKubeconfig, namesNamespace, namesTimeout.
  destruct (includes "--kubeconfig=" arg); [reflexivity|].
  destruct (includes "--namespace=" arg); reflexivity.
Qed.

Lemma isOption_cases (arg : string) :
  isOption arg = namesKubeconfig arg || namesNamespace arg || namesTimeout arg.
Proof.
  unfold isOption, namesKubeconfig, namesNamespace, namesTimeout.
  destruct (includes "--kubeconfig=" arg), (includes "--namespace=" arg),
    (includes "--timeout=" arg); reflexivity.
Qed.

Lemma last_filter_snoc {A : Type} (p : A -> bool) (l : list A) (a : A) :
  last (filter (fun x => p x = true) (l ++ [a])) =
  if p a then Some a else last (filter (fun x => p x = true) l).
Proof.
  rewrite filter_app, filter_cons, filter_nil.
  destruct (decide (p a = true)) as [->|Hn].
  - apply last_snoc.
  - rewrite app_nil_r. now destruct (p a).
Qed.

Lemma split_nonempty (sep : ascii) (s : string) : split sep s <> [].
Proof.
  destruct s as [|c s]; simpl; [discriminate|].
  destruct (c =? sep)%char; [discriminate|].
  destruct (split sep s); discriminate.
Qed.

(** A text without the separator is one piece. *)
Lemma split_whole (sep : ascii) (s : string) :
  includes (String sep "") s = false -> split sep s = [s].
Proof.
  induction s as [|c s IH]; [reflexivity|].
  simpl. destruct (ascii_dec sep c) as [->|Hne].
  - now destruct s.
  - intros H. assert (Hs : includes (String sep "") s = false).
    { destruct s; exact H. }
    rewrite (IH Hs).
    destruct (Ascii.eqb_spec c sep) as [->|]; [contradiction | reflexivity].
Qed.

(** The first piece ends at the first separator. *)
Lemma split_first (sep : ascii) (s1 s2 : string) :
  includes (String sep "") s1 = false ->
  split sep (s1 +:+ String sep s2) = s1 :: split sep s2.
Proof.
  induction s1 as [|c s1 IH]; simpl.
  - intros _. now rewrite Ascii.eqb_refl.
  - destruct (ascii_dec sep c) as [->|Hne].
    + now destruct s1.
    + intros H. assert (Hs : includes (String sep "") s1 = false).
      { destruct s1; exact H. }
      rewrite (IH Hs).
      destruct (Ascii.eqb_spec c sep) as [->|]; [contradiction | reflexivity].
Qed.

End CommandLine.

(** The loop over the arguments.  An argument is an option when the word of
    the option, "--kubeconfig=", "--namespace=" or "--timeout=", stands
    anywhere in it, the first of the three that does deciding which; every
    other argument, whatever it looks like, is a deployment.  The options
    may stand anywhere on the command line and the last of a kind wins; the
    deployments keep their order, each cut into pieces at its "=" signs, so
    that no entry of [deploymentsToUpdate] is empty; and the value of an
    option is the piece after the first "=" of its argument. *)
Theorem parseArgs_spec (args : list string) :
  let o := parseArgs args in
  Args.deploymentsToUpdate o =
    split "=" <$> filter (fun arg => isOption arg = false) args /\
  Forall (fun deployment => deployment <> []) (Args.deploymentsToUpdate o) /\
  Args.kubeConfig o =
    last (filter (fun arg => namesKubeconfig arg = true) args) ≫= valueOf /\
  Args.namespace o =
    last (filter (fun arg => namesNamespace arg = true) args) ≫= valueOf /\
  Args.pollTimeout o =
    match last (filter (fun arg => namesTimeout arg = true) args) with
    | Some arg => Assigned (valueOf arg)
    | None => Declared
    end.
Proof.
  cbv zeta. unfold parseArgs.
  induction args as [|arg args IH] using rev_ind.
  - simpl. repeat split. constructor.
  - destruct IH as (Hd & Hne & Hk & Hn & Ht).
    rewrite fold_left_app. simpl fold_left. rewrite parseArg_cases.
    rewrite filter_app, filter_cons, filter_nil, !last_filter_snoc.
    rewrite isOption_cases.
    destruct (namesKubeconfig arg) eqn:Ek.
    { simpl. rewrite app_nil_r.
      assert (E1 : namesNamespace arg = false)
        by (unfold namesNamespace, namesKubeconfig in *; now rewrite Ek).
      assert (E2 : namesTimeout arg = false)
        by (unfold namesTimeout, namesKubeconfig in *; now rewrite Ek).
      rewrite E1, E2. auto. }
    destruct (namesNamespace arg) eqn:En.
    { simpl. rewrite app_nil_r.
      assert (E2 : namesTimeout arg = false).
      { unfold namesTimeout, namesNamespace, namesKubeconfig in *.
        rewrite Ek in *. simpl in En. now rewrite En. }
      rewrite E2. auto. }
    destruct (namesTimeout arg) eqn:Et.
    { simpl. rewrite app_nil_r. auto. }
    simpl. rewrite fmap_app, Hd. simpl.
    repeat split; try assumption.
    apply Forall_app. split; [now rewrite <- Hd|].
    constructor; [apply split_nonempty | constructor].
Qed.

Section UsageForms.

Lemma includes_trans (u w s : string) :
  includes u w = true -> includes w s = true -> includes u s = true.
Proof.
  rewrite !includes_spec.
  intros (p1 & q1 & ->) (p2 & q2 & ->).
  exists (p2 +:+ p1), (q1 +:+ q2). now rewrite !append_assoc.
Qed.

(** A text without "=" holds none of the words of the options. *)
Lemma no_equals_no_option (w s : string) :
  includes "=" w = true -> includes "=" s = false -> includes w s = false.
Proof.
  intros Hw Hs. destruct (includes w s) eqn:E; [|reflexivity].
  rewrite (includes_trans "=" w s Hw E) in Hs. discriminate.
Qed.

Lemma prefix_empty (s : string) : String.prefix "" s = true.
Proof. now destruct s. Qed.

Lemma plain_name_is_no_option (name : string) :
  includes "=" name = false -> isOption name = false.
Proof.
  intros H. unfold isOption.
  rewrite !no_equals_no_option by (reflexivity || exact H). reflexivity.
Qed.

(** The argument "--timeout=text". *)
Lemma parseArg_timeout (o : Args.t) (text : string) :
  includes "=" text = false ->
  parseArg o ("--timeout=" +:+ text) =
  Args.mk (Args.kubeConfig o) (Args.namespace o) (Assigned (Some text))
    (Args.deploymentsToUpdate o).
Proof.
  intros Htext. rewrite parseArg_cases.
  unfold namesKubeconfig, namesNamespace, namesTimeout, valueOf. simpl.
  rewrite !no_equals_no_option by (reflexivity || exact Htext).
  rewrite prefix_empty. simpl.
  now rewrite (split_whole "=" text Htext).
Qed.

End UsageForms.

(** The forms of the usage line.  With [name], [build] and [text] free of
    "=": the argument "name=build" adds the deployment [name; build] (unless
    the word of an option stands in it), and the argument "name" adds the
    deployment [name], which asks for the build without setting one;
    "--timeout=text" puts [text], as it is written, into [pollTimeout], and
    "--namespace=text" and "--kubeconfig=text" put it into their variables;
    a value is cut at the next "=", so "--kubeconfig=text=more" gives [text]
    as well.  In each case the other variables stay as they were. *)
Theorem usage_forms_parse (o : Args.t) (name build text more : string) :
  includes "=" name = false ->
  includes "=" build = false ->
  includes "=" text = false ->
  (isOption (name +:+ "=" +:+ build) = false ->
   parseArg o (name +:+ "=" +:+ build) =
   Args.mk (Args.kubeConfig o) (Args.namespace o) (Args.pollTimeout o)
     (Args.deploymentsToUpdate o ++ [[name; build]])) /\
  parseArg o name =
    Args.mk (Args.kubeConfig o) (Args.namespace o) (Args.pollTimeout o)
      (Args.deploymentsToUpdate o ++ [[name]]) /\
  parseArg o ("--timeout=" +:+ text) =
    Args.mk (Args.kubeConfig o) (Args.namespace o) (Assigned (Some text))
      (Args.deploymentsToUpdate o) /\
  parseArg o ("--namespace=" +:+ text) =
    Args.mk (Args.kubeConfig o) (Some text) (Args.pollTimeout o)
      (Args.deploymentsToUpdate o) /\
  parseArg o ("--kubeconfig=" +:+ text) =
    Args.mk (Some text) (Args.namespace o) (Args.pollTimeout o)
      (Args.deploymentsToUpdate o) /\
  parseArg o ("--kubeconfig=" +:+ text +:+ "=" +:+ more) =
    Args.mk (Some text) (Args.namespace o) (Args.pollTimeout o)
      (Args.deploymentsToUpdate o).
Proof.
  intros Hname Hbuild Htext.
  assert (Hno : forall w, includes "=" w = true -> includes w text = false).
  { intros w Hw. now apply no_equals_no_option. }
  split; [|split; [|split; [|split; [|split]]]].
  - intros Hopt. rewrite parseArg_cases.
    rewrite isOption_cases in Hopt.
    destruct (namesKubeconfig _); [discriminate|].
    destruct (namesNamespace _); [discriminate|].
    destruct (namesTimeout _); [discriminate|].
    change ("=" +:+ build) with (String "=" build).
    rewrite (split_first "=" name build Hname), (split_whole "=" build Hbuild).
    reflexivity.
  - rewrite parseArg_cases.
    pose proof (plain_name_is_no_option name Hname) as Hopt.
    rewrite isOption_cases in Hopt.
    destruct (namesKubeconfig _); [discriminate|].
    destruct (namesNamespace _); [discriminate|].
    destruct (namesTimeout _); [discriminate|].
    now rewrite (split_whole "=" name Hname).
  - apply parseArg_timeout, Htext.
  - rewrite parseArg_cases.
    unfold namesKubeconfig, namesNamespace, namesTimeout, valueOf. simpl.
    rewrite ?Hno by reflexivity. rewrite prefix_empty. simpl.
    now rewrite (split_whole "=" text Htext).
  - rewrite parseArg_cases.
    unfold namesKubeconfig, namesNamespace, namesTimeout, valueOf. simpl.
    rewrite prefix_empty. simpl.
    now rewrite (split_whole "=" text Htext).
  - rewrite parseArg_cases.
    unfold namesKubeconfig, namesNamespace, namesTimeout, valueOf. simpl.
    rewrite prefix_empty. simpl.
    change ("=" +:+ more) with (String "=" more).
    rewrite (split_first "=" text more Htext).
    now destruct (split "=" more).
Qed.

(** The theorem at the arguments "myapp=42", "myapp", "--timeout=900" and
    "--kubeconfig=/etc/kube=old". *)
Lemma usage_forms_parse_witness :
  isOption "myapp=42" = false /\
  parseArg noArgs "myapp=42" = Args.mk None None Declared [["myapp"; "42"]] /\
  parseArg noArgs "myapp" = Args.mk None None Declared [["myapp"]] /\
  parseArg noArgs "--timeout=900" =
    Args.mk None None (Assigned (Some "900")) [] /\
  parseArg noArgs "--kubeconfig=/etc/kube=old" =
    Args.mk (Some "/etc/kube") None Declared [].
Proof.
  destruct (usage_forms_parse noArgs "myapp" "42" "900" "" eq_refl eq_refl
              eq_refl) as (H1 & H2 & H3 & _).
  destruct (usage_forms_parse noArgs "myapp" "42" "/etc/kube" "old" eq_refl
              eq_refl eq_refl) as (_ & _ & _ & _ & _ & H6).
  split; [reflexivity|]. split; [exact (H1 eq_refl)|].
  split; [exact H2|]. split; [exact H3 | exact H6].
Defined.

(** ** A timeout that is not a number *)

Section NoDeadline.

Variables kubeConfig namespace : option string.

Lemma execRetry_no_timeout_line (w : world) (name command : string)
    (onError : bool) :
  forall k tryNumber,
    maxExecRetries - tryNumber <= k ->
    occurrences isTimeoutLine
      (execRetry kubeConfig namespace w name command onError tryNumber).1 = 0.
Proof.
  induction k as [|k IH]; intros t Ht; rewrite execRetry_step; cbv zeta;
    destruct (failed _); try reflexivity.
  - destruct (Nat.ltb_spec maxExecRetries (S t)); [|lia].
    now destruct onError.
  - destruct (Nat.ltb_spec maxExecRetries (S t)); [now destruct onError|].
    unfold after. cbn [fst]. rewrite occurrences_app, IH by lia. reflexivity.
Qed.

Lemma snapshot_no_timeout_line (w : world) (deployments : list string) :
  occurrences isTimeoutLine
    (getPodsWithBuildNumbers kubeConfig namespace w deployments).1 = 0.
Proof.
  unfold getPodsWithBuildNumbers.
  pose proof (execRetry_no_timeout_line w "get pods" "kubectl get pods" false
                maxExecRetries 0) as H1.
  destruct (execRetry _ _ w "get pods" _ _ _) as [evs1 [out1| |]];
    cbn [fst] in *; try (apply H1; lia).
  destruct (parsePods out1) as [parsed|]; [|apply H1; lia].
  pose proof (execRetry_no_timeout_line w "get pod"
    ("kubectl get pod " +:+
     join " " (Pod.id <$>
       filter (fun pod => Pod.name pod ∈ deployments) parsed) +:+ " -o yaml")
    false maxExecRetries 0) as H2.
  destruct (execRetry _ _ w "get pod" _ _ _) as [evs2 [out2| |]];
    cbn [fst] in *;
    try destruct (withBuildNumbers _ out2); cbn [fst];
    rewrite occurrences_app, H1, H2 by lia; reflexivity.
Qed.

Lemma fold_countPod_no_timeout_line (buildNumber : string) :
  forall pods acc,
    occurrences isTimeoutLine acc.2 = 0 ->
    occurrences isTimeoutLine (fold_left (countPod buildNumber) pods acc).2
    = 0.
Proof.
  induction pods as [|pod pods IH]; intros acc H; simpl; [exact H|].
  apply IH. unfold countPod.
  destruct (bool_decide _); [|exact H].
  destruct (unexpectedState _); [|destruct (_ && _); exact H].
  simpl. rewrite occurrences_app, H. reflexivity.
Qed.

(** A call of the listener: no line of the deadline, and the timeout as it
    was. *)
Lemma listener_no_deadline (me : Listener) (pods : list Pod.t) (g : Globals) :
  occurrences isTimeoutLine (trace (listener me pods g)) =
    occurrences isTimeoutLine (trace g) /\
  pollTimeout (listener me pods g) = pollTimeout g.
Proof.
  unfold listener, countPods.
  pose proof (fold_countPod_no_timeout_line (buildNumber me)
    (filter (fun pod => Pod.name pod = Deployment.name (deployment me)) pods)
    (mkCounters 0 0, []) eq_refl) as Hlogs.
  destruct (_ =? _)%nat; [destruct (0 <? _)%nat|]; simpl;
    rewrite ?occurrences_app, Hlogs; simpl; split; (lia || reflexivity).
Qed.

Lemma forEachListener_no_deadline (pods : list Pod.t) :
  forall count k g,
    occurrences isTimeoutLine (trace (forEachListener count k pods g)) =
      occurrences isTimeoutLine (trace g) /\
    pollTimeout (forEachListener count k pods g) = pollTimeout g.
Proof.
  induction count as [|count IH]; intros k g; simpl; [auto|].
  destruct (pollingListeners g !! k) as [l|]; [|apply IH].
  destruct (IH (S k) (listener l pods (emit [Dispatch (ref l)] g)))
    as [-> ->].
  destruct (listener_no_deadline l pods (emit [Dispatch (ref l)] g))
    as [-> ->].
  simpl. rewrite occurrences_app. simpl. split; [lia | reflexivity].
Qed.

Lemma pollPods_no_deadline (w : world) (now : Z) (g : Globals) :
  pollTimeout g = NaN ->
  occurrences isTimeoutLine
    (trace (stateOf (pollPods kubeConfig namespace w now g))) =
    occurrences isTimeoutLine (trace g) /\
  pollTimeout (stateOf (pollPods kubeConfig namespace w now g)) = NaN.
Proof.
  intros Hnan. unfold pollPods.
  assert (Hclock : pollTimeout (startClock now g) = NaN /\
                   trace (startClock now g) = trace g).
  { unfold startClock. destruct (unset _); simpl; auto. }
  destruct Hclock as [Ht Htr]. rewrite Ht. simpl exceeds. cbv iota.
  pose proof (snapshot_no_timeout_line w (pollingTargets (startClock now g)))
    as Hsnap.
  destruct (getPodsWithBuildNumbers _ _ w _) as [evs [pods| |]];
    cbn [fst] in Hsnap.
  - destruct (forEachListener_no_deadline pods
                (length (pollingListeners (emit evs (startClock now g)))) 0
                (emit evs (startClock now g))) as [Hd Hdt].
    fold (dispatch pods (emit evs (startClock now g))) in Hd, Hdt.
    simpl in Hd, Hdt. rewrite occurrences_app, Htr, Hsnap in Hd.
    rewrite Ht in Hdt.
    destruct (_ =? 0)%nat.
    + rewrite finishUpdate_status. simpl.
      rewrite occurrences_app, Hd. simpl. split; [lia | exact Hdt].
    + simpl. rewrite occurrences_app, Hd. simpl. split; [lia | exact Hdt].
  - simpl. rewrite occurrences_app, Htr, Hsnap. split; [lia | exact Ht].
  - simpl. rewrite occurrences_app, Htr, Hsnap. split; [lia | exact Ht].
Qed.

Lemma pollLoop_no_deadline :
  forall ticks g,
    pollTimeout g = NaN ->
    occurrences isTimeoutLine
      (trace (stateOf (pollLoop kubeConfig namespace ticks g))) =
      occurrences isTimeoutLine (trace g) /\
    pollTimeout (stateOf (pollLoop kubeConfig namespace ticks g)) = NaN.
Proof.
  induction ticks as [|[w now] ticks IH]; intros g Hnan; simpl; [auto|].
  pose proof (pollPods_no_deadline w now g Hnan) as Htick.
  destruct (pollPods kubeConfig namespace w now g) as [g1|c g1|e g1|g1];
    try exact Htick.
  simpl in Htick. destruct Htick as [H1 H2].
  destruct (IH g1 H2) as [-> ->]. auto.
Qed.

End NoDeadline.

(** A timeout that is not a number.  The text after "--timeout=" goes into
    [pollTimeout] as it is written.  When it holds a character that no
    number has, such as the m of "10m", it is [NaN] where [pollPods]
    compares it, and every comparison with [NaN] is false: over any stretch
    of ticks the line of the deadline is never written, so the deadline never
    ends the loop. *)
Theorem timeout_that_is_no_number_never_fires
    (kubeConfig namespace : option string) (text : string) (o : Args.t)
    (ticks : list (world * Z)) :
  includes "=" text = false ->
  allChars numericChar text = false ->
  exists g,
    loaded (parseArg o ("--timeout=" +:+ text)) = Some g /\
    pollTimeout g = NaN /\
    occurrences isTimeoutLine
      (trace (stateOf (pollLoop kubeConfig namespace ticks g))) = 0 /\
    forall g', pollTimeout g' = NaN ->
      occurrences isTimeoutLine
        (trace (stateOf (pollLoop kubeConfig namespace ticks g'))) =
      occurrences isTimeoutLine (trace g').
Proof.
  intros Heq Hnot.
  assert (Hnan : toNumber text = Some NaN).
  { unfold toNumber. rewrite Hnot.
    destruct (String.eqb_spec text "") as [->|_]; [discriminate|].
    destruct (allChars isDigit text) eqn:Ed; [|reflexivity].
    exfalso. clear Heq. induction text as [|c text IH]; [discriminate|].
    simpl in *. apply andb_true_iff in Ed as [Hc Hd].
    unfold numericChar in Hnot at 1. rewrite Hc in Hnot. simpl in Hnot.
    destruct (allChars numericChar text); [discriminate | now apply IH]. }
  rewrite (parseArg_timeout o text Heq). unfold loaded. simpl. rewrite Hnan.
  simpl. eexists. split; [reflexivity|]. split; [reflexivity|].
  split.
  - apply (pollLoop_no_deadline kubeConfig namespace ticks
             (mkGlobals false [] [] false NaN None 0 []) eq_refl).
  - intros g' Hg'. apply pollLoop_no_deadline, Hg'.
Qed.

(** The theorem at "--timeout=10m", and at a tick of the loop of the two
    targets a thousand seconds after its start. *)
Lemma timeout_that_is_no_number_never_fires_witness :
  includes "=" "10m" = false /\
  allChars numericChar "10m" = false /\
  (exists g,
     loaded (parseArgs ["--timeout=10m"]) = Some g /\ pollTimeout g = NaN) /\
  occurrences isTimeoutLine
    (trace (stateOf (pollLoop None None [(clusterStarting, 1100%Z)]
                       (mkGlobals true ["a"; "b"] [listenerA; listenerB]
                          false NaN (Some 100%Z) 2 [])))) = 0.
Proof.
  split; [reflexivity|]. split; [reflexivity|].
  destruct (timeout_that_is_no_number_never_fires None None "10m" noArgs
              [(clusterStarting, 1100%Z)] eq_refl eq_refl)
    as (g & Hg & Hnan & _ & Hall).
  split; [exists g; split; [exact Hg | exact Hnan]|].
  apply (Hall (mkGlobals true ["a"; "b"] [listenerA; listenerB] false NaN
                 (Some 100%Z) 2 [])).
  reflexivity.
Defined.

(** ** The state shown for a pod *)

(** The state [getNiceState] shows is the state of the pod, with one
    exception: a pod that is Terminating is shown as ContainerCreating.  In
    front of it stands "Ready" or "Not ready". *)
Theorem getNiceState_text (pod : Pod.t) :
  plain (getNiceState pod) =
  (if Pod.ready pod then "Ready" else "Not ready") +:+ ", " +:+
  (if String.eqb (Pod.state pod) "Terminating" then "ContainerCreating"
   else Pod.state pod).
Proof.
  unfold getNiceState.
  destruct (String.eqb_spec (Pod.state pod) "CrashLoopBackOff") as [E|_].
  { rewrite E. now destruct (Pod.ready pod). }
  destruct (String.eqb_spec (Pod.state pod) "Error") as [E|_].
  { rewrite E. now destruct (Pod.ready pod). }
  destruct (String.eqb_spec (Pod.state pod) "Running") as [E|_].
  { rewrite E. now destruct (Pod.ready pod). }
  destruct (String.eqb_spec (Pod.state pod) "ContainerCreating") as [E|_].
  { rewrite E. now destruct (Pod.ready pod). }
  destruct (String.eqb_spec (Pod.state pod) "Terminating") as [E|_].
  { now destruct (Pod.ready pod). }
  simpl. destruct (Pod.ready pod); simpl; now rewrite append_nil_r.
Qed.

(** ** Greedy runs of a class *)

Section Runs.

Lemma run_afterRun (p : ascii -> bool) (s : string) :
  s = run p s +:+ afterRun p s.
Proof.
  induction s as [|a s IH]; simpl; [reflexivity|].
  destruct (p a); simpl; [now f_equal | reflexivity].
Qed.

Lemma allChars_run (p : ascii -> bool) (s : string) :
  allChars p (run p s) = true.
Proof.
  induction s as [|a s IH]; simpl; [reflexivity|].
  destruct (p a) eqn:E; simpl; [now rewrite E | reflexivity].
Qed.

Lemma stops_afterRun (p : ascii -> bool) (s : string) :
  stops p (afterRun p s) = true.
Proof.
  induction s as [|a s IH]; simpl; [reflexivity|].
  destruct (p a) eqn:E; simpl; [exact IH | now rewrite E].
Qed.

(** The run of a text that begins with a word of the class and goes on with
    something else. *)
Lemma run_app (p : ascii -> bool) (w s : string) :
  allChars p w = true -> stops p s = true ->
  run p (w +:+ s) = w /\ afterRun p (w +:+ s) = s.
Proof.
  intros Hw Hs. induction w as [|a w IH]; simpl in *.
  - destruct s as [|b s]; [split; reflexivity|]. simpl in Hs.
    destruct (p b) eqn:E; [discriminate Hs|].
    simpl. rewrite E. split; reflexivity.
  - apply andb_true_iff in Hw as [Ha Hw]. rewrite Ha.
    destruct (IH Hw) as [-> ->]. auto.
Qed.

Lemma run_stops (p : ascii -> bool) (s : string) :
  stops p s = true -> run p s = "" /\ afterRun p s = s.
Proof. apply (run_app p "" s eq_refl). Qed.

Lemma moved_advance (w s s0 : string) (a : ascii) (x : State) :
  moved w s (advance a s0 x) = moved (String a w) s x.
Proof. reflexivity. Qed.

(** A greedy star of a class reads the whole run, and nothing less, when
    what comes after the star cannot go on from inside the run, or can go
    on from anywhere. *)
Lemma star_reads_run (p : ascii -> bool) (k : Continuation) :
  (forall y, stops p (rest y) = false -> k y = None) \/
  (forall y, is_Some (k y)) ->
  forall s x, rest x = s ->
    matcher (Star true (Class p)) x k =
    k (moved (run p s) (afterRun p s) x).
Proof.
  intros Hk. induction s as [|a s IH]; intros x Hx;
    rewrite star_class_unfold, Hx.
  - cbn [run afterRun]. now rewrite (moved_nil x _ Hx).
  - cbn [run afterRun]. cbv beta iota.
    destruct (p a) eqn:Ea; [|now rewrite (moved_nil x _ Hx)].
    rewrite (IH (advance a s x) eq_refl), moved_advance.
    destruct (k (moved (String a (run p s)) (afterRun p s) x)) as [z|] eqn:E;
      [reflexivity|].
    destruct Hk as [Hk|Hk].
    + apply Hk. rewrite Hx. simpl. now rewrite Ea.
    + destruct (Hk (moved (String a (run p s)) (afterRun p s) x)) as [z Hz].
      congruence.
Qed.

Lemma star_reads (p : ascii -> bool) (k : Continuation) (x : State) :
  (forall y, stops p (rest y) = false -> k y = None) \/
  (forall y, is_Some (k y)) ->
  matcher (Star true (Class p)) x k =
  k (moved (run p (rest x)) (afterRun p (rest x)) x).
Proof. intros Hk. now apply star_reads_run. Qed.

(** The same for [r+]. *)
Lemma plus_reads_run (p : ascii -> bool) (k : Continuation) :
  (forall y, stops p (rest y) = false -> k y = None) \/
  (forall y, is_Some (k y)) ->
  forall x,
    matcher (Plus true (Class p)) x k =
    if nonEmpty (run p (rest x))
    then k (moved (run p (rest x)) (afterRun p (rest x)) x)
    else None.
Proof.
  intros Hk x. unfold Plus. rewrite matcher_Seq, matcher_Class.
  destruct (rest x) as [|a s] eqn:Hx; [reflexivity|]. cbn [run afterRun].
  destruct (p a); [|reflexivity]. cbn [nonEmpty].
  now rewrite (star_reads_run p k Hk s (advance a s x) eq_refl), moved_advance.
Qed.

(** What comes after cannot go on from inside a run of [p] when it begins
    with a character of a class apart from [p]. *)
Lemma class_apart (p q : ascii -> bool) {A : Type}
    (f : ascii -> string -> option A) (r : string) :
  (forall a, p a = true -> q a = false) ->
  stops p r = false ->
  match r with
  | String a s => if q a then f a s else None
  | EmptyString => None
  end = None.
Proof.
  intros Hpq Hr. destruct r as [|a s]; [reflexivity|].
  simpl in Hr. apply negb_false_iff in Hr. now rewrite (Hpq a Hr).
Qed.

Lemma capture_moved (n : nat) (w s' : string) (x : State) :
  rest x = w +:+ s' ->
  capture n x (moved w s' x) =
  mkState (lastChar w (prev x)) s' ((n, w) :: captures x).
Proof.
  intros H. unfold capture. simpl. now rewrite (consumed_moved_rest w s' x H).
Qed.

End Runs.

(** ** The table of deployments *)

Section DeploymentTable.

Local Abbreviation notLT := (fun c : ascii => negb (isLineTerminator c)).
Local Abbreviation nonSpace := (fun c : ascii => negb (isSpace c)).

Lemma digit_not_space (a : ascii) : isDigit a = true -> isSpace a = false.
Proof.
  destruct a as [b0 b1 b2 b3 b4 b5 b6 b7];
    destruct b0, b1, b2, b3, b4, b5, b6, b7; vm_compute;
    intros H; (discriminate H || reflexivity).
Qed.

Lemma blank_space (a : ascii) : isBlank a = true -> isSpace a = true.
Proof.
  destruct a as [b0 b1 b2 b3 b4 b5 b6 b7];
    destruct b0, b1, b2, b3, b4, b5, b6, b7; vm_compute;
    intros H; (discriminate H || reflexivity).
Qed.

Lemma lineTerminator_space (a : ascii) :
  isLineTerminator a = true -> isSpace a = true.
Proof.
  destruct a as [b0 b1 b2 b3 b4 b5 b6 b7];
    destruct b0, b1, b2, b3, b4, b5, b6, b7; vm_compute;
    intros H; (discriminate H || reflexivity).
Qed.

Lemma blank_notLT (a : ascii) : isBlank a = true -> isLineTerminator a = false.
Proof.
  destruct a as [b0 b1 b2 b3 b4 b5 b6 b7];
    destruct b0, b1, b2, b3, b4, b5, b6, b7; vm_compute;
    intros H; (discriminate H || reflexivity).
Qed.

Lemma nonSpace_not_lineTerminator (a : ascii) :
  isSpace a = false -> isLineTerminator a = false.
Proof.
  intros H. destruct (isLineTerminator a) eqn:E; [|reflexivity].
  apply lineTerminator_space in E. congruence.
Qed.

Lemma allChars_impl (p q : ascii -> bool) (s : string) :
  (forall a, p a = true -> q a = true) ->
  allChars p s = true -> allChars q s = true.
Proof.
  intros Hpq. induction s as [|a s IH]; simpl; [reflexivity|].
  intros H. apply andb_true_iff in H as [Ha Hs].
  now rewrite (Hpq a Ha), (IH Hs).
Qed.

(** A text that begins with a word that is not empty stops the run of a
    class its first character is not in. *)
Lemma stops_word (p q : ascii -> bool) (w s : string) :
  (forall a, q a = true -> p a = false) ->
  nonEmpty w = true -> allChars q w = true -> stops p (w +:+ s) = true.
Proof.
  intros Hqp Hne Hw. destruct w as [|a w]; [discriminate|].
  simpl in *. apply andb_true_iff in Hw as [Ha _]. now rewrite (Hqp a Ha).
Qed.

Lemma lastChar_of_word (p : ascii -> bool) (w : string) :
  nonEmpty w = true -> allChars p w = true ->
  forall o, exists d, lastChar w o = Some d /\ p d = true.
Proof.
  induction w as [|a w IH]; [discriminate|]. intros _ Hw o.
  simpl in Hw. apply andb_true_iff in Hw as [Ha Hw]. simpl.
  destruct w as [|b w]; [exists a; auto|].
  apply (IH eq_refl Hw).
Qed.

(** The pattern, step by step. *)
Lemma deploymentsRe_steps (x : State) :
  captures x = [] ->
  matcher deploymentsRe x Some =
  if match prev x with
     | Some a => isLineTerminator a
     | None => true
     end
  then
    let name := run nonSpace (rest x) in
    let s1 := afterRun nonSpace (rest x) in
    let gap := run isSpace s1 in
    let s2 := afterRun isSpace s1 in
    let count := run isDigit s2 in
    let s3 := afterRun isDigit s2 in
    if nonEmpty name && nonEmpty gap && nonEmpty count
    then Some (mkState (lastChar count (lastChar gap (lastChar name (prev x))))
                 s3 [(2, count); (1, name)])
    else None
  else None.
Proof.
  intros Hcap. unfold deploymentsRe. rewrite matcher_Seq.
  change (matcher (LineStart true) x
            (fun y => matcher (Group 1 (Plus true NonSpace) >>
                               Plus true Space >>
                               Group 2 (Plus true Digit)) y Some))
    with (match prev x with
          | Some a =>
              if true && isLineTerminator a
              then matcher (Group 1 (Plus true NonSpace) >> Plus true Space >>
                            Group 2 (Plus true Digit)) x Some
              else None
          | None =>
              matcher (Group 1 (Plus true NonSpace) >> Plus true Space >>
                       Group 2 (Plus true Digit)) x Some
          end).
  assert (Hbody :
    matcher (Group 1 (Plus true NonSpace) >> Plus true Space >>
             Group 2 (Plus true Digit)) x Some =
    let name := run nonSpace (rest x) in
    let s1 := afterRun nonSpace (rest x) in
    let gap := run isSpace s1 in
    let s2 := afterRun isSpace s1 in
    let count := run isDigit s2 in
    let s3 := afterRun isDigit s2 in
    if nonEmpty name && nonEmpty gap && nonEmpty count
    then Some (mkState (lastChar count (lastChar gap (lastChar name (prev x))))
                 s3 [(2, count); (1, name)])
    else None).
  { cbv zeta.
    change (matcher (Group 1 (Plus true NonSpace) >> Plus true Space >>
                     Group 2 (Plus true Digit)) x Some)
      with (matcher (Plus true (Class nonSpace)) x
              (fun y => matcher (Plus true (Class isSpace)) (capture 1 x y)
                 (fun y2 => matcher (Plus true (Class isDigit)) y2
                    (fun y3 => Some (capture 2 y2 y3))))).
    rewrite plus_reads_run; cycle 1.
    { left. intros y Hy. unfold Plus. rewrite matcher_Seq, matcher_Class.
      apply (class_apart nonSpace isSpace); [|exact Hy].
      intros a Ha. now apply negb_true_iff in Ha. }
    destruct (nonEmpty (run nonSpace (rest x))); [|reflexivity].
    rewrite (capture_moved 1 _ _ x (run_afterRun nonSpace (rest x))), Hcap.
    rewrite plus_reads_run; cycle 1.
    { left. intros y Hy. unfold Plus at 1. rewrite matcher_Seq, matcher_Class.
      apply (class_apart isSpace isDigit); [|exact Hy].
      intros a Ha. destruct (isDigit a) eqn:Ed; [|reflexivity].
      apply digit_not_space in Ed. congruence. }
    cbn [rest prev captures].
    destruct (nonEmpty (run isSpace _)); [|reflexivity].
    rewrite plus_reads_run by (right; intros; eauto).
    cbn [rest prev captures moved].
    destruct (nonEmpty (run isDigit _)); [|reflexivity].
    cbn [andb]. f_equal.
    rewrite capture_moved by (cbn [rest]; apply run_afterRun).
    reflexivity. }
  rewrite Hbody. now destruct (prev x) as [a|]; [destruct (isLineTerminator a)|].
Qed.

(** A row at the start of a line is read as its name and its count. *)
Lemma deploymentsRe_row (before : option ascii)
    (name gap count tail more : string) :
  wellFormedDeploymentLine (DeploymentRow name gap count tail) = true ->
  match before with Some a => isLineTerminator a | None => true end = true ->
  exists z d,
    matcher deploymentsRe
      (mkState before
         (printDeploymentLine (DeploymentRow name gap count tail) +:+ more) [])
      Some = Some z /\
    rest z = tail +:+ String "010" more /\
    prev z = Some d /\ isLineTerminator d = false /\
    deploymentOfMatch z = Deployment.mk name (decimal count).
Proof.
  simpl wellFormedDeploymentLine. rewrite !andb_true_iff.
  intros (((((((Hn1 & Hn2) & Hg1) & Hg2) & Hc1) & Hc2) & Ht1) & Ht2) Hstart.
  rewrite deploymentsRe_steps by reflexivity. cbn [prev rest]. rewrite Hstart.
  cbv zeta. cbn [printDeploymentLine]. rewrite !append_assoc.
  assert (Hgs : allChars isSpace gap = true)
    by (eapply allChars_impl; [apply blank_space | exact Hg2]).
  destruct (run_app nonSpace name
              (gap +:+ count +:+ tail +:+ String "010" "" +:+ more) Hn2)
    as [-> ->].
  { apply (stops_word nonSpace isSpace); auto.
    intros a Ha. now rewrite Ha. }
  destruct (run_app isSpace gap
              (count +:+ tail +:+ String "010" "" +:+ more) Hgs) as [-> ->].
  { apply (stops_word isSpace isDigit); auto. apply digit_not_space. }
  destruct (run_app isDigit count (tail +:+ String "010" "" +:+ more) Hc2)
    as [-> ->].
  { destruct tail as [|t tail]; [reflexivity | exact Ht2]. }
  rewrite Hn1, Hg1, Hc1. cbn [andb].
  destruct (lastChar_of_word isDigit count Hc1 Hc2
              (lastChar gap (lastChar name before))) as (d & Hd & Hdig).
  eexists. exists d. split; [reflexivity|]. cbn [rest prev].
  split; [reflexivity|]. split; [exact Hd|]. split; [|reflexivity].
  apply nonSpace_not_lineTerminator, digit_not_space, Hdig.
Qed.

(** A line of another kind is not read as a row. *)
Lemma deploymentsRe_other (before : option ascii) (word gap : string)
    (c : ascii) (tail more : string) :
  wellFormedDeploymentLine (OtherLine word gap c tail) = true ->
  matcher deploymentsRe
    (mkState before
       (printDeploymentLine (OtherLine word gap c tail) +:+ more) []) Some
  = None.
Proof.
  simpl wellFormedDeploymentLine. rewrite !andb_true_iff.
  intros ((((((Hw1 & Hw2) & Hg1) & Hg2) & Hc1) & Hc2) & Ht).
  rewrite deploymentsRe_steps by reflexivity. cbn [prev rest].
  destruct (match before with Some a => isLineTerminator a | None => true end);
    [|reflexivity].
  cbv zeta. cbn [printDeploymentLine]. rewrite !append_assoc.
  assert (Hgs : allChars isSpace gap = true)
    by (eapply allChars_impl; [apply blank_space | exact Hg2]).
  destruct (run_app nonSpace word
              (gap +:+ String c tail +:+ String "010" "" +:+ more) Hw2)
    as [-> ->].
  { apply (stops_word nonSpace isSpace); auto.
    intros a Ha. now rewrite Ha. }
  destruct (run_app isSpace gap
              (String c tail +:+ String "010" "" +:+ more) Hgs) as [-> ->].
  { simpl. exact Hc1. }
  destruct (run_stops isDigit (String c tail +:+ String "010" "" +:+ more))
    as [-> _]; [simpl; exact Hc2|].
  now rewrite !andb_false_r.
Qed.

(** Inside a line the pattern matches nowhere: the search goes on at the
    start of the next line. *)
Lemma deploymentsRe_rest_of_line :
  forall t a more,
    isLineTerminator a = false -> allChars notLT t = true ->
    search deploymentsRe (Some a) (t +:+ String "010" more) =
    search deploymentsRe (Some "010"%char) more.
Proof.
  assert (Hno : forall a s, isLineTerminator a = false ->
            matcher deploymentsRe (mkState (Some a) s []) Some = None).
  { intros a s Ha. rewrite deploymentsRe_steps by reflexivity.
    cbn [prev]. now rewrite Ha. }
  induction t as [|b t IH]; intros a more Ha Ht.
  - simpl append. rewrite search_cons, (Hno _ _ Ha). reflexivity.
  - simpl in Ht. apply andb_true_iff in Ht as [Hb Ht].
    simpl append. rewrite search_cons, (Hno _ _ Ha).
    apply IH; [|exact Ht]. now apply negb_true_iff in Hb.
Qed.

(** Two searches with the same outcome, the second in a part of the text of
    the first, take the loop over the matches the same way. *)
Lemma execLoop_skip (r : re) (fuel : nat) (b1 b2 : option ascii)
    (s1 s2 : string) :
  0 < minLength r ->
  search r b1 s1 = search r b2 s2 ->
  String.length s2 <= String.length s1 ->
  execLoop (S fuel) r b1 s1 = execLoop (S fuel) r b2 s2.
Proof.
  intros Hr Hs Hlen. cbn [execLoop]. rewrite Hs.
  destruct (search r b2 s2) as [z|] eqn:E; [|reflexivity].
  apply search_progress in E.
  destruct (Nat.ltb_spec (String.length (rest z)) (String.length s1));
    destruct (Nat.ltb_spec (String.length (rest z)) (String.length s2));
    try reflexivity; lia.
Qed.

Lemma wellFormed_line_shape (l : deploymentLine) :
  wellFormedDeploymentLine l = true ->
  exists a t,
    printDeploymentLine l = String a (t +:+ String "010" "") /\
    isLineTerminator a = false /\ allChars notLT t = true.
Proof.
  assert (Hword : forall w, nonEmpty w = true -> allChars nonSpace w = true ->
            exists a w', w = String a w' /\ isLineTerminator a = false /\
                         allChars notLT w' = true).
  { intros [|a w'] Hne Hw; [discriminate|]. simpl in Hw.
    apply andb_true_iff in Hw as [Ha Hw]. exists a, w'.
    split; [reflexivity|]. apply negb_true_iff in Ha.
    split; [now apply nonSpace_not_lineTerminator|].
    eapply allChars_impl; [|exact Hw]. simpl. intros b Hb.
    apply negb_true_iff in Hb. apply negb_true_iff.
    now apply nonSpace_not_lineTerminator. }
  assert (Hblank : forall g, allChars isBlank g = true ->
            allChars notLT g = true).
  { intros g. apply allChars_impl. intros b Hb. apply negb_true_iff.
    now apply blank_notLT. }
  assert (Hdig : forall g, allChars isDigit g = true ->
            allChars notLT g = true).
  { intros g. apply allChars_impl. intros b Hb. apply negb_true_iff.
    now apply nonSpace_not_lineTerminator, digit_not_space. }
  destruct l as [name gap count tail|word gap c tail];
    simpl wellFormedDeploymentLine; rewrite !andb_true_iff.
  - intros (((((((Hn1 & Hn2) & Hg1) & Hg2) & Hc1) & Hc2) & Ht1) & Ht2).
    destruct (Hword name Hn1 Hn2) as (a & w' & -> & Ha & Hw').
    exists a, (w' +:+ gap +:+ count +:+ tail).
    split; [simpl; now rewrite !append_assoc|]. split; [exact Ha|].
    rewrite !allChars_append, Hw', (Hblank gap Hg2), (Hdig count Hc2), Ht1.
    reflexivity.
  - intros ((((((Hw1 & Hw2) & Hg1) & Hg2) & Hc1) & Hc2) & Ht).
    destruct (Hword word Hw1 Hw2) as (a & w' & -> & Ha & Hw').
    exists a, (w' +:+ gap +:+ String c tail).
    split; [simpl; now rewrite !append_assoc|]. split; [exact Ha|].
    rewrite !allChars_append, Hw', (Hblank gap Hg2). simpl. rewrite Ht.
    apply negb_true_iff in Hc1.
    now rewrite (nonSpace_not_lineTerminator c Hc1).
Qed.

Lemma printDeployments_cons (l : deploymentLine) (table : list deploymentLine) :
  printDeployments (l :: table) =
  printDeploymentLine l +:+ printDeployments table.
Proof. reflexivity. Qed.

(** The loop over the matches, on a table. *)
Lemma execLoop_table :
  forall table fuel before,
    Forall (fun l => wellFormedDeploymentLine l = true) table ->
    match before with Some a => isLineTerminator a | None => true end = true ->
    String.length (printDeployments table) < fuel ->
    exists ms,
      execLoop fuel deploymentsRe before (printDeployments table) = Some ms /\
      map deploymentOfMatch ms = deploymentsShown table.
Proof.
  assert (Hmin : 0 < minLength deploymentsRe) by (simpl; lia).
  induction table as [|l table IH]; intros fuel before Hwf Hstart Hfuel.
  - destruct fuel as [|fuel]; [simpl in Hfuel; lia|].
    exists []. split; [|reflexivity]. cbn [execLoop printDeployments fold_right].
    rewrite search_nil, deploymentsRe_steps by reflexivity. cbn [prev rest].
    now destruct (match before with Some a => _ | None => _ end).
  - inversion Hwf as [|? ? Hl Htable]; subst.
    rewrite printDeployments_cons in *.
    destruct (wellFormed_line_shape l Hl) as (a & t & Hshape & Ha & Ht).
    destruct fuel as [|fuel]; [lia|].
    destruct l as [name gap count tail|word gap c tail].
    + destruct (deploymentsRe_row before name gap count tail
                  (printDeployments table) Hl Hstart)
        as (z & d & Hz & Hrest & Hprev & Hd & Hdep).
      simpl wellFormedDeploymentLine in Hl. rewrite !andb_true_iff in Hl.
      destruct Hl as (((((((Hn1 & Hn2) & Hg1) & Hg2) & Hc1) & Hc2) & Ht1) & _).
      assert (Hlen : String.length (rest z) <
                     String.length (printDeploymentLine
                                      (DeploymentRow name gap count tail) +:+
                                    printDeployments table)).
      { rewrite Hrest. cbn [printDeploymentLine].
        rewrite !length_append. simpl String.length.
        destruct name; [discriminate|]. simpl. lia. }
      cbn [execLoop].
      assert (Hsearch : search deploymentsRe before
                (printDeploymentLine (DeploymentRow name gap count tail) +:+
                 printDeployments table) = Some z).
      { rewrite Hshape in *. simpl append in *. rewrite search_cons, Hz.
        reflexivity. }
      rewrite Hsearch.
      destruct (Nat.ltb_spec (String.length (rest z))
                  (String.length (printDeploymentLine
                                    (DeploymentRow name gap count tail) +:+
                                  printDeployments table))); [|lia].
      assert (Hl2 : String.length (rest z) =
                    String.length tail +
                    S (String.length (printDeployments table)))
        by (rewrite Hrest, length_append; reflexivity).
      rewrite Hprev, Hrest.
      destruct fuel as [|fuel]; [lia|].
      rewrite (execLoop_skip deploymentsRe fuel (Some d) (Some "010"%char)
                 (tail +:+ String "010" (printDeployments table))
                 (printDeployments table) Hmin).
      * destruct (IH (S fuel) (Some "010"%char) Htable eq_refl)
          as (ms & -> & Hms).
        { lia. }
        exists (z :: ms). split; [reflexivity|].
        simpl. rewrite Hdep, Hms. reflexivity.
      * apply deploymentsRe_rest_of_line; assumption.
      * rewrite length_append. simpl. lia.
    + rewrite (execLoop_skip deploymentsRe fuel before (Some "010"%char)
                 (printDeploymentLine (OtherLine word gap c tail) +:+
                  printDeployments table)
                 (printDeployments table) Hmin).
      * destruct (IH (S fuel) (Some "010"%char) Htable eq_refl)
          as (ms & -> & Hms).
        { rewrite length_append in Hfuel. lia. }
        exists ms. split; [reflexivity | exact Hms].
      * pose proof (deploymentsRe_other before word gap c tail
                      (printDeployments table) Hl) as Hnone.
        rewrite Hshape in *. simpl append in *.
        rewrite search_cons, Hnone. rewrite append_assoc. simpl append.
        apply deploymentsRe_rest_of_line; assumption.
      * rewrite length_append. lia.
Qed.

End DeploymentTable.

(** Reading the table of deployments.  From a table whose rows are made of
    a name without white space, blanks, a count in decimal digits and the
    rest of the line, [parseDeployments] brings back the name and the count
    of every row, in the order of the table, and nothing else; a line whose
    second word does not begin with a digit, such as the heading, gives no
    deployment. *)
Theorem parseDeployments_reads_table (table : list deploymentLine) :
  Forall (fun l => wellFormedDeploymentLine l = true) table ->
  parseDeployments (printDeployments table) = Some (deploymentsShown table).
Proof.
  intros Hwf. unfold parseDeployments, execAll.
  destruct (execLoop_table table (S (String.length (printDeployments table)))
              None Hwf eq_refl) as (ms & -> & Hms); [lia|].
  simpl. now rewrite Hms.
Qed.

(** The theorem at the table of the run with two targets. *)
Lemma parseDeployments_reads_table_witness :
  parseDeployments
"NAME   DESIRED   CURRENT   UP-TO-DATE   AVAILABLE   AGE
a      1         1         1            1           5d
b      1         1         1            1           5d
" = Some [deploymentA; deploymentB].
Proof.
  apply (parseDeployments_reads_table tableOfBoth).
  repeat constructor.
Defined.

(** ** The table of pods *)

Section PodTable.

Local Abbreviation nonSpace := (fun c : ascii => negb (isSpace c)).
Local Abbreviation isSlash := (fun c : ascii => (c =? "/")%char).

Lemma slash_apart (a : ascii) :
  (a =? "/")%char = true -> isDigit a = false /\ isSpace a = false.
Proof. intros H. apply Ascii.eqb_eq in H. subst a. split; reflexivity. Qed.

Lemma blank_not_digit (a : ascii) : isBlank a = true -> isDigit a = false.
Proof.
  intros H. apply blank_space in H.
  destruct (isDigit a) eqn:E; [|reflexivity].
  apply digit_not_space in E. congruence.
Qed.

Lemma blank_not_slash (a : ascii) : isBlank a = true -> (a =? "/")%char = false.
Proof.
  intros H. apply blank_space in H.
  destruct (a =? "/")%char eqn:E; [|reflexivity].
  apply slash_apart in E as [_ E]. congruence.
Qed.

Lemma matcher_Group (n : nat) (r : re) (x : State) (c : Continuation) :
  matcher (Group n r) x c = matcher r x (fun y => c (capture n x y)).
Proof. reflexivity. Qed.

Lemma search_unfold (r : re) (before : option ascii) (s : string) :
  search r before s =
  match matcher r (mkState before s []) Some with
  | Some z => Some z
  | None =>
      match s with
      | EmptyString => None
      | String a s' => search r (Some a) s'
      end
  end.
Proof. now destruct s. Qed.

(** The last piece of the pattern: the digits of group 5. *)
Lemma podsRe_restarts (y : State) :
  matcher (Group 5 (Star true Digit)) y Some =
  Some (mkState (lastChar (run isDigit (rest y)) (prev y))
          (afterRun isDigit (rest y))
          ((5, run isDigit (rest y)) :: captures y)).
Proof.
  rewrite matcher_Group. unfold Digit.
  rewrite star_reads by (right; intros; eauto).
  now rewrite capture_moved by apply run_afterRun.
Qed.

(** From group 3 on. *)
Lemma podsRe_back (y : State) :
  matcher (Group 3 (Star true Digit) >> Plus true Space >>
           Group 4 (Plus true NonSpace) >> Plus true Space >>
           Group 5 (Star true Digit)) y Some =
  let total := run isDigit (rest y) in
  let s5 := afterRun isDigit (rest y) in
  let gap2 := run isSpace s5 in
  let s6 := afterRun isSpace s5 in
  let state := run nonSpace s6 in
  let s7 := afterRun nonSpace s6 in
  let gap3 := run isSpace s7 in
  let s8 := afterRun isSpace s7 in
  let restarts := run isDigit s8 in
  if nonEmpty gap2 && nonEmpty state && nonEmpty gap3
  then Some (mkState
               (lastChar restarts (lastChar gap3 (lastChar state
                  (lastChar gap2 (lastChar total (prev y))))))
               (afterRun isDigit s8)
               ((5, restarts) :: (4, state) :: (3, total) :: captures y))
  else None.
Proof.
  cbv zeta.
  change (matcher (Group 3 (Star true Digit) >> Plus true Space >>
                   Group 4 (Plus true NonSpace) >> Plus true Space >>
                   Group 5 (Star true Digit)) y Some)
    with (matcher (Star true (Class isDigit)) y
            (fun y3 => matcher (Plus true (Class isSpace)) (capture 3 y y3)
               (fun y4 => matcher (Plus true (Class nonSpace)) y4
                  (fun y5 => matcher (Plus true (Class isSpace))
                               (capture 4 y4 y5)
                     (fun y6 => matcher (Group 5 (Star true Digit)) y6
                                  Some))))).
  rewrite star_reads; cycle 1.
  { left. intros y3 Hy. unfold Plus. rewrite matcher_Seq, matcher_Class.
    apply (class_apart isDigit isSpace); [apply digit_not_space | exact Hy]. }
  rewrite capture_moved by apply run_afterRun.
  rewrite plus_reads_run; cycle 1.
  { left. intros y4 Hy. unfold Plus at 1. rewrite matcher_Seq, matcher_Class.
    apply (class_apart isSpace nonSpace); [|exact Hy].
    intros a Ha. now rewrite Ha. }
  cbn [rest prev captures].
  destruct (nonEmpty (run isSpace _)); [|reflexivity].
  rewrite plus_reads_run; cycle 1.
  { left. intros y5 Hy. unfold Plus. rewrite matcher_Seq, matcher_Class.
    apply (class_apart nonSpace isSpace); [|exact Hy].
    intros a Ha. now apply negb_true_iff in Ha. }
  cbn [rest prev captures moved].
  destruct (nonEmpty (run nonSpace _)); [|reflexivity].
  rewrite capture_moved by (cbn [rest]; apply run_afterRun).
  rewrite plus_reads_run; cycle 1.
  { right. intros y6. rewrite podsRe_restarts. eauto. }
  cbn [rest prev captures].
  destruct (nonEmpty (run isSpace _)); [|reflexivity].
  rewrite podsRe_restarts. reflexivity.
Qed.

(** Up to the "/". *)
Lemma podsRe_front (r : re) (x : State) (c : Continuation) :
  matcher (Group 1 (Plus true NonSpace) >> Plus true Space >>
           Group 2 (Star true Digit) >> Char "/" >> r) x c =
  let id := run nonSpace (rest x) in
  let s1 := afterRun nonSpace (rest x) in
  let gap1 := run isSpace s1 in
  let s2 := afterRun isSpace s1 in
  let ready := run isDigit s2 in
  if nonEmpty id && nonEmpty gap1 then
    match afterRun isDigit s2 with
    | String a s4 =>
        if (a =? "/")%char then
          matcher r
            (mkState (Some a) s4 ((2, ready) :: (1, id) :: captures x)) c
        else None
    | EmptyString => None
    end
  else None.
Proof.
  cbv zeta.
  assert (Hslash : forall y2 : State,
    matcher (Group 2 (Star true Digit) >> Char "/" >> r) y2 c =
    match afterRun isDigit (rest y2) with
    | String a s4 =>
        if (a =? "/")%char then
          matcher r (mkState (Some a) s4
                       ((2, run isDigit (rest y2)) :: captures y2)) c
        else None
    | EmptyString => None
    end).
  { intros y2.
    change (matcher (Group 2 (Star true Digit) >> Char "/" >> r) y2 c)
      with (matcher (Star true (Class isDigit)) y2
              (fun y3 => matcher (Char "/") (capture 2 y2 y3)
                 (fun y4 => matcher r y4 c))).
    rewrite star_reads; cycle 1.
    { left. intros y3 Hy. rewrite matcher_Char.
      apply (class_apart isDigit isSlash); [|exact Hy].
      intros a Ha. destruct (a =? "/")%char eqn:E; [|reflexivity].
      apply slash_apart in E as [E _]. congruence. }
    rewrite capture_moved by apply run_afterRun.
    rewrite matcher_Char. cbn [rest]. reflexivity. }
  change (matcher (Group 1 (Plus true NonSpace) >> Plus true Space >>
                   Group 2 (Star true Digit) >> Char "/" >> r) x c)
    with (matcher (Plus true (Class nonSpace)) x
            (fun y => matcher (Plus true (Class isSpace)) (capture 1 x y)
               (fun y2 => matcher (Group 2 (Star true Digit) >> Char "/" >> r)
                            y2 c))).
  rewrite plus_reads_run; cycle 1.
  { left. intros y Hy. unfold Plus. rewrite matcher_Seq, matcher_Class.
    apply (class_apart nonSpace isSpace); [|exact Hy].
    intros a Ha. now apply negb_true_iff in Ha. }
  destruct (nonEmpty (run nonSpace (rest x))); [|reflexivity].
  rewrite capture_moved by apply run_afterRun.
  rewrite plus_reads_run; cycle 1.
  { left. intros y2 Hy. rewrite Hslash.
    destruct (rest y2) as [|b s] eqn:E; [discriminate|].
    simpl in Hy. apply negb_false_iff in Hy.
    assert (Hd : isDigit b = false).
    { destruct (isDigit b) eqn:Ed; [|reflexivity].
      apply digit_not_space in Ed. congruence. }
    cbn [afterRun]. rewrite Hd.
    destruct (b =? "/")%char eqn:Es; [|reflexivity].
    apply slash_apart in Es as [_ Es]. congruence. }
  cbn [rest prev captures].
  destruct (nonEmpty (run isSpace _)); [|reflexivity].
  rewrite Hslash. reflexivity.
Qed.

(** A match begins only where [mayStart] allows. *)
Lemma podsRe_needs_slash (before : option ascii) (s : string) :
  mayStart s = false -> matcher podsRe (mkState before s []) Some = None.
Proof.
  intros H. unfold podsRe. rewrite podsRe_front. cbv zeta. cbn [rest].
  destruct (nonEmpty _ && nonEmpty _); [|reflexivity].
  unfold mayStart, slashAfterSpace, slashNext in H.
  destruct (afterRun isDigit _) as [|a s4]; [reflexivity|].
  now rewrite H.
Qed.

(** Texts without "/", up to a character that is neither a digit nor "/". *)
Lemma slashNext_text (j : string) (b : ascii) (r : string) :
  allChars notSlash j = true -> isDigit b = false -> (b =? "/")%char = false ->
  slashNext (j +:+ String b r) = false.
Proof.
  intros Hj Hb1 Hb2. unfold slashNext.
  induction j as [|c j IH]; simpl in *.
  - now rewrite Hb1, Hb2.
  - apply andb_true_iff in Hj as [Hc Hj].
    destruct (isDigit c); [now apply IH|].
    now apply negb_true_iff in Hc.
Qed.

Lemma slashAfterSpace_text (j next : string) :
  allChars notSlash j = true -> slashAfterSpace next = false ->
  slashAfterSpace (j +:+ String "010" next) = false.
Proof.
  intros Hj Hnext. unfold slashAfterSpace in *.
  induction j as [|c j IH].
  - exact Hnext.
  - pose proof Hj as Hj'. simpl in Hj. apply andb_true_iff in Hj as [Hc Hj].
    simpl append. cbn [afterRun].
    destruct (isSpace c); [now apply IH|].
    apply (slashNext_text (String c j) "010" next Hj'); reflexivity.
Qed.

Lemma mayStart_text (j next : string) :
  allChars notSlash j = true -> slashAfterSpace next = false ->
  mayStart (j +:+ String "010" next) = false.
Proof.
  intros Hj Hnext. unfold mayStart.
  induction j as [|c j IH].
  - exact Hnext.
  - pose proof Hj as Hj'. simpl in Hj. apply andb_true_iff in Hj as [Hc Hj].
    simpl append. cbn [afterRun].
    destruct (negb (isSpace c)); [now apply IH|].
    now apply (slashAfterSpace_text (String c j) next).
Qed.

(** In a text without "/" the pattern matches nowhere: the search goes on at
    the start of the next line. *)
Lemma podsRe_skips_text :
  forall j before next,
    allChars notSlash j = true -> slashAfterSpace next = false ->
    search podsRe before (j +:+ String "010" next) =
    search podsRe (Some "010"%char) next.
Proof.
  induction j as [|c j IH]; intros before next Hj Hnext.
  - rewrite search_unfold, podsRe_needs_slash; [reflexivity|].
    now apply (mayStart_text "" next).
  - rewrite search_unfold, podsRe_needs_slash by now apply mayStart_text.
    simpl append. cbv iota.
    simpl in Hj. apply andb_true_iff in Hj as [_ Hj]. now apply IH.
Qed.

Lemma stops_after_digits (p : ascii -> bool) (ds s : string) :
  (forall a, isDigit a = true -> p a = false) ->
  allChars isDigit ds = true -> stops p s = true -> stops p (ds +:+ s) = true.
Proof.
  intros Hp Hds Hs. destruct ds as [|d ds]; [exact Hs|].
  simpl in *. apply andb_true_iff in Hds as [Hd _]. now rewrite (Hp d Hd).
Qed.

(** A row is read as its pod. *)
Lemma podsRe_row (before : option ascii)
    (id gap1 ready total gap2 state gap3 restarts tail more : string) :
  wellFormedPodLine
    (PodRow id gap1 ready total gap2 state gap3 restarts tail) = true ->
  exists z,
    matcher podsRe
      (mkState before
         (printPodLine
            (PodRow id gap1 ready total gap2 state gap3 restarts tail) +:+
          more) []) Some = Some z /\
    rest z = tail +:+ String "010" more /\
    podOfMatch z =
      Pod.mk id (String.eqb total ready) (deriveName id) state restarts None.
Proof.
  simpl wellFormedPodLine. rewrite !andb_true_iff.
  intros ((((((((((((((((Hi1 & Hi2) & Hi3) & Hg1) & Hg1') & Hr) & Ht) & Hg2)
            & Hg2') & Hs1) & Hs2) & Hg3) & Hg3') & Hn1) & Hn2) & Hl1) & Hl2).
  assert (Hspace : forall g, allChars isBlank g = true ->
            allChars isSpace g = true)
    by (intros g; apply allChars_impl, blank_space).
  assert (Hns : forall a, nonSpace a = true -> isSpace a = false)
    by (intros a Ha; now apply negb_true_iff in Ha).
  assert (Hsn : forall a, isSpace a = true -> nonSpace a = false)
    by (intros a Ha; now rewrite Ha).
  assert (Hbn : forall a, isBlank a = true -> nonSpace a = false)
    by (intros a Ha; apply blank_space in Ha; now rewrite Ha).
  unfold podsRe. rewrite podsRe_front. cbv zeta. cbn [rest captures].
  cbn [printPodLine]. rewrite !append_assoc.
  destruct (run_app nonSpace id
    (gap1 +:+ ready +:+ "/" +:+ total +:+ gap2 +:+ state +:+ gap3 +:+
     restarts +:+ tail +:+ String "010" "" +:+ more) Hi2) as [-> ->].
  { now apply (stops_word nonSpace isBlank). }
  destruct (run_app isSpace gap1
    (ready +:+ "/" +:+ total +:+ gap2 +:+ state +:+ gap3 +:+
     restarts +:+ tail +:+ String "010" "" +:+ more) (Hspace _ Hg1'))
    as [-> ->].
  { apply stops_after_digits; [apply digit_not_space | exact Hr | reflexivity]. }
  destruct (run_app isDigit ready
    ("/" +:+ total +:+ gap2 +:+ state +:+ gap3 +:+
     restarts +:+ tail +:+ String "010" "" +:+ more) Hr) as [-> ->];
    [reflexivity|].
  rewrite Hi1, Hg1. cbn [andb].
  change ("/" +:+ total +:+ gap2 +:+ state +:+ gap3 +:+ restarts +:+ tail +:+
          String "010" "" +:+ more)
    with (String "/" (total +:+ gap2 +:+ state +:+ gap3 +:+ restarts +:+
                      tail +:+ String "010" "" +:+ more)).
  cbv iota beta. rewrite Ascii.eqb_refl.
  rewrite podsRe_back. cbv zeta. cbn [rest prev captures].
  destruct (run_app isDigit total
    (gap2 +:+ state +:+ gap3 +:+ restarts +:+ tail +:+ String "010" "" +:+
     more) Ht) as [-> ->].
  { apply (stops_word isDigit isBlank); auto. apply blank_not_digit. }
  destruct (run_app isSpace gap2
    (state +:+ gap3 +:+ restarts +:+ tail +:+ String "010" "" +:+ more)
    (Hspace _ Hg2')) as [-> ->].
  { now apply (stops_word isSpace nonSpace). }
  destruct (run_app nonSpace state
    (gap3 +:+ restarts +:+ tail +:+ String "010" "" +:+ more) Hs2)
    as [-> ->].
  { now apply (stops_word nonSpace isBlank). }
  destruct (run_app isSpace gap3
    (restarts +:+ tail +:+ String "010" "" +:+ more) (Hspace _ Hg3'))
    as [-> ->].
  { apply (stops_word isSpace isDigit); auto. apply digit_not_space. }
  destruct (run_app isDigit restarts (tail +:+ String "010" "" +:+ more) Hn2)
    as [-> ->].
  { destruct tail as [|t tail]; [reflexivity | exact Hl2]. }
  rewrite Hg2, Hs1, Hg3. cbn [andb].
  eexists. split; [reflexivity|]. cbn [rest]. split; reflexivity.
Qed.

Lemma printPods_cons (l : podLine) (table : list podLine) :
  printPods (l :: table) = printPodLine l +:+ printPods table.
Proof. reflexivity. Qed.

(** No match begins in the white space in front of a table. *)
Lemma printPods_start (table : list podLine) :
  Forall (fun l => wellFormedPodLine l = true) table ->
  slashAfterSpace (printPods table) = false.
Proof.
  induction table as [|l table IH]; intros Hwf; [reflexivity|].
  inversion Hwf as [|? ? Hl Htable]; subst.
  rewrite printPods_cons.
  destruct l as [id gap1 ready total gap2 state gap3 restarts tail|text].
  - simpl wellFormedPodLine in Hl. rewrite !andb_true_iff in Hl.
    destruct Hl as ((((((((((((((((Hi1 & Hi2) & Hi3) & Hg1) & Hg1') & _) & _)
                    & _) & _) & _) & _) & _) & _) & _) & _) & _) & _).
    cbn [printPodLine]. rewrite !append_assoc.
    destruct gap1 as [|b gap1]; [discriminate|].
    simpl in Hg1'. apply andb_true_iff in Hg1' as [Hb _].
    unfold slashAfterSpace.
    destruct (run_stops isSpace (id +:+ String b gap1 +:+ ready +:+ "/" +:+
                total +:+ gap2 +:+ state +:+ gap3 +:+ restarts +:+ tail +:+
                String "010" "" +:+ printPods table)) as [_ ->].
    { apply (stops_word isSpace (fun c => negb (isSpace c))); auto.
      intros a Ha. now apply negb_true_iff in Ha. }
    simpl append.
    apply slashNext_text;
      [exact Hi3 | now apply blank_not_digit | now apply blank_not_slash].
  - cbn [printPodLine]. rewrite append_assoc. simpl append.
    apply slashAfterSpace_text; [exact Hl | now apply IH].
Qed.

(** The loop over the matches, on a table. *)
Lemma execLoop_pods :
  forall table fuel before,
    Forall (fun l => wellFormedPodLine l = true) table ->
    String.length (printPods table) < fuel ->
    exists ms,
      execLoop fuel podsRe before (printPods table) = Some ms /\
      map podOfMatch ms = podsShown table.
Proof.
  assert (Hmin : 0 < minLength podsRe) by (simpl; lia).
  induction table as [|l table IH]; intros fuel before Hwf Hfuel.
  - destruct fuel as [|fuel]; [simpl in Hfuel; lia|].
    exists []. split; [|reflexivity]. cbn [execLoop printPods fold_right].
    rewrite search_unfold, podsRe_needs_slash by reflexivity. reflexivity.
  - inversion Hwf as [|? ? Hl Htable]; subst.
    pose proof (printPods_start table Htable) as Hnext.
    rewrite printPods_cons in *.
    destruct fuel as [|fuel]; [lia|].
    destruct l as [id gap1 ready total gap2 state gap3 restarts tail|text].
    + destruct (podsRe_row before id gap1 ready total gap2 state gap3
                  restarts tail (printPods table) Hl) as (z & Hz & Hrest & Hpod).
      simpl wellFormedPodLine in Hl. rewrite !andb_true_iff in Hl.
      destruct Hl as ((((((((((((((((Hi1 & _) & _) & _) & _) & _) & _) & _)
                      & _) & _) & _) & _) & _) & _) & _) & Hl1) & _).
      assert (Hl2 : String.length (rest z) =
                    String.length tail + S (String.length (printPods table)))
        by (rewrite Hrest, length_append; reflexivity).
      assert (Hlen : String.length (rest z) <
                     String.length
                       (printPodLine (PodRow id gap1 ready total gap2 state
                                        gap3 restarts tail) +:+
                        printPods table)).
      { rewrite Hl2. cbn [printPodLine].
        rewrite !length_append. simpl String.length.
        destruct id; [discriminate|]. simpl. lia. }
      cbn [execLoop]. rewrite search_unfold, Hz.
      destruct (Nat.ltb_spec (String.length (rest z))
                  (String.length
                     (printPodLine (PodRow id gap1 ready total gap2 state
                                      gap3 restarts tail) +:+
                      printPods table))); [|lia].
      rewrite Hrest.
      destruct fuel as [|fuel]; [lia|].
      rewrite (execLoop_skip podsRe fuel (prev z) (Some "010"%char)
                 (tail +:+ String "010" (printPods table))
                 (printPods table) Hmin).
      * destruct (IH (S fuel) (Some "010"%char) Htable) as (ms & -> & Hms);
          [lia|].
        exists (z :: ms). split; [reflexivity|].
        simpl. rewrite Hpod, Hms. reflexivity.
      * now apply podsRe_skips_text.
      * rewrite length_append. simpl. lia.
    + simpl wellFormedPodLine in Hl.
      rewrite (execLoop_skip podsRe fuel before (Some "010"%char)
                 (printPodLine (NoPodLine text) +:+ printPods table)
                 (printPods table) Hmin).
      * destruct (IH (S fuel) (Some "010"%char) Htable) as (ms & -> & Hms).
        { rewrite length_append in Hfuel. lia. }
        exists ms. split; [reflexivity | exact Hms].
      * cbn [printPodLine]. rewrite append_assoc. simpl append.
        now apply podsRe_skips_text.
      * rewrite length_append. lia.
Qed.

End PodTable.

(** Reading the table of pods.  From a table whose rows are made of an id
    (a word without "/"), the two counts of READY with "/" in between, the
    state and the restarts, with blanks in between, and a rest of the line
    without "/", [parsePods] brings back one pod for every row, in the order
    of the table, and nothing else: its id, state and restarts as written,
    ready when the two counts are the same text, its name derived from the
    id and its build not yet known.  Lines without "/", such as the
    heading, give no pod. *)
Theorem parsePods_reads_table (table : list podLine) :
  Forall (fun l => wellFormedPodLine l = true) table ->
  parsePods (printPods table) = Some (podsShown table).
Proof.
  intros Hwf. unfold parsePods, execAll.
  destruct (execLoop_pods table (S (String.length (printPods table))) None Hwf)
    as (ms & -> & Hms); [lia|].
  simpl. now rewrite Hms.
Qed.

(** The theorem at the table of the run with two targets, both pods up. *)
Lemma parsePods_reads_table_witness :
  parsePods
"NAME                 READY   STATUS    RESTARTS   AGE
a-1234567890-abcde   1/1     Running   0          9s
b-1234567890-abcde   1/1     Running   0          9s
" = Some [Pod.mk "a-1234567890-abcde" true "a" "Running" "0" None;
          Pod.mk "b-1234567890-abcde" true "b" "Running" "0" None].
Proof.
  apply (parsePods_reads_table podsOfBoth).
  repeat constructor.
Defined.

(** ** The build of the first image *)

Section FirstImage.

Local Abbreviation notLT := (fun c : ascii => negb (isLineTerminator c)).

(** The digits of a group at the end of a pattern. *)
Lemma group_of_digits (n : nat) (y : State) :
  matcher (Group n (Star true Digit)) y Some =
  Some (mkState (lastChar (run isDigit (rest y)) (prev y))
          (afterRun isDigit (rest y))
          ((n, run isDigit (rest y)) :: captures y)).
Proof.
  rewrite matcher_Group. unfold Digit.
  rewrite star_reads by (right; intros; eauto).
  now rewrite capture_moved by apply run_afterRun.
Qed.

(** Where a search finds its match, and that it is the first place. *)
Lemma search_first (r : re) :
  forall s before z,
    search r before s = Some z ->
    exists pre s' before',
      s = pre +:+ s' /\
      matcher r (mkState before' s' []) Some = Some z /\
      forall pre1 s1,
        s = pre1 +:+ s1 -> String.length pre1 < String.length pre ->
        exists before1, matcher r (mkState before1 s1 []) Some = None.
Proof.
  induction s as [|a s IH]; intros before z H; rewrite search_unfold in H.
  - destruct (matcher r (mkState before "" []) Some) as [z'|] eqn:E;
      [|discriminate].
    injection H as <-. exists "", "", before.
    split; [reflexivity|]. split; [exact E|]. simpl. intros; lia.
  - destruct (matcher r (mkState before (String a s) []) Some) as [z'|] eqn:E.
    + injection H as <-. exists "", (String a s), before.
      split; [reflexivity|]. split; [exact E|]. simpl. intros; lia.
    + apply IH in H as (pre & s' & before' & -> & Hm & Hfirst).
      exists (String a pre), s', before'.
      split; [reflexivity|]. split; [exact Hm|].
      intros pre1 s1 Hs Hlen. destruct pre1 as [|c pre1].
      * simpl in Hs. subst s1. eauto.
      * simpl in Hs. injection Hs as -> Hs. apply (Hfirst pre1 s1 Hs).
        simpl in Hlen. lia.
Qed.

Lemma readLit_captures (w : string) :
  forall x y, readLit w x = Some y -> captures y = captures x.
Proof.
  induction w as [|ch w IH]; intros x y H; simpl in H.
  - now injection H as <-.
  - destruct (rest x) as [|a s]; [discriminate|].
    destruct (a =? ch)%char; [|discriminate].
    now apply IH in H.
Qed.

Lemma digits_on_line (ds : string) :
  allChars isDigit ds = true ->
  allChars notLT ds = true /\ dashOnLine ds = false.
Proof.
  induction ds as [|d ds IH]; [auto|]. simpl. intros H.
  apply andb_true_iff in H as [Hd Hds]. destruct (IH Hds) as [H1 H2].
  assert (Hlt : isLineTerminator d = false)
    by now apply nonSpace_not_lineTerminator, digit_not_space.
  rewrite Hlt, H1. split; [reflexivity|].
  destruct (Ascii.eqb_spec d "-") as [->|_]; [discriminate | exact H2].
Qed.

Lemma app_same_length (w1 s1 w2 s2 : string) :
  w1 +:+ s1 = w2 +:+ s2 -> String.length w1 = String.length w2 ->
  w1 = w2 /\ s1 = s2.
Proof.
  revert w2. induction w1 as [|a w1 IH]; intros [|b w2] H Hlen;
    simpl in *; try lia; [auto|].
  injection H as -> H. destruct (IH w2 H) as [-> ->]; [lia | auto].
Qed.

(** What comes after "image:": the longest stretch of the line that a dash
    follows, the dash, and the digits after it. *)
Lemma imageTail_reads (y z : State) :
  matcher imageTail y Some = Some z ->
  exists mid ds post,
    rest y = mid +:+ "-" +:+ ds +:+ post /\
    group 1 z = Some ds /\
    allChars notLT mid = true /\ allChars isDigit ds = true /\
    stops isDigit post = true /\ dashOnLine post = false.
Proof.
  intros H. unfold imageTail, Dot in H. rewrite matcher_Seq in H.
  pose proof (star_greedy_spec notLT
    (fun y' => matcher (Char "-" >> Group 1 (Star true Digit)) y' Some)
    (rest y) y eq_refl) as Hstar.
  rewrite H in Hstar. destruct Hstar as (mid & s' & Hrest & Hmid & Hk & Hmax).
  rewrite matcher_Seq, matcher_Char in Hk. cbn [rest moved] in Hk.
  destruct s' as [|a s3]; [discriminate|].
  destruct (Ascii.eqb_spec a "-") as [->|_]; [|discriminate].
  rewrite group_of_digits in Hk. injection Hk as <-. cbn [rest] in *.
  exists mid, (run isDigit s3), (afterRun isDigit s3).
  split.
  { rewrite Hrest. simpl. f_equal. f_equal. apply run_afterRun. }
  split; [unfold group; simpl; reflexivity|].
  split; [exact Hmid|]. split; [apply allChars_run|].
  split; [apply stops_afterRun|].
  destruct (dashOnLine (afterRun isDigit s3)) eqn:Ed; [|reflexivity].
  exfalso. apply dashOnLine_spec in Ed as (mid2 & post2 & Hpost & Hmid2).
  destruct (digits_on_line (run isDigit s3) (allChars_run _ _)) as [Hds _].
  specialize (Hmax (mid +:+ "-" +:+ run isDigit s3 +:+ mid2)
                (String "-" post2)).
  rewrite matcher_Seq, matcher_Char in Hmax. cbn [rest moved] in Hmax.
  rewrite Ascii.eqb_refl, group_of_digits in Hmax.
  discriminate Hmax.
  - rewrite Hrest, !append_assoc. simpl. f_equal. f_equal.
    rewrite (run_afterRun isDigit s3) at 1. rewrite Hpost. reflexivity.
  - rewrite !allChars_append, Hmid, Hds, Hmid2. reflexivity.
  - rewrite !length_append. simpl. lia.
Qed.

End FirstImage.

(** The build that is found.  Whenever the extractor finds a build, the
    output has an "image:" followed on its line by a dash, and the build is
    the run of decimal digits (or none) that stands after the last dash of
    that line, taken at the first "image:" of the output that has a dash
    after it on its line. *)
Theorem extractBuild_reads_last_dash (stdout : string) (b : option string) :
  extractBuild stdout = BuildFound b ->
  exists pre mid ds post,
    stdout = pre +:+ "image:" +:+ mid +:+ "-" +:+ ds +:+ post /\
    b = Some ds /\
    allChars (fun c => negb (isLineTerminator c)) mid = true /\
    allChars isDigit ds = true /\
    stops isDigit post = true /\
    dashOnLine post = false /\
    forall pre' t,
      stdout = pre' +:+ "image:" +:+ t -> dashOnLine t = true ->
      String.length pre <= String.length pre'.
Proof.
  unfold extractBuild, exec. intros H.
  destruct (search imageRe None stdout) as [m|] eqn:E; [|discriminate].
  injection H as <-.
  apply search_first in E as (pre & s' & before' & -> & Hm & Hfirst).
  unfold imageRe in Hm. rewrite matcher_Lit in Hm.
  destruct (readLit "image:" _) as [y|] eqn:Ey; [|discriminate].
  pose proof (readLit_Some _ _ _ Ey) as Hs. cbn [rest] in Hs.
  fold imageTail in Hm.
  apply imageTail_reads in Hm
    as (mid & ds & post & Hrest & Hg & Hmid & Hds & Hstop & Hlast).
  exists pre, mid, ds, post.
  split; [now rewrite Hs, Hrest|]. split; [exact Hg|].
  split; [exact Hmid|]. split; [exact Hds|]. split; [exact Hstop|].
  split; [exact Hlast|].
  intros pre' t Hsplit Hdash.
  destruct (Nat.le_gt_cases (String.length pre) (String.length pre'))
    as [Hle|Hgt]; [exact Hle|].
  exfalso. destruct (Hfirst pre' ("image:" +:+ t) Hsplit Hgt) as (b1 & Hnone).
  destruct (proj2 (imageRe_at b1 ("image:" +:+ t))) as [z Hz]; [eauto|].
  congruence.
Qed.

(** The theorem at an image that follows the convention. *)
Lemma extractBuild_reads_last_dash_witness :
  exists pre mid post,
    "spec:
  containers:
  - image: my-registry/app:build-42
    name: app
" = pre +:+ "image:" +:+ mid +:+ "-" +:+ "42" +:+ post /\
    dashOnLine post = false.
Proof.
  destruct (extractBuild_reads_last_dash
"spec:
  containers:
  - image: my-registry/app:build-42
    name: app
" (Some "42") eq_refl) as (pre & mid & ds & post & H & Hb & _ & _ & _ & Hl & _).
  injection Hb as <-. exists pre, mid, post. split; [exact H | exact Hl].
Defined.

(** ** The main program *)

Section MainProgram.

Lemma parseDeployments_total (stdout : string) :
  exists deployments, parseDeployments stdout = Some deployments.
Proof.
  unfold parseDeployments.
  destruct (execAll_total deploymentsRe stdout) as (ms & ->); [simpl; lia|].
  simpl. eauto.
Qed.

Lemma getDeployments_ends (kubeConfig namespace : option string) (w : world) :
  (getDeployments kubeConfig namespace w).2 <> EndlessListing.
Proof.
  unfold getDeployments.
  destruct (execRetry _ _ w "get deployments" _ _ _) as [evs [out| |]];
    try discriminate.
  destruct (parseDeployments_total out) as (ds & ->). discriminate.
Qed.

(** With options only there is nothing to update. *)
Lemma parseArgs_options_only (args : list string) :
  Forall (fun arg => isOption arg = true) args <->
  Args.deploymentsToUpdate (parseArgs args) = [].
Proof.
  unfold parseArgs. induction args as [|arg args IH] using rev_ind.
  - split; [reflexivity | constructor].
  - rewrite fold_left_app, Forall_app. simpl fold_left.
    rewrite parseArg_cases, IH. pose proof (isOption_cases arg) as Hopt.
    destruct (namesKubeconfig arg); [|destruct (namesNamespace arg);
      [|destruct (namesTimeout arg)]]; simpl in *.
    1-3: split; [now intros [? _] | intros H; split; [exact H|]];
         repeat constructor; exact Hopt.
    split.
    + intros [_ H]. inversion H; subst. congruence.
    + intros H. now apply app_eq_nil in H as [_ ?].
Qed.

Lemma plan_entry (deployments : list Deployment.t) (allPods : list Pod.t)
    (deployment : list string) :
  match plan deployments allPods deployment with
  | Missing d =>
      d = deployment /\
      forall serviceName, head deployment = Some serviceName ->
        Forall (fun found => Deployment.name found ≠ serviceName) deployments
  | Asked serviceName d foundDeployment pods =>
      d = deployment /\ head deployment = Some serviceName /\
      foundDeployment ∈ deployments /\
      Deployment.name foundDeployment = serviceName /\
      pods = filter (fun pod => Pod.name pod = serviceName) allPods
  end.
Proof.
  unfold plan. destruct (head deployment) as [serviceName|];
    [|split; [reflexivity | discriminate]].
  destruct (filter _ deployments) as [|found rest] eqn:Ef; simpl.
  - split; [reflexivity|]. intros s Hs. injection Hs as <-.
    apply Forall_forall. intros found Hin Hname.
    assert (Hf : found ∈ filter (fun d => Deployment.name d = serviceName)
                         deployments)
      by (apply list_elem_of_filter; auto).
    rewrite Ef in Hf. now apply not_elem_of_nil in Hf.
  - assert (Hf : found ∈ filter (fun d => Deployment.name d = serviceName)
                         deployments)
      by (rewrite Ef; apply list_elem_of_here).
    apply list_elem_of_filter in Hf as [Hname Hin]. auto.
Qed.

(** Every deployment read from a table has a name that is a word: not empty
    and without white space. *)
Lemma parseDeployments_names (stdout : string)
    (deployments : list Deployment.t) :
  parseDeployments stdout = Some deployments ->
  Forall (fun d => nonEmpty (Deployment.name d) = true /\
                   allChars (fun c => negb (isSpace c)) (Deployment.name d)
                   = true) deployments.
Proof.
  unfold parseDeployments. intros H.
  destruct (execAll deploymentsRe stdout) as [ms|] eqn:E; [|discriminate].
  injection H as <-. apply Forall_fmap.
  eapply execLoop_all; [|exact E]. intros before s z Hs. simpl.
  apply search_from_nil in Hs as (before' & s' & Hs).
  rewrite deploymentsRe_steps in Hs by reflexivity. cbv zeta in Hs.
  destruct (match prev _ with Some a => _ | None => _ end); [|discriminate].
  destruct (_ && _ && _) eqn:Hc; [|discriminate].
  apply andb_true_iff in Hc as [Hc _]. apply andb_true_iff in Hc as [Hne _].
  injection Hs as <-. unfold field, group. simpl.
  split; [exact Hne | apply allChars_run].
Qed.

End MainProgram.

(** The main program.  It refuses to start exactly when no argument names a
    deployment (the arguments are all options, or there are none): it then
    writes the one line of the error and runs no command.  Otherwise it runs
    the two queries.  It is left by the process exactly when one of them has
    run out of retries.  When both succeed it starts, with one entry for each
    named deployment, in the order of the arguments: a name the table of
    deployments does not have is reported and nothing is run for it; for a
    name it has, the build is asked for, with the first deployment of that
    name in the table and the pods of that name from the snapshot; such a
    name is a word of the table, not empty and without white space.  It is
    never caught in a loop over matches. *)
Theorem main_endings (args : list string) (w : world) :
  let m := main args w in
  let listed :=
    getDeployments (Args.kubeConfig (parseArgs args))
      (Args.namespace (parseArgs args)) w in
  let fetched :=
    getPodsWithBuildNumbers (Args.kubeConfig (parseArgs args))
      (Args.namespace (parseArgs args)) w
      (d ← Args.deploymentsToUpdate (parseArgs args); take 1 d) in
  variables m = parseArgs args /\
  (ending m = Refused <-> Forall (fun arg => isOption arg = true) args) /\
  (ending m = Refused ->
   lines m = [NoPodNames] /\ deploymentsTask m = [] /\ podsTask m = []) /\
  ending m <> Stuck /\
  (ending m = Left <->
   ~ Forall (fun arg => isOption arg = true) args /\
   (listed.2 = NoDeployments \/ fetched.2 = NoPods)) /\
  (forall deployments allPods,
     ~ Forall (fun arg => isOption arg = true) args ->
     listed.2 = Deployments deployments -> fetched.2 = Pods allPods ->
     ending m =
       Started (plan deployments allPods <$>
                Args.deploymentsToUpdate (parseArgs args)) /\
     deploymentsTask m = listed.1 /\ podsTask m = fetched.1) /\
  (forall entries, ending m = Started entries ->
     exists deployments allPods,
       getDeployments (Args.kubeConfig (variables m))
         (Args.namespace (variables m)) w
       = (deploymentsTask m, Deployments deployments) /\
       getPodsWithBuildNumbers (Args.kubeConfig (variables m))
         (Args.namespace (variables m)) w
         (d ← Args.deploymentsToUpdate (variables m); take 1 d)
       = (podsTask m, Pods allPods) /\
       entries =
         plan deployments allPods <$> Args.deploymentsToUpdate (variables m) /\
       Forall (fun entry =>
         match entry with
         | Missing d =>
             CouldNotFind (join "," d) ∈ lines m /\
             forall serviceName, head d = Some serviceName ->
               Forall (fun found => Deployment.name found ≠ serviceName)
                 deployments
         | Asked serviceName d foundDeployment pods =>
             head d = Some serviceName /\
             foundDeployment ∈ deployments /\
             Deployment.name foundDeployment = serviceName /\
             nonEmpty serviceName = true /\
             allChars (fun c => negb (isSpace c)) serviceName = true /\
             pods = filter (fun pod => Pod.name pod = serviceName) allPods
         end) entries).
Proof.
  cbv zeta. unfold main.
  pose proof (parseArgs_options_only args) as Hopt.
  pose proof (getDeployments_ends (Args.kubeConfig (parseArgs args))
                (Args.namespace (parseArgs args)) w) as Hd.
  pose proof (getPodsWithBuildNumbers_ends (Args.kubeConfig (parseArgs args))
                (Args.namespace (parseArgs args)) w
                (d ← Args.deploymentsToUpdate (parseArgs args); take 1 d))
    as Hp.
  destruct (Args.deploymentsToUpdate (parseArgs args)) as [|d0 ds] eqn:Eds.
  { assert (Hall : Forall (fun arg => isOption arg = true) args)
      by now apply Hopt.
    simpl. split; [reflexivity|]. split; [split; auto|].
    split; [auto|]. split; [discriminate|].
    split; [split; [discriminate | now intros [Hn _]]|].
    split; [intros ? ? Hn; contradiction | discriminate]. }
  assert (Hnot : ~ Forall (fun arg => isOption arg = true) args).
  { intros H. apply Hopt in H. discriminate. }
  cbn [length Nat.eqb]. set (todo := d0 :: ds) in *.
  destruct (getDeployments _ _ w) as [evs1 [deployments| |]] eqn:E1;
    destruct (getPodsWithBuildNumbers _ _ w _) as [evs2 [allPods| |]] eqn:E2;
    cbn [fst snd] in *; try contradiction;
    try (split; [reflexivity|];
         split; [split; [discriminate | intros H; contradiction]|];
         split; [discriminate|]; split; [discriminate|];
         split; [split; [auto | reflexivity]|];
         split; [intros ? ? _ ? ?; discriminate | discriminate]).
  split; [reflexivity|].
  split; [split; [discriminate | intros H; contradiction]|].
  split; [discriminate|]. split; [discriminate|].
  split; [split; [discriminate | intros [_ [H|H]]; discriminate]|].
  split.
  { intros deployments' allPods' _ H1 H2.
    injection H1 as <-. injection H2 as <-. auto. }
  intros entries H.
  assert (He : entries = plan deployments allPods <$> todo)
    by (symmetry; now injection H).
  clear H. subst entries.
  exists deployments, allPods.
  cbn [variables lines deploymentsTask podsTask ending]. rewrite Eds.
  split; [exact E1|]. split; [exact E2|]. split; [reflexivity|].
  apply Forall_forall. intros entry Hin.
  apply list_elem_of_fmap in Hin as (d & -> & Hin).
  pose proof (plan_entry deployments allPods d) as Hentry.
  assert (Hline : forall d', plan deployments allPods d = Missing d' ->
            CouldNotFind (join "," d') ∈
              whenSet UsingConfig (Args.kubeConfig (parseArgs args)) ++
              whenSet UsingNamespace (Args.namespace (parseArgs args)) ++
              (p ← plan deployments allPods <$> todo; lineOf p)).
  { intros d' Hd'. rewrite !elem_of_app. right. right.
    apply list_elem_of_bind. exists (Missing d'). split.
    - simpl. apply list_elem_of_here.
    - rewrite <- Hd'. apply list_elem_of_fmap. eauto. }
  destruct (plan deployments allPods d) as [d'|s d' fd pods].
  - destruct Hentry as [-> Hnone]. split; [|exact Hnone].
    rewrite <- app_assoc. now apply Hline.
  - destruct Hentry as (-> & H1 & H2 & H3 & H4).
    assert (Hword : nonEmpty (Deployment.name fd) = true /\
                    allChars (fun c => negb (isSpace c)) (Deployment.name fd)
                    = true).
    { unfold getDeployments in E1.
      destruct (execRetry _ _ w "get deployments" _ _ _)
        as [evs [out| |]]; try discriminate.
      destruct (parseDeployments out) as [parsed|] eqn:Ep; [|discriminate].
      injection E1 as _ <-.
      pose proof (parseDeployments_names out parsed Ep) as Hnames.
      rewrite Forall_forall in Hnames. now apply Hnames. }
    rewrite H3 in Hword. destruct Hword as [Hw1 Hw2]. auto 10.
Qed.

(** The theorem on a run that starts, [kubeimage a=2 c] against the cluster
    of the two targets: both queries succeed, "a" is in the table and is
    asked for its build with its pod, "c" is not and is reported. *)
Lemma main_endings_witness :
  lines (main ["a=2"; "c"] clusterListing) = [CouldNotFind "c"] /\
  ending (main ["a=2"; "c"] clusterListing) =
    Started [Asked "a" ["a"; "2"] deploymentA
               [Pod.mk "a-1234567890-abcde" true "a" "Running" "0" (Some "2")];
             Missing ["c"]].
Proof.
  split; [vm_compute; reflexivity|].
  destruct (main_endings ["a=2"; "c"] clusterListing)
    as (_ & _ & _ & _ & _ & Hstart & _).
  destruct (Hstart [deploymentA; deploymentB]
              [Pod.mk "a-1234567890-abcde" true "a" "Running" "0" (Some "2")])
    as (H & _).
  - intros Hall. apply Forall_cons in Hall as [Ha _]. vm_compute in Ha.
    discriminate Ha.
  - vm_compute. reflexivity.
  - vm_compute. reflexivity.
  - rewrite H. vm_compute. reflexivity.
Defined.

(** ** Who is called in a pass *)

Section Pass.

Lemma filter_all {A : Type} (P : A -> Prop) `{forall x, Decision (P x)}
    (l : list A) :
  (forall x, x ∈ l -> P x) -> filter P l = l.
Proof.
  induction l as [|x l IH]; intros Hall; [reflexivity|].
  rewrite filter_cons_True by (apply Hall, list_elem_of_here).
  f_equal. apply IH. intros y Hy. apply Hall. now apply list_elem_of_further.
Qed.

(** Pulling a listener out of an array of distinct listeners takes out the
    one entry it stands at. *)
Lemma pull_at (listeners : list Listener) (k : nat) (l : Listener) :
  NoDup (ref <$> listeners) -> listeners !! k = Some l ->
  filter (fun x => ref x ≠ ref l) listeners =
  take k listeners ++ drop (S k) listeners.
Proof.
  intros Hnd Hk.
  rewrite <- (take_drop_middle listeners k l Hk) in Hnd at 1.
  rewrite <- (take_drop_middle listeners k l Hk) at 1.
  rewrite fmap_app, fmap_cons in Hnd.
  apply NoDup_app in Hnd as (_ & Hfront & Hback).
  apply NoDup_cons in Hback as [Hback _].
  rewrite filter_app, filter_cons_False by (intros Hn; now apply Hn).
  rewrite !filter_all; [reflexivity| |].
  - intros x Hx Heq. apply Hback. rewrite <- Heq.
    apply list_elem_of_fmap. eauto.
  - intros x Hx Heq. apply (Hfront (ref x)).
    + apply list_elem_of_fmap. eauto.
    + rewrite Heq. apply list_elem_of_here.
Qed.

Lemma fold_countPod_says (buildNumber : string) :
  forall pods acc,
    dispatched acc.2 = [] ->
    dispatched (fold_left (countPod buildNumber) pods acc).2 = [].
Proof.
  induction pods as [|pod pods IH]; intros acc H; simpl; [exact H|].
  apply IH. unfold countPod.
  destruct (bool_decide _); [|exact H].
  destruct (unexpectedState _); [|destruct (_ && _); exact H].
  simpl. unfold dispatched in *. rewrite omap_app, H. reflexivity.
Qed.

(** One call of a listener: what it writes, and what it leaves of the
    array. *)
Lemma listener_call (l : Listener) (pods : list Pod.t) (g : Globals) :
  exists evs,
    trace (listener l pods g) = trace g ++ evs /\
    dispatched evs = [] /\
    pollingListeners (listener l pods g) =
      if resolves pods l
      then filter (fun x => ref x ≠ ref l) (pollingListeners g)
      else pollingListeners g.
Proof.
  pose proof (fold_countPod_says (buildNumber l)
    (filter (fun pod => Pod.name pod = Deployment.name (deployment l)) pods)
    (mkCounters 0 0, []) eq_refl) as Hlogs.
  fold (countPods (Deployment.name (deployment l)) (buildNumber l) pods)
    in Hlogs.
  unfold resolves.
  destruct (Nat.eqb_spec
              (length (filter (succeeded (Deployment.name (deployment l))
                                 (buildNumber l)) pods) +
               length (filter (hasFailed (Deployment.name (deployment l))
                                 (buildNumber l)) pods))
              (Deployment.desiredCount (deployment l))) as [Hsum|Hsum].
  - rewrite (listener_resolved l pods g Hsum).
    destruct (0 <? _)%nat; simpl; rewrite <- app_assoc;
      (eexists; split; [reflexivity|]); (split; [|reflexivity]);
      unfold dispatched in *; rewrite omap_app, Hlogs; reflexivity.
  - rewrite (listener_waiting l pods g Hsum). simpl. eauto.
Qed.

Lemma calledFrom_skip (pods : list Pod.t) (listeners : list Listener) :
  calledFrom true pods listeners = calledFrom false pods (drop 1 listeners).
Proof. now destruct listeners. Qed.

Lemma keptFrom_skip (pods : list Pod.t) (listeners : list Listener) :
  keptFrom true pods listeners =
  take 1 listeners ++ keptFrom false pods (drop 1 listeners).
Proof. now destruct listeners. Qed.

(** The loop of [forEach], from index [k] on. *)
Lemma forEachListener_calls (pods : list Pod.t) :
  forall count k g,
    NoDup (ref <$> pollingListeners g) ->
    length (pollingListeners g) <= k + count ->
    exists evs,
      trace (forEachListener count k pods g) = trace g ++ evs /\
      dispatched evs =
        ref <$> calledFrom false pods (drop k (pollingListeners g)) /\
      pollingListeners (forEachListener count k pods g) =
        take k (pollingListeners g) ++
        keptFrom false pods (drop k (pollingListeners g)).
Proof.
  induction count as [|count IH]; intros k g Hnd Hlen.
  - exists []. simpl. rewrite app_nil_r, drop_ge, take_ge by lia.
    now rewrite app_nil_r.
  - cbn [forEachListener].
    destruct (pollingListeners g !! k) as [l|] eqn:El.
    + destruct (listener_call l pods (emit [Dispatch (ref l)] g))
        as (evs1 & Htr & Hquiet & Hleft).
      simpl in Htr, Hleft.
      rewrite (drop_S _ _ _ El). cbn [calledFrom keptFrom].
      destruct (resolves pods l) eqn:Er.
      * rewrite (pull_at _ k l Hnd El) in Hleft.
        assert (Hk : k < length (pollingListeners g))
          by (eapply lookup_lt_Some, El).
        destruct (IH (S k) (listener l pods (emit [Dispatch (ref l)] g)))
          as (evs2 & Htr2 & Hd2 & Hl2).
        { rewrite Hleft. rewrite <- (take_drop_middle _ k l El) in Hnd.
          rewrite !fmap_app, fmap_cons in *.
          apply NoDup_app in Hnd as (H1 & H2 & H3).
          apply NoDup_cons in H3 as [_ H3].
          apply NoDup_app. split; [exact H1|]. split; [|exact H3].
          intros x Hx Hx'. apply (H2 x Hx). now apply list_elem_of_further. }
        { rewrite Hleft, length_app, length_take, length_drop. lia. }
        assert (Hdrop : drop (S k) (take k (pollingListeners g) ++
                                    drop (S k) (pollingListeners g)) =
                        drop 1 (drop (S k) (pollingListeners g))).
        { replace (S k) with (k + 1) at 1 by lia.
          rewrite drop_app_add' by (rewrite length_take; lia). reflexivity. }
        assert (Htake : take (S k) (take k (pollingListeners g) ++
                                    drop (S k) (pollingListeners g)) =
                        take k (pollingListeners g) ++
                        take 1 (drop (S k) (pollingListeners g))).
        { replace (S k) with (k + 1) at 1 by lia.
          rewrite take_app_add' by (rewrite length_take; lia). reflexivity. }
        rewrite Hleft, Hdrop in Hd2. rewrite Hleft, Hdrop, Htake in Hl2.
        rewrite Htr2, Htr, Hl2, <- !app_assoc.
        eexists. split; [reflexivity|]. split.
        -- unfold dispatched in *. rewrite !omap_app, Hquiet, Hd2. simpl.
           now rewrite calledFrom_skip.
        -- now rewrite keptFrom_skip.
      * destruct (IH (S k) (listener l pods (emit [Dispatch (ref l)] g)))
          as (evs2 & Htr2 & Hd2 & Hl2).
        { now rewrite Hleft. }
        { rewrite Hleft. lia. }
        rewrite Hleft in Hd2, Hl2.
        rewrite Htr2, Htr, Hl2, <- !app_assoc.
        eexists. split; [reflexivity|]. split.
        -- unfold dispatched in *. rewrite !omap_app, Hquiet, Hd2.
           reflexivity.
        -- rewrite (take_S_r _ _ _ El), <- app_assoc. reflexivity.
    + apply lookup_ge_None in El.
      destruct (IH (S k) g Hnd) as (evs & Htr & Hd & Hl); [lia|].
      exists evs. rewrite drop_ge in * by lia. rewrite take_ge in * by lia.
      auto.
Qed.

Lemma calledFrom_all (pods : list Pod.t) (listeners : list Listener) :
  Forall (fun l => resolves pods l = false) listeners ->
  calledFrom false pods listeners = listeners /\
  keptFrom false pods listeners = listeners.
Proof.
  induction 1 as [|l rest Hl Hrest [IH1 IH2]]; [auto|].
  simpl. now rewrite Hl, IH1, IH2.
Qed.

End Pass.

(** Who is called in a pass.  With the listeners distinct, the pass of
    [pollPods] over [pollingListeners] calls, in the order of the array,
    every listener but those that stand right behind a called listener that
    resolves: each listener that resolves takes itself out of the array
    [forEach] is walking, and the one behind it moves into the place just
    visited.  The listeners left registered are those passed over and those
    called that did not resolve.  So in a pass in which no listener resolves
    every listener is called, once, and all stay registered. *)
Theorem dispatch_calls_exactly (pods : list Pod.t) (g : Globals) :
  NoDup (ref <$> pollingListeners g) ->
  (exists evs,
     trace (dispatch pods g) = trace g ++ evs /\
     dispatched evs = ref <$> called pods (pollingListeners g)) /\
  pollingListeners (dispatch pods g) = kept pods (pollingListeners g) /\
  (Forall (fun l => resolves pods l = false) (pollingListeners g) ->
   called pods (pollingListeners g) = pollingListeners g /\
   kept pods (pollingListeners g) = pollingListeners g).
Proof.
  intros Hnd.
  destruct (forEachListener_calls pods (length (pollingListeners g)) 0 g Hnd)
    as (evs & Htr & Hd & Hl); [lia|].
  fold (dispatch pods g) in Htr, Hl. rewrite drop_0 in Hd, Hl.
  split; [exists evs; split; [exact Htr | exact Hd]|].
  split; [exact Hl|]. apply calledFrom_all.
Qed.

(** The theorem at the tick of the run with two targets that finds both
    pods up: the listener of "a" is called and resolves, the listener of "b"
    is passed over and stays. *)
Lemma dispatch_calls_exactly_witness :
  NoDup (ref <$> pollingListeners afterB) /\
  called bothReady (pollingListeners afterB) = [listenerA] /\
  pollingListeners (dispatch bothReady afterB) = [listenerB].
Proof.
  assert (Hnd : NoDup (ref <$> pollingListeners afterB)).
  { change (NoDup [0; 1]). apply NoDup_cons.
    split; [|apply NoDup_singleton].
    intros H. apply list_elem_of_singleton in H. discriminate. }
  split; [exact Hnd|]. split; [reflexivity|].
  destruct (dispatch_calls_exactly bothReady afterB Hnd) as (_ & Hl & _).
  rewrite Hl. reflexivity.
Defined.

(** ** The tick that resolves the last target *)



(** * The deadline, the tick among other callbacks, and builds already there *)

(** ** The line of the deadline *)

Section JoinFacts.

Lemma join_cons (sep x y : string) (l : list string) :
  join sep (x :: y :: l) = x +:+ sep +:+ join sep (y :: l).
Proof. reflexivity. Qed.

(** Every element of the array is in the joined text. *)
Lemma join_includes (sep : string) (l : list string) (t : string) :
  t ∈ l -> includes t (join sep l) = true.
Proof.
  induction l as [|x [|y l] IH]; intros Hin.
  - now apply not_elem_of_nil in Hin.
  - apply list_elem_of_singleton in Hin as ->. apply includes_spec.
    exists "", "". simpl. now rewrite append_nil_r.
  - rewrite join_cons. apply includes_spec.
    apply elem_of_cons in Hin as [->|Hin].
    + exists "", (sep +:+ join sep (y :: l)). reflexivity.
    + apply IH, includes_spec in Hin as (pre & post & ->).
      exists (x +:+ sep +:+ pre), post. now rewrite !append_assoc.
Qed.

(** The joined text is made of the elements and of one separator between
    any two of them. *)
Lemma join_length (sep : string) (l : list string) :
  String.length (join sep l) =
  list_sum (String.length <$> l) + String.length sep * (length l - 1).
Proof.
  induction l as [|x [|y l] IH].
  - simpl. lia.
  - simpl. lia.
  - rewrite join_cons, !length_append, IH. simpl. lia.
Qed.

End JoinFacts.

(** C3.  At a tick whose elapsed time, in whole seconds since the loop
    started, is above the timeout (600 unless configured), [pollPods] writes
    the line of the deadline and leaves the process with status 1; it runs
    no command, so no snapshot is fetched, and no further tick is scheduled.
    The line names every target still in [pollingTargets]: its text is these
    names, in the order of the list, with ", " between any two of them. *)
Theorem pollPods_deadline (kubeConfig namespace : option string) (w : world)
    (now : Z) (g : Globals) (timeout : Z) :
  pollTimeout g = Num timeout ->
  (timeout < elapsed now (startClock now g))%Z ->
  pollTimeout initial = Num 600 /\
  exists g' names,
    pollPods kubeConfig namespace w now g = Exited 1 g' /\
    trace g' = trace g ++ [Log (TimeoutReached names); ProcessExit 1] /\
    names = join ", " (pollingTargets g) /\
    Forall (fun t => includes t names = true) (pollingTargets g) /\
    String.length names =
      list_sum (String.length <$> pollingTargets g) +
      2 * (length (pollingTargets g) - 1) /\
    occurrences isExec (trace g') = occurrences isExec (trace g) /\
    pollingTargets g' = pollingTargets g.
Proof.
  intros Ht Hlate. split; [reflexivity|].
  unfold pollPods.
  assert (Hsame : pollTimeout (startClock now g) = Num timeout /\
                  pollingTargets (startClock now g) = pollingTargets g /\
                  trace (startClock now g) = trace g).
  { unfold startClock. destruct (unset (pollStarted g)); simpl; auto. }
  destruct Hsame as (Ht' & Htg & Htr).
  rewrite Ht'. simpl exceeds.
  destruct (Z.ltb_spec timeout (elapsed now (startClock now g))); [|lia].
  eexists. exists (join ", " (pollingTargets g)).
  split; [reflexivity|]. simpl. rewrite Htg, Htr, <- app_assoc.
  split; [reflexivity|]. split; [reflexivity|].
  split; [apply Forall_forall; intros t Hin; now apply join_includes|].
  split; [apply join_length|].
  split; [|reflexivity]. rewrite occurrences_app. simpl. lia.
Qed.

(** The theorem at a tick 601 seconds after the loop of the two targets
    started: the line names "a" and "b". *)
Lemma pollPods_deadline_witness :
  pollTimeout afterB = Num 600 /\
  (600 < elapsed 701 (startClock 701 afterB))%Z /\
  exists g',
    pollPods None None clusterStarting 701 afterB = Exited 1 g' /\
    trace g' = trace afterB ++ [Log (TimeoutReached "a, b"); ProcessExit 1] /\
    pollingTargets g' = ["a"; "b"].
Proof.
  split; [reflexivity|]. split; [reflexivity|].
  destruct (pollPods_deadline None None clusterStarting 701 afterB 600
              eq_refl eq_refl)
    as (_ & g' & names & H & Htr & Hnames & _ & _ & _ & Htg).
  exists g'. split; [exact H|]. split.
  - rewrite Htr, Hnames. reflexivity.
  - rewrite Htg. reflexivity.
Defined.

(** ** The tick among the other callbacks *)

Section TickAmid.

Variables kubeConfig namespace : option string.

Lemma emit_emit (a b : list event) (g : Globals) :
  emit b (emit a g) = emit (a ++ b) g.
Proof. unfold emit. simpl. now rewrite app_assoc. Qed.

(** With nothing in between, the snapshot is that of
    [getPodsWithBuildNumbers]. *)
Lemma getPodsWithBuildNumbersAmid_alone (w : world) (g : Globals) :
  getPodsWithBuildNumbersAmid kubeConfig namespace id id w pollingTargets g =
  (emit (getPodsWithBuildNumbers kubeConfig namespace w (pollingTargets g)).1
     g,
   (getPodsWithBuildNumbers kubeConfig namespace w (pollingTargets g)).2).
Proof.
  unfold getPodsWithBuildNumbersAmid, getPodsWithBuildNumbers.
  destruct (execRetry _ _ w "get pods" _ _ _) as [evs1 [out1| |]];
    try reflexivity.
  destruct (parsePods out1) as [parsed|]; [|reflexivity].
  cbn [pollingTargets emit id].
  destruct (execRetry _ _ w "get pod" _ _ _) as [evs2 [out2| |]];
    try (cbn [fst snd]; now rewrite emit_emit).
  destruct (withBuildNumbers _ out2); cbn [fst snd]; now rewrite emit_emit.
Qed.

Lemma pollPodsAmid_alone (w : world) (now : Z) (g : Globals) :
  pollPodsAmid kubeConfig namespace id id w now g =
  pollPods kubeConfig namespace w now g.
Proof.
  unfold pollPodsAmid, pollPods.
  destruct (exceeds _ _); [reflexivity|].
  rewrite getPodsWithBuildNumbersAmid_alone.
  destruct (getPodsWithBuildNumbers _ _ w _) as [evs [pods| |]]; reflexivity.
Qed.

(** The loops over the matches end, whatever happens in between. *)
Lemma getPodsWithBuildNumbersAmid_ends
    (meanwhile1 meanwhile2 : Globals -> Globals) (w : world)
    (deployments : Globals -> list string) (g : Globals) :
  (getPodsWithBuildNumbersAmid kubeConfig namespace meanwhile1 meanwhile2 w
     deployments g).2 <> Endless.
Proof.
  unfold getPodsWithBuildNumbersAmid.
  destruct (execRetry _ _ w "get pods" _ _ _) as [evs1 [out1| |]];
    try discriminate.
  destruct (parsePods_total out1) as (parsed & ->).
  destruct (execRetry _ _ w "get pod" _ _ _) as [evs2 [out2| |]];
    try discriminate.
  destruct (withBuildNumbers_total
              (filter (fun pod => Pod.name pod ∈
                         deployments (emit evs1 (meanwhile1 g))) parsed) out2)
    as (pods' & ->).
  discriminate.
Qed.

(** The queries of a tick leave the list of targets to the other
    callbacks. *)
Lemma getPodsWithBuildNumbersAmid_targets
    (meanwhile1 meanwhile2 : Globals -> Globals) (w : world)
    (deployments : Globals -> list string) (g : Globals) :
  (forall h, pollingTargets (meanwhile1 h) = pollingTargets h) ->
  (forall h, pollingTargets (meanwhile2 h) = pollingTargets h) ->
  pollingTargets
    (getPodsWithBuildNumbersAmid kubeConfig namespace meanwhile1 meanwhile2 w
       deployments g).1 = pollingTargets g.
Proof.
  intros H1 H2. unfold getPodsWithBuildNumbersAmid.
  destruct (execRetry _ _ w "get pods" _ _ _) as [evs1 [out1| |]];
    cbn [fst pollingTargets emit]; auto.
  destruct (parsePods out1) as [parsed|]; cbn [fst pollingTargets emit]; auto.
  destruct (execRetry _ _ w "get pod" _ _ _) as [evs2 [out2| |]];
    [destruct (withBuildNumbers _ out2)|..];
    cbn [fst pollingTargets emit]; rewrite H2; cbn [pollingTargets emit];
    auto.
Qed.

End TickAmid.

(** ** The list of targets after a pass *)

Section PassTargets.

(** One call of a listener: what it leaves of the list of targets. *)
Lemma listener_call_targets (l : Listener) (pods : list Pod.t) (g : Globals) :
  pollingTargets (listener l pods g) =
  if resolves pods l
  then filter (fun t => t ≠ Deployment.name (deployment l)) (pollingTargets g)
  else pollingTargets g.
Proof.
  unfold resolves.
  destruct (Nat.eqb_spec
              (length (filter (succeeded (Deployment.name (deployment l))
                                 (buildNumber l)) pods) +
               length (filter (hasFailed (Deployment.name (deployment l))
                                 (buildNumber l)) pods))
              (Deployment.desiredCount (deployment l))) as [Hsum|Hsum].
  - rewrite (listener_resolved l pods g Hsum).
    destruct (0 <? _)%nat; reflexivity.
  - now rewrite (listener_waiting l pods g Hsum).
Qed.

Lemma resolvedFrom_skip (pods : list Pod.t) (listeners : list Listener) :
  resolvedFrom true pods listeners = resolvedFrom false pods (drop 1 listeners).
Proof. unfold resolvedFrom. now rewrite calledFrom_skip. Qed.

(** The loop of [forEach], from index [k] on: the names that leave the
    list. *)
Lemma forEachListener_pulls (pods : list Pod.t) :
  forall count k g,
    NoDup (ref <$> pollingListeners g) ->
    length (pollingListeners g) <= k + count ->
    pollingTargets (forEachListener count k pods g) =
    filter (fun t => t ∉ resolvedFrom false pods (drop k (pollingListeners g)))
      (pollingTargets g).
Proof.
  induction count as [|count IH]; intros k g Hnd Hlen.
  - simpl. rewrite drop_ge by lia. symmetry. apply filter_all.
    intros t _. apply not_elem_of_nil.
  - cbn [forEachListener].
    destruct (pollingListeners g !! k) as [l|] eqn:El.
    + destruct (listener_call l pods (emit [Dispatch (ref l)] g))
        as (evs1 & _ & _ & Hleft).
      pose proof (listener_call_targets l pods (emit [Dispatch (ref l)] g))
        as Htar.
      simpl in Hleft, Htar.
      rewrite (drop_S _ _ _ El). unfold resolvedFrom. cbn [calledFrom].
      destruct (resolves pods l) eqn:Er.
      * rewrite (pull_at _ k l Hnd El) in Hleft.
        assert (Hk : k < length (pollingListeners g))
          by (eapply lookup_lt_Some, El).
        rewrite IH; cycle 1.
        { rewrite Hleft. rewrite <- (take_drop_middle _ k l El) in Hnd.
          rewrite !fmap_app, fmap_cons in *.
          apply NoDup_app in Hnd as (H1 & H2 & H3).
          apply NoDup_cons in H3 as [_ H3].
          apply NoDup_app. split; [exact H1|]. split; [|exact H3].
          intros x Hx Hx'. apply (H2 x Hx). now apply list_elem_of_further. }
        { rewrite Hleft, length_app, length_take, length_drop. lia. }
        assert (Hdrop : drop (S k) (take k (pollingListeners g) ++
                                    drop (S k) (pollingListeners g)) =
                        drop 1 (drop (S k) (pollingListeners g))).
        { replace (S k) with (k + 1) at 1 by lia.
          rewrite drop_app_add' by (rewrite length_take; lia). reflexivity. }
        rewrite Hleft, Hdrop, Htar, <- resolvedFrom_skip.
        rewrite filter_cons_True by exact Er.
        rewrite list_filter_filter. apply list_filter_iff.
        intros t. unfold resolvedFrom. rewrite fmap_cons, not_elem_of_cons.
        tauto.
      * rewrite IH; cycle 1.
        { now rewrite Hleft. }
        { rewrite Hleft. lia. }
        rewrite Hleft, Htar.
        rewrite filter_cons_False by (rewrite Er; discriminate).
        reflexivity.
    + apply lookup_ge_None in El.
      rewrite IH by (auto; lia). now rewrite !drop_ge by lia.
Qed.

(** A pass over distinct listeners takes out of the list every occurrence of
    the names of the listeners it calls that resolve, and nothing else. *)
Lemma dispatch_pulls (pods : list Pod.t) (g : Globals) :
  NoDup (ref <$> pollingListeners g) ->
  pollingTargets (dispatch pods g) =
  filter (fun t => t ∉ resolvedNames pods (pollingListeners g))
    (pollingTargets g).
Proof.
  intros Hnd. unfold dispatch.
  rewrite (forEachListener_pulls pods _ 0 g Hnd) by lia.
  now rewrite drop_0.
Qed.

End PassTargets.

(** C5, amended.  The code of the loop never adds a target.  A tick is made
    of three runs of code, with the two queries of the snapshot in between,
    and whatever the other callbacks do to the variables while a query is
    under way, this holds.  A tick past the deadline leaves the list as it
    found it.  Otherwise the list the tick leaves is the list as it stands
    when the snapshot is dispatched, with every occurrence taken out of the
    names of the listeners that the pass calls and that resolve (the
    listeners being distinct), and as it stands when a query has run out of
    retries.  When the other callbacks leave the list alone, the list at that
    moment is the one the tick found, so that every name a tick is seen to
    add has been pushed by another callback.  A tick ends the process exactly
    when the deadline has passed at its start, or one of its queries has run
    out of retries, or the list is empty after the dispatch; otherwise it has
    scheduled the next tick, [pollInterval] later, with a list that is not
    empty.  With nothing in between, the tick is that of [pollPods]. *)
Theorem pollPods_tick (kubeConfig namespace : option string)
    (meanwhile1 meanwhile2 : Globals -> Globals) (w : world) (now : Z)
    (g : Globals) :
  let g0 := startClock now g in
  let late := exceeds (elapsed now g0) (pollTimeout g0) in
  let fetched :=
    getPodsWithBuildNumbersAmid kubeConfig namespace meanwhile1 meanwhile2 w
      pollingTargets g0 in
  let result :=
    pollPodsAmid kubeConfig namespace meanwhile1 meanwhile2 w now g in
  pollPodsAmid kubeConfig namespace id id w now g =
    pollPods kubeConfig namespace w now g /\
  (late = true -> pollingTargets (stateOf result) = pollingTargets g) /\
  (late = false ->
   match fetched.2 with
   | Pods pods =>
       sublist (pollingTargets (stateOf result)) (pollingTargets fetched.1) /\
       (NoDup (ref <$> pollingListeners fetched.1) ->
        pollingTargets (stateOf result) =
        filter (fun t => t ∉ resolvedNames pods (pollingListeners fetched.1))
          (pollingTargets fetched.1))
   | NoPods | Endless =>
       pollingTargets (stateOf result) = pollingTargets fetched.1
   end) /\
  ((forall h, pollingTargets (meanwhile1 h) = pollingTargets h) ->
   (forall h, pollingTargets (meanwhile2 h) = pollingTargets h) ->
   pollingTargets fetched.1 = pollingTargets g) /\
  ((exists code g', result = Exited code g') <->
   late = true \/
   fetched.2 = NoPods \/
   exists pods, fetched.2 = Pods pods /\
     pollingTargets (dispatch pods fetched.1) = []) /\
  ((exists g', result = Returned g' /\ pollingTargets g' <> [] /\
               last (trace g') = Some (PollIn pollInterval)) \/
   (exists code g', result = Exited code g')).
Proof.
  cbv zeta. split; [apply pollPodsAmid_alone|].
  unfold pollPodsAmid.
  pose proof (getPodsWithBuildNumbersAmid_ends kubeConfig namespace
                meanwhile1 meanwhile2 w pollingTargets (startClock now g))
    as Hends.
  pose proof (getPodsWithBuildNumbersAmid_targets kubeConfig namespace
                meanwhile1 meanwhile2 w pollingTargets (startClock now g))
    as Halone.
  rewrite startClock_targets in Halone.
  destruct (exceeds _ _) eqn:Elate.
  { simpl. rewrite startClock_targets. split; [reflexivity|].
    split; [discriminate|]. split; [exact Halone|].
    split; [split; eauto | right; eauto]. }
  split; [discriminate|].
  destruct (getPodsWithBuildNumbersAmid _ _ _ _ w _ _) as [gd [pods| |]]
    eqn:Efetch; cbn [fst snd] in *; [| |contradiction].
  - pose proof (dispatch_targets pods gd) as Hsub.
    destruct (pollingTargets (dispatch pods gd)) as [|t ts] eqn:Etargets;
      cbn [length Nat.eqb].
    + destruct (finishUpdate_exits (dispatch pods gd))
        as (code & g' & -> & Hg'). simpl. rewrite Hg', Etargets.
      split.
      { intros _. split; [apply sublist_nil_l|]. intros Hnd.
        now rewrite <- (dispatch_pulls pods gd Hnd). }
      split; [exact Halone|]. split; [|right; eauto].
      split; [|eauto]. intros _. right. right. eauto.
    + simpl. rewrite Etargets. split.
      { intros _. split; [exact Hsub|]. intros Hnd.
        now rewrite <- (dispatch_pulls pods gd Hnd). }
      split; [exact Halone|]. split.
      * split; [intros (? & ? & ?); discriminate|].
        intros [H|[H|(pods0 & H1 & H2)]]; [discriminate..|].
        injection H1 as <-. rewrite Etargets in H2. discriminate.
      * left. eexists. split; [reflexivity|]. simpl. rewrite Etargets.
        split; [discriminate | apply last_snoc].
  - simpl. split; [reflexivity|]. split; [exact Halone|].
    split; [|right; eauto]. split; eauto.
Qed.

(** The theorem at the second tick of the run with two targets, with the
    callback of the main program for "b=2" running while "kubectl get pods"
    is under way.  The tick finds the list with "a" alone.  The callback
    pushes "b", so that the filter of the snapshot lets the pod of "b"
    through; the pass calls the listener of "a", which resolves, and the
    tick leaves the list with "b" alone, a name that was not there when it
    began. *)
Lemma pollPods_tick_witness :
  pollingTargets afterA = ["a"] /\
  (getPodsWithBuildNumbersAmid None None callbackForB id clusterReady
     pollingTargets (startClock 105 afterA)).2 = Pods bothReady /\
  exists g',
    pollPodsAmid None None callbackForB id clusterReady 105 afterA
    = Returned g' /\
    pollingTargets g' = ["b"].
Proof.
  split; [reflexivity|].
  destruct (pollPods_tick None None callbackForB id clusterReady 105 afterA)
    as (_ & _ & Hlist & _ & _ & Hnext).
  cbv zeta in Hlist, Hnext.
  specialize (Hlist eq_refl).
  destruct (getPodsWithBuildNumbersAmid None None callbackForB id
              clusterReady pollingTargets (startClock 105 afterA))
    as [gd snap] eqn:Efetch.
  assert (Hsnap : snap = Pods bothReady /\
                  pollingListeners gd = [listenerA; listenerB] /\
                  pollingTargets gd = ["a"; "b"]).
  { vm_compute in Efetch. injection Efetch as <- <-. repeat split. }
  destruct Hsnap as (-> & Hls & Hts). cbn [fst snd] in *.
  split; [reflexivity|].
  destruct Hlist as [_ Hexact].
  assert (Hnd : NoDup (ref <$> pollingListeners gd)).
  { rewrite Hls. change (NoDup [0; 1]). apply NoDup_cons.
    split; [|apply NoDup_singleton].
    intros H. apply list_elem_of_singleton in H. discriminate. }
  specialize (Hexact Hnd). rewrite Hls, Hts in Hexact.
  destruct Hnext as [(g' & Hret & _)|(code & g' & Hex)].
  - exists g'. split; [exact Hret|].
    rewrite Hret in Hexact. simpl stateOf in Hexact. rewrite Hexact.
    vm_compute. reflexivity.
  - rewrite Hex in Hexact. simpl in Hexact.
    assert (Hfin : pollPodsAmid None None callbackForB id clusterReady 105
                     afterA = Exited code g') by exact Hex.
    vm_compute in Hfin. discriminate Hfin.
Defined.

(** ** A build that is already there *)

Section AlreadyThere.

Variables kubeConfig namespace : option string.

(** Neither query of a snapshot is taken for the update: the command of the
    update begins with "kubectl get deployment ". *)
Lemma snapshotQuery_is_no_update (c extra : string) :
  snapshotQuery c ->
  String.prefix "kubectl get deployment " (c +:+ extra) = false.
Proof. intros [->|(ids & ->)]; reflexivity. Qed.

Lemma runsOnly_nil (commands : string -> Prop) (extra : string) :
  runsOnly commands extra [].
Proof. constructor. Qed.

Lemma runsOnly_logs (commands : string -> Prop) (extra : string)
    (lines : list logLine) :
  runsOnly commands extra (Log <$> lines).
Proof.
  apply Forall_fmap, Forall_forall. intros line _ command H. discriminate.
Qed.

End AlreadyThere.

(** A build that is already there is not applied again.  When the
    deployment is found configured to the requested build, the callback of
    the main program appends the name to [pollingTargets] and never runs the
    update: every command run in the call is one of the two queries of a
    snapshot, and none begins with "kubectl get deployment ".  When the pods
    found at start already make up the wanted number of replicas (Running,
    ready, of that build), that is all: two lines are written, no command is
    run, no listener is registered and the loop is not started.  When they
    do not, a listener for the deployment and the requested build is
    registered, and the loop, if it has not been started, is started with
    its first tick at once. *)
Theorem already_configured_runs_no_update (kubeConfig namespace : option string)
    (w : world) (now : Z) (serviceName requested : string)
    (foundDeployment : Deployment.t) (pods : list Pod.t) (g : Globals) :
  let result :=
    onDeploymentBuildNumber kubeConfig namespace w now
      [serviceName; requested] foundDeployment pods (Some requested) g in
  let running :=
    length (filter (fun pod => Pod.build pod = Some requested /\
                      Pod.state pod = "Running" /\ Pod.ready pod = true)
              pods) in
  let me := mkListener (closures g) foundDeployment requested in
  (exists evs,
     trace (stateOf result) = trace g ++ evs /\
     runsOnly snapshotQuery (getExtraParams kubeConfig namespace) evs /\
     forall command, Exec command ∈ evs ->
       String.prefix "kubectl get deployment " command = false) /\
  (running = Deployment.desiredCount foundDeployment ->
   exists g',
     result = Returned g' /\
     pollingTargets g' = pollingTargets g ++ [serviceName] /\
     pollingListeners g' = pollingListeners g /\
     pollingStarted g' = pollingStarted g /\
     pollingHasErrors g' = pollingHasErrors g /\
     trace g' = trace g ++ [Log (AlreadyConfigured serviceName (Some requested));
                            Log (AllUpToDate serviceName)]) /\
  (running <> Deployment.desiredCount foundDeployment ->
   exists g1,
     pollingTargets g1 = pollingTargets g ++ [serviceName] /\
     pollingListeners g1 = pollingListeners g ++ [me] /\
     pollingStarted g1 = true /\
     pollingHasErrors g1 = pollingHasErrors g /\
     trace g1 = trace g ++ [Log (AlreadyConfigured serviceName (Some requested));
                            Log (NotUpToDate serviceName)] /\
     result = if pollingStarted g then Returned g1
              else pollPods kubeConfig namespace w now g1).
Proof.
  cbv zeta. unfold onDeploymentBuildNumber.
  rewrite bool_decide_eq_true_2 by reflexivity.
  destruct (Nat.eqb_spec
              (length (filter (fun pod => Pod.build pod = Some requested /\
                                 Pod.state pod = "Running" /\
                                 Pod.ready pod = true) pods))
              (Deployment.desiredCount foundDeployment)) as [Hup|Hup].
  - split; [|split; [|contradiction]].
    + exists (Log <$> [AlreadyConfigured serviceName (Some requested);
                       AllUpToDate serviceName]).
      split; [simpl; now rewrite <- app_assoc|].
      split; [apply runsOnly_logs|].
      intros command Hin. apply list_elem_of_fmap in Hin as (? & ? & _).
      discriminate.
    + intros _. eexists. split; [reflexivity|]. simpl.
      rewrite <- app_assoc. repeat split.
  - unfold healthCheckPods. simpl pollingStarted.
    set (g1 := setPollingStarted true _).
    assert (Hg1 : pollingTargets g1 = pollingTargets g ++ [serviceName] /\
                  pollingListeners g1 =
                    pollingListeners g ++
                    [mkListener (closures g) foundDeployment requested] /\
                  pollingStarted g1 = true /\
                  pollingHasErrors g1 = pollingHasErrors g /\
                  trace g1 =
                    trace g ++
                    [Log (AlreadyConfigured serviceName (Some requested));
                     Log (NotUpToDate serviceName)]).
    { subst g1. simpl. rewrite <- app_assoc. repeat split. }
    split; [|split; [contradiction|]].
    + destruct (pollingStarted g) eqn:Es.
      * exists (Log <$> [AlreadyConfigured serviceName (Some requested);
                         NotUpToDate serviceName]).
        split; [simpl; now rewrite <- app_assoc|].
        split; [apply runsOnly_logs|].
        intros command Hin. apply list_elem_of_fmap in Hin as (? & ? & _).
        discriminate.
      * destruct (pollPods_trace kubeConfig namespace w now g1)
          as (evs & Htr & Hruns).
        destruct Hg1 as (_ & _ & _ & _ & Htr1).
        exists ([Log (AlreadyConfigured serviceName (Some requested));
                 Log (NotUpToDate serviceName)] ++ evs).
        split; [now rewrite Htr, Htr1, <- app_assoc|].
        assert (Hall : runsOnly snapshotQuery
                         (getExtraParams kubeConfig namespace)
                         ([Log (AlreadyConfigured serviceName (Some requested));
                           Log (NotUpToDate serviceName)] ++ evs)).
        { apply runsOnly_app; [|exact Hruns].
          apply (runsOnly_logs _ _ [AlreadyConfigured serviceName
                                      (Some requested);
                                    NotUpToDate serviceName]). }
        split; [exact Hall|].
        intros command Hin. unfold runsOnly in Hall.
        rewrite Forall_forall in Hall.
        destruct (Hall _ Hin command eq_refl) as (c & Hc & ->).
        now apply snapshotQuery_is_no_update.
    + intros _. destruct (pollingStarted g) eqn:Es.
      * exists (setPollingListeners
                  (pollingListeners g ++
                   [mkListener (closures g) foundDeployment requested])
                  (setClosures (S (closures g))
                     (emit [Log (NotUpToDate serviceName)]
                        (emit [Log (AlreadyConfigured serviceName
                                      (Some requested))]
                           (setPollingTargets
                              (pollingTargets g ++ [serviceName]) g))))).
        simpl. rewrite <- app_assoc. rewrite Es. repeat split.
      * exists g1. destruct Hg1 as (H1 & H2 & H3 & H4 & H5).
        repeat split; assumption.
Qed.

(** The theorem for [kubeimage a=2] when "a" is found configured to build 2
    with its new pod not there yet: the listener is registered, the loop
    starts, and the only commands run are the two queries of the first
    tick. *)
Lemma already_configured_runs_no_update_witness :
  exists g',
    onDeploymentBuildNumber None None clusterStarting 100 ["a"; "2"]
      deploymentA [] (Some "2") initial = Returned g' /\
    pollingTargets g' = ["a"] /\
    pollingListeners g' = [listenerA] /\
    omap (fun e => match e with Exec c => Some c | _ => None end) (trace g')
    = ["kubectl get pods"; "kubectl get pod a-1234567890-abcde -o yaml"] /\
    Forall (fun e => forall c, e = Exec c ->
              String.prefix "kubectl get deployment " c = false) (trace g').
Proof.
  destruct (already_configured_runs_no_update None None clusterStarting 100
              "a" "2" deploymentA [] initial) as ((evs & Htr & _ & Hno) & _).
  destruct (onDeploymentBuildNumber None None clusterStarting 100 ["a"; "2"]
              deploymentA [] (Some "2") initial) as [g'|c g'|e g'|g'] eqn:E;
    vm_compute in E; try discriminate E.
  exists g'. split; [reflexivity|].
  simpl in Htr. rewrite Htr. split; [|split; [|split]].
  - injection E as <-. reflexivity.
  - injection E as <-. reflexivity.
  - injection E as <-. rewrite <- Htr. reflexivity.
  - apply Forall_forall. intros e He c ->. apply Hno, He.
Defined.
